(** * Air-Traffic-Control: conflict geometry, bounded A* and the coordinator

    A shallow embedding of [atc_simulator.py].  Python floats are read
    as exact rationals ([Q]); the functions of Python's [math] module
    that the program calls ([sin], [cos], [radians], [sqrt]) are not part
    of the program and enter as parameters of the section [Simulator].
    [float('inf')] is an explicit extra value ([ext]).

    Exact arithmetic leaves out three things doubles do: [%] can round
    up to its divisor, [** 2] can overflow and raise, and [+] can absorb
    a small term.  The module [Binary64] reads the maneuver and the
    search on doubles; the facts that depend on rounding are stated
    there. *)

From Stdlib Require Import QArith Qround Qabs Qminmax Lqa ZArith Lia Ascii String Floats.
From stdpp Require Import gmap strings list.

Local Open Scope Q_scope.

(** ** Python arithmetic on rationals *)

(** [a % m] on floats: the result has the sign of [m]. *)
Definition py_mod (a m : Q) : Q := a - m * inject_Z (Qfloor (a / m)).

(** [max(a, b)]: the first argument unless the second is larger. *)
Definition py_max (a b : Q) : Q := if Qlt_le_dec a b then b else a.

(** [min(a, b)]: the first argument unless the second is smaller. *)
Definition py_min (a b : Q) : Q := if Qlt_le_dec b a then b else a.

(** [round(x, 0)]: nearest integer, ties to the even one. *)
Definition py_round0 (x : Q) : Z :=
  let f := Qfloor x in
  let r := x - inject_Z f in
  if Qlt_le_dec r (1#2) then f
  else if Qlt_le_dec (1#2) r then (f + 1)%Z
  else if Z.even f then f else (f + 1)%Z.

(** [round(x, 1)], kept as a number of tenths. *)
Definition py_round1 (x : Q) : Z := py_round0 (x * 10).

(** Values that may be [float('inf')]. *)
Inductive ext : Type :=
| Fin (q : Q)
| Inf.

Definition ext_eq (a b : ext) : Prop :=
  match a, b with
  | Fin p, Fin q => p == q
  | Inf, Inf => True
  | _, _ => False
  end.

(** [a >= q] for a possibly infinite [a]. *)
Definition ext_geb (a : ext) (q : Q) : bool :=
  match a with
  | Fin p => if Qlt_le_dec p q then false else true
  | Inf => true
  end.

(** [max(0, q - a)]: the deficit of [a] below [q]; nothing when [a] is infinite. *)
Definition ext_deficit (q : Q) (a : ext) : Q :=
  match a with
  | Fin p => py_max 0 (q - p)
  | Inf => 0
  end.

(** ** 1. Aircraft *)

Definition HORIZONTAL_MIN : Q := 5.
Definition VERTICAL_MIN : Q := 1000.

Record Aircraft : Type := mkAircraft {
  callsign : string;
  x : Q;
  y : Q;
  z : Q;
  speed : Q;
  heading : Q;
  conflict_alert : bool
}.

(** [Aircraft.__init__]: the heading is normalised, the alert is off. *)
Definition Aircraft_init (cs : string) (x0 y0 z0 speed_knots heading_deg : Q) : Aircraft :=
  mkAircraft cs x0 y0 z0 speed_knots (py_mod heading_deg 360) false.

Record Maneuver : Type := mkManeuver {
  m_callsign : string;
  heading_change : Q;
  altitude_change : Q;
  speed_change : Q
}.

Definition Maneuver_cost (m : Maneuver) : Q :=
  Qabs (heading_change m) * (1#10)
  + Qabs (altitude_change m / 1000) * (1#2)
  + Qabs (speed_change m / 50) * (2#10).

Definition apply_maneuver (ac : Aircraft) (m : Maneuver) : Aircraft :=
  mkAircraft (callsign ac) (x ac) (y ac)
    (py_max 5000 (z ac + altitude_change m))
    (py_max 200 (speed ac + speed_change m))
    (py_mod (heading ac + heading_change m) 360)
    (conflict_alert ac).

(** ** Python's [heapq] on a list

    [heapq] is what [a_star_search] keeps its open list in.  The two
    sifting loops move a hole through the array; they are bounded by the
    length of the list, which is the fuel of the two fixpoints. *)

Section Heapq.
Context {T : Type} (lt : T -> T -> bool).

(** The loop of [_siftdown(heap, startpos, pos)], [newitem] in hand. *)
Fixpoint siftdown_loop (fuel : nat) (heap : list T) (startpos pos : nat)
    (newitem : T) : list T :=
  match fuel with
  | O => <[pos := newitem]> heap
  | S fuel' =>
      if (startpos <? pos)%nat then
        let parentpos := ((pos - 1) / 2)%nat in
        let parent := default newitem (heap !! parentpos) in
        if lt newitem parent
        then siftdown_loop fuel' (<[pos := parent]> heap) startpos parentpos newitem
        else <[pos := newitem]> heap
      else <[pos := newitem]> heap
  end.

Definition siftdown (heap : list T) (startpos pos : nat) : list T :=
  match heap !! pos with
  | Some newitem => siftdown_loop (length heap) heap startpos pos newitem
  | None => heap
  end.

(** The loop of [_siftup(heap, pos)]: bubble the smaller child up until
    a leaf is hit; returns the array and the position of the hole. *)
Fixpoint siftup_loop (fuel : nat) (heap : list T) (pos : nat) (dflt : T)
    : list T * nat :=
  match fuel with
  | O => (heap, pos)
  | S fuel' =>
      let endpos := length heap in
      let childpos := (2 * pos + 1)%nat in
      if (childpos <? endpos)%nat then
        let rightpos := (childpos + 1)%nat in
        let childpos' :=
          if (rightpos <? endpos)%nat
             && negb (lt (default dflt (heap !! childpos))
                         (default dflt (heap !! rightpos)))
          then rightpos else childpos in
        siftup_loop fuel' (<[pos := default dflt (heap !! childpos')]> heap)
          childpos' dflt
      else (heap, pos)
  end.

Definition siftup (heap : list T) (pos : nat) : list T :=
  match heap !! pos with
  | Some newitem =>
      let '(heap', pos') := siftup_loop (length heap) heap pos newitem in
      siftdown (<[pos' := newitem]> heap') pos pos'
  | None => heap
  end.

Definition heappush (heap : list T) (item : T) : list T :=
  let heap' := heap ++ [item] in
  siftdown heap' 0 (length heap' - 1).

(** [heappop]: [None] stands for the [IndexError] on an empty list. *)
Definition heappop (heap : list T) : option (T * list T) :=
  match last heap with
  | None => None
  | Some lastelt =>
      let heap' := removelast heap in
      match heap' with
      | [] => Some (lastelt, heap')
      | returnitem :: _ => Some (returnitem, siftup (<[0%nat := lastelt]> heap') 0)
      end
  end.

End Heapq.

(** ** AI search structures *)

(** One aircraft's entry in a joint state: [(x, y, z, speed, heading)]. *)
Definition kinematic : Type := (Q * Q * Q * Q * Q)%type.

Definition kin_x (k : kinematic) : Q := k.1.1.1.1.
Definition kin_y (k : kinematic) : Q := k.1.1.1.2.
Definition kin_z (k : kinematic) : Q := k.1.1.2.

(** A Python [dict] keyed by callsign; insertion order is kept because
    [__hash__] walks [values()]. *)
Abbreviation states_dict := (list (string * kinematic)).

Fixpoint dict_get (d : states_dict) (k : string) : option kinematic :=
  match d with
  | [] => None
  | (k', v) :: d' => if decide (k' = k) then Some v else dict_get d' k
  end.

(** [d[k] = v]: overwrite in place, or append a new key. *)
Fixpoint dict_set (d : states_dict) (k : string) (v : kinematic) : states_dict :=
  match d with
  | [] => [(k, v)]
  | (k', v') :: d' =>
      if decide (k' = k) then (k, v) :: d' else (k', v') :: dict_set d' k v
  end.

(** [ConflictState(...)] is built either without parent and maneuver (the
    initial state) or with both (a successor). *)
Inductive ConflictState : Type :=
| Root (aircraft_states : states_dict) (g_cost h_cost f_cost : Q)
| Child (aircraft_states : states_dict) (g_cost h_cost f_cost : Q)
    (parent : ConflictState) (maneuver : Maneuver).

Definition aircraft_states (s : ConflictState) : states_dict :=
  match s with Root d _ _ _ | Child d _ _ _ _ _ => d end.
Definition g_cost (s : ConflictState) : Q :=
  match s with Root _ g _ _ | Child _ g _ _ _ _ => g end.
Definition h_cost (s : ConflictState) : Q :=
  match s with Root _ _ h _ | Child _ _ h _ _ _ => h end.
Definition f_cost (s : ConflictState) : Q :=
  match s with Root _ _ _ f | Child _ _ _ f _ _ => f end.
Definition parent (s : ConflictState) : option ConflictState :=
  match s with Root _ _ _ _ => None | Child _ _ _ _ p _ => Some p end.
Definition maneuver (s : ConflictState) : option Maneuver :=
  match s with Root _ _ _ _ => None | Child _ _ _ _ _ m => Some m end.

(** [ConflictState.__lt__] *)
Definition state_lt (a b : ConflictState) : bool :=
  if Qlt_le_dec (f_cost a) (f_cost b) then true else false.

(** The quantised tuple that [__hash__] hashes; the hash itself is taken
    to be injective on these tuples. *)
Abbreviation fingerprint := (list (Z * Z * Z * Z * Z)).

Definition quantise (k : kinematic) : Z * Z * Z * Z * Z :=
  let '(kx, ky, kz, ks, kh) := k in
  (py_round0 kx, py_round0 ky, py_round0 kz, py_round0 ks, py_round1 kh).

Definition state_hash (s : ConflictState) : fingerprint :=
  map (fun e => quantise e.2) (aircraft_states s).

Definition get_aircraft_data (s : ConflictState) (cs : string) : kinematic :=
  default (0, 0, 0, 0, 0) (dict_get (aircraft_states s) cs).

(** The walk up the parent links in [a_star_search], already reversed:
    oldest maneuver first. *)
Fixpoint reconstruct_path (s : ConflictState) : list Maneuver :=
  match s with
  | Root _ _ _ _ => []
  | Child _ _ _ _ p m => reconstruct_path p ++ [m]
  end.

Record ConflictResolver : Type := mkResolver {
  res_A : Aircraft;
  res_B : Aircraft;
  lookahead_hrs : Q
}.

Definition heading_maneuver (cs : string) (d : Q) : Maneuver := mkManeuver cs d 0 0.
Definition altitude_maneuver (cs : string) (d : Q) : Maneuver := mkManeuver cs 0 d 0.

Definition MANEUVER_OPTIONS (r : ConflictResolver) : list Maneuver :=
  map (heading_maneuver (callsign (res_A r))) [-10; 10; -5; 5]
  ++ map (heading_maneuver (callsign (res_B r))) [-10; 10; -5; 5]
  ++ map (altitude_maneuver (callsign (res_A r))) [-1000; 1000]
  ++ map (altitude_maneuver (callsign (res_B r))) [-1000; 1000].

(** ** Outcomes and the state of the search loop *)

Inductive exn : Type := KeyError | IndexError.

(** How a call ends: it returns a value or raises.  [OutOfFuel] is an
    artefact of the loop's fuel and is never the outcome of
    [a_star_search] (see [a_star_run_shape]). *)
Inductive result (A : Type) : Type :=
| Return (a : A)
| Raise (e : exn)
| OutOfFuel.
Arguments Return {A} a.
Arguments Raise {A} e.
Arguments OutOfFuel {A}.

Abbreviation outcome := (result (option (list Maneuver))).

Record SearchState : Type := mkSearch {
  open_list : list ConflictState;
  g_scores : gmap fingerprint Q;
  nodes_explored : nat
}.

Definition sq (a : Q) : Q := a * a.

Section Simulator.
(** [math.sin], [math.cos], [math.radians], [math.sqrt] *)
Variables math_sin math_cos math_radians math_sqrt : Q -> Q.

(** [_calculate_cpa] on the data of the two aircraft. *)
Definition cpa_of (lookahead : Q) (a b : kinematic) : ext * Q * Q :=
  let '(ax, ay, az, aspd, ahead) := a in
  let '(bx, by_, bz, bspd, bhead) := b in
  let vertical_sep := Qabs (az - bz) in
  if Qlt_le_dec vertical_sep VERTICAL_MIN then
    let vax := aspd * math_sin (math_radians ahead) in
    let vay := aspd * math_cos (math_radians ahead) in
    let vbx := bspd * math_sin (math_radians bhead) in
    let vby := bspd * math_cos (math_radians bhead) in
    let vrx := vbx - vax in
    let vry := vby - vay in
    let rx := bx - ax in
    let ry := by_ - ay in
    let v_rel_sq := sq vrx + sq vry in
    if Qlt_le_dec v_rel_sq (1#1000) then
      let dist_current := math_sqrt (sq rx + sq ry) in
      let tcpa := lookahead / 2 in
      (Fin dist_current, vertical_sep, tcpa)
    else
      let tcpa := - (rx * vrx + ry * vry) / v_rel_sq in
      let min_sep_dist :=
        if Qlt_le_dec tcpa 0 then math_sqrt (sq rx + sq ry)
        else math_sqrt (sq (rx + vrx * tcpa) + sq (ry + vry * tcpa)) in
      let min_sep_dist :=
        if Qlt_le_dec lookahead tcpa then
          py_min min_sep_dist
            (math_sqrt (sq (rx + vrx * lookahead) + sq (ry + vry * lookahead)))
        else min_sep_dist in
      (Fin min_sep_dist, vertical_sep, py_max 0 tcpa)
  else (Inf, vertical_sep, 0).

Definition _calculate_cpa (r : ConflictResolver) (state : ConflictState) : ext * Q * Q :=
  cpa_of (lookahead_hrs r)
    (get_aircraft_data state (callsign (res_A r)))
    (get_aircraft_data state (callsign (res_B r))).

Definition _heuristic (r : ConflictResolver) (state : ConflictState) : Q :=
  let '(h_dist, h_v_sep, _)   := _calculate_cpa r state in
  if ext_geb h_dist HORIZONTAL_MIN && ext_geb (Fin h_v_sep) VERTICAL_MIN then 0
  else
    let horizontal_penalty := ext_deficit HORIZONTAL_MIN h_dist / HORIZONTAL_MIN in
    let vertical_penalty := py_max 0 (VERTICAL_MIN - h_v_sep) / VERTICAL_MIN in
    (horizontal_penalty + vertical_penalty) * 5.

(** *** [a_star_search] *)

Definition max_search_nodes : nat := 1000.

(** The dict literal [{A.callsign: (...), B.callsign: (...)}]. *)
Definition initial_aircraft_data (r : ConflictResolver) : states_dict :=
  let a := res_A r in
  let b := res_B r in
  dict_set (dict_set [] (callsign a) (x a, y a, z a, speed a, heading a))
    (callsign b) (x b, y b, z b, speed b, heading b).

Definition initial_state (r : ConflictResolver) : ConflictState :=
  let h := _heuristic r (Root (initial_aircraft_data r) 0 0 0) in
  Root (initial_aircraft_data r) 0 h (0 + h).

(** The successor of [current_state] under one maneuver; [None] is the
    [KeyError] of [new_aircraft_states[callsign]]. *)
Definition successor (r : ConflictResolver) (current_state : ConflictState)
    (m : Maneuver) : option ConflictState :=
  let cs := m_callsign m in
  match dict_get (aircraft_states current_state) cs with
  | None => None
  | Some (x0, y0, z0, speed0, heading0) =>
      let temp_ac := apply_maneuver (Aircraft_init cs x0 y0 z0 speed0 heading0) m in
      let new_aircraft_states :=
        dict_set (aircraft_states current_state) cs
          (x temp_ac, y temp_ac, z temp_ac, speed temp_ac, heading temp_ac) in
      let g := g_cost current_state + Maneuver_cost m in
      let h := _heuristic r (Child new_aircraft_states g 0 0 current_state m) in
      Some (Child new_aircraft_states g h (g + h) current_state m)
  end.

(** One turn of the [for maneuver in self.MANEUVER_OPTIONS] loop. *)
Definition consider (r : ConflictResolver) (current_state : ConflictState)
    (acc : option (list ConflictState * gmap fingerprint Q)) (m : Maneuver)
    : option (list ConflictState * gmap fingerprint Q) :=
  match acc with
  | None => None
  | Some (open, gs) =>
      match successor r current_state m with
      | None => None
      | Some succ =>
          let known :=
            match gs !! state_hash succ with
            | Some g_old => if Qlt_le_dec (g_cost succ) g_old then false else true
            | None => false
            end in
          if known then Some (open, gs)
          else Some (heappush state_lt open succ,
                     <[state_hash succ := g_cost succ]> gs)
      end
  end.

Definition expand (r : ConflictResolver) (current_state : ConflictState)
    (open : list ConflictState) (gs : gmap fingerprint Q)
    : option (list ConflictState * gmap fingerprint Q) :=
  foldl (consider r current_state) (Some (open, gs)) (MANEUVER_OPTIONS r).

(** The [while open_list and nodes_explored < max_search_nodes] loop. *)
Fixpoint search_loop (fuel : nat) (r : ConflictResolver) (st : SearchState)
    : outcome * SearchState :=
  match fuel with
  | O => (OutOfFuel, st)
  | S fuel' =>
      match open_list st with
      | [] => (Return None, st)
      | _ :: _ =>
          if (nodes_explored st <? max_search_nodes)%nat then
            let n := S (nodes_explored st) in
            match heappop state_lt (open_list st) with
            | None => (Raise IndexError, mkSearch (open_list st) (g_scores st) n)
            | Some (current_state, open) =>
                if Qeq_bool (h_cost current_state) 0 then
                  (Return (Some (reconstruct_path current_state)),
                   mkSearch open (g_scores st) n)
                else
                  match expand r current_state open (g_scores st) with
                  | None => (Raise KeyError, mkSearch open (g_scores st) n)
                  | Some (open', gs') => search_loop fuel' r (mkSearch open' gs' n)
                  end
            end
          else (Return None, st)
      end
  end.

Definition search_start (r : ConflictResolver) : SearchState :=
  let s0 := initial_state r in
  mkSearch [s0] {[ state_hash s0 := 0 ]} 0.

Definition a_star_run (r : ConflictResolver) : outcome * SearchState :=
  search_loop (S max_search_nodes) r (search_start r).

Definition a_star_search (r : ConflictResolver) : outcome := (a_star_run r).1.
(** *** 2. ATC controller *)

Record ATC_Controller : Type := mkController {
  aircraft_list : list Aircraft;
  lookahead_time_min : Q;
  lookahead_time_hrs : Q;
  resolved_maneuvers : gmap string (list Maneuver)
}.

Definition ATC_Controller_init (lookahead_min : Q) : ATC_Controller :=
  mkController [] lookahead_min (lookahead_min / 60) ∅.

Definition add_aircraft (c : ATC_Controller) (aircraft : Aircraft) : ATC_Controller :=
  mkController (aircraft_list c ++ [aircraft]) (lookahead_time_min c)
    (lookahead_time_hrs c) (resolved_maneuvers c).

(** One line of the list [check_for_conflicts] returns: the two
    callsigns, the time string, the horizontal and the vertical
    separation, and the resolution status. *)
Inductive conflict_time : Type := Immediate | In_min (time_to_conflict : Q).
Inductive resolution_status : Type :=
| NO_RES_ATTEMPTED
| FAILED
| RESOLVED (steps : nat).

Record conflict_report : Type := mkReport {
  rep_a : string;
  rep_b : string;
  rep_time : conflict_time;
  rep_h_dist : Q;
  rep_v_dist : Q;
  rep_status : resolution_status
}.

Definition set_alert (v : bool) (ac : Aircraft) : Aircraft :=
  mkAircraft (callsign ac) (x ac) (y ac) (z ac) (speed ac) (heading ac) v.

(** [a.conflict_alert = b.conflict_alert = True] for the aircraft in
    slots [i] and [j]; every slot of the list holds its own object. *)
Definition alert_pair (i j : nat) (l : list Aircraft) : list Aircraft :=
  alter (set_alert true) j (alter (set_alert true) i l).

(** [self.resolved_maneuvers.setdefault(m.callsign, []).append(m)] for
    every maneuver of the path, in order. *)
Definition enqueue (q : gmap string (list Maneuver)) (m : Maneuver)
    : gmap string (list Maneuver) :=
  <[m_callsign m := default [] (q !! m_callsign m) ++ [m]]> q.

(** State of one pass over the pairs. *)
Record Scan : Type := mkScan {
  sc_aircraft : list Aircraft;
  sc_resolved : gmap string (list Maneuver);
  sc_conflicts : list conflict_report
}.

(** The body of the double loop for the pair of slots [(i, j)]. *)
Definition scan_pair (lookahead : Q) (st : Scan) (ij : nat * nat) : result Scan :=
  match sc_aircraft st !! ij.1, sc_aircraft st !! ij.2 with
  | Some a, Some b =>
      if decide (is_Some (sc_resolved st !! callsign a)
                 \/ is_Some (sc_resolved st !! callsign b))
      then Return st
      else
        let vertical_sep := Qabs (z a - z b) in
        if Qlt_le_dec vertical_sep VERTICAL_MIN then
          let vax := speed a * math_sin (math_radians (heading a)) in
          let vay := speed a * math_cos (math_radians (heading a)) in
          let vbx := speed b * math_sin (math_radians (heading b)) in
          let vby := speed b * math_cos (math_radians (heading b)) in
          let vrx := vbx - vax in
          let vry := vby - vay in
          let rx := x b - x a in
          let ry := y b - y a in
          let v_rel_sq := sq vrx + sq vry in
          if Qlt_le_dec v_rel_sq (1#1000) then
            let dist_current := math_sqrt (sq rx + sq ry) in
            if Qlt_le_dec dist_current HORIZONTAL_MIN then
              Return (mkScan (alert_pair ij.1 ij.2 (sc_aircraft st)) (sc_resolved st)
                        (sc_conflicts st ++
                           [mkReport (callsign a) (callsign b) Immediate
                              dist_current vertical_sep NO_RES_ATTEMPTED]))
            else Return st
          else
            let tcpa := - (rx * vrx + ry * vry) / v_rel_sq in
            if Qle_bool 0 tcpa && Qle_bool tcpa lookahead then
              let min_sep_dist :=
                math_sqrt (sq (rx + vrx * tcpa) + sq (ry + vry * tcpa)) in
              if Qlt_le_dec min_sep_dist HORIZONTAL_MIN then
                match a_star_search (mkResolver a b lookahead) with
                | Return (Some (m :: path)) =>
                    Return (mkScan (sc_aircraft st)
                              (foldl enqueue (sc_resolved st) (m :: path))
                              (sc_conflicts st ++
                                 [mkReport (callsign a) (callsign b) (In_min (tcpa * 60))
                                    min_sep_dist vertical_sep
                                    (RESOLVED (length (m :: path)))]))
                | Return _ =>
                    Return (mkScan (alert_pair ij.1 ij.2 (sc_aircraft st)) (sc_resolved st)
                              (sc_conflicts st ++
                                 [mkReport (callsign a) (callsign b) (In_min (tcpa * 60))
                                    min_sep_dist vertical_sep FAILED]))
                | Raise e => Raise e
                | OutOfFuel => OutOfFuel
                end
              else Return st
            else Return st
        else Return st
  | _, _ => Raise IndexError
  end.

(** [for i in range(n): for j in range(i + 1, n)] *)
Definition index_pairs (n : nat) : list (nat * nat) :=
  flat_map (fun i => map (fun j => (i, j)) (seq (S i) (n - S i))) (seq 0 n).

Fixpoint scan_pairs (lookahead : Q) (st : Scan) (pairs : list (nat * nat)) : result Scan :=
  match pairs with
  | [] => Return st
  | ij :: pairs' =>
      match scan_pair lookahead st ij with
      | Return st' => scan_pairs lookahead st' pairs'
      | Raise e => Raise e
      | OutOfFuel => OutOfFuel
      end
  end.

(** The two clearing statements that open [check_for_conflicts]. *)
Definition clear_pass (c : ATC_Controller) : Scan :=
  mkScan (map (set_alert false) (aircraft_list c)) ∅ [].

(** [check_for_conflicts]: the controller afterwards and the list returned. *)
Definition check_for_conflicts (c : ATC_Controller)
    : result (ATC_Controller * list conflict_report) :=
  match scan_pairs (lookahead_time_hrs c) (clear_pass c)
          (index_pairs (length (aircraft_list c))) with
  | Return st =>
      Return (mkController (sc_aircraft st) (lookahead_time_min c)
                (lookahead_time_hrs c) (sc_resolved st),
              sc_conflicts st)
  | Raise e => Raise e
  | OutOfFuel => OutOfFuel
  end.

End Simulator.

(** ** 4. Add-plane dialog *)

Section Dialog.
(** [str.upper] and the parser behind [float(...)]; [None] is [ValueError]. *)
Variable str_upper : string -> string.
Variable float_of_string : string -> option Q.

Record Entries : Type := mkEntries {
  entry_callsign : string;
  entry_x : string;
  entry_y : string;
  entry_altitude : string;
  entry_speed : string;
  entry_heading : string
}.

(** Which message box the dialog shows. *)
Inductive dialog_message : Type :=
| Success_added (cs : string)
| Input_error_exists (cs : string)
| Input_error_numbers.

Definition AddPlaneDialog_add_aircraft (c : ATC_Controller) (e : Entries)
    : ATC_Controller * dialog_message :=
  let cs := str_upper (entry_callsign e) in
  match float_of_string (entry_x e), float_of_string (entry_y e),
        float_of_string (entry_altitude e), float_of_string (entry_speed e),
        float_of_string (entry_heading e) with
  | Some x0, Some y0, Some z0, Some speed0, Some heading0 =>
      if existsb (fun ac => bool_decide (callsign ac = cs)) (aircraft_list c)
      then (c, Input_error_exists cs)
      else (add_aircraft c (Aircraft_init cs x0 y0 z0 speed0 heading0), Success_added cs)
  | _, _, _, _, _ => (c, Input_error_numbers)
  end.
End Dialog.

(** ** A rational stand-in for the [math] module

    Used to run the program on concrete inputs: truncated Taylor series
    after reduction to a quadrant, and an integer square root, all cut
    to twelve decimals.  The four cardinal headings come out exact. *)

Definition q_trunc (a : Q) : Q := Qfloor (a * 1000000000000) # 1000000000000.

Definition pi_q : Q := 3141592653589793 # 1000000000000000.

Definition approx_radians (d : Q) : Q := d * pi_q / 180.

Definition taylor_sin (t : Q) : Q :=
  t - t^3 / 6 + t^5 / 120 - t^7 / 5040 + t^9 / 362880.

Definition taylor_cos (t : Q) : Q :=
  1 - t^2 / 2 + t^4 / 24 - t^6 / 720 + t^8 / 40320.

Definition quadrant (a : Q) : Z * Q :=
  let k := py_round0 (a / (pi_q / 2)) in
  ((k mod 4)%Z, a - inject_Z k * (pi_q / 2)).

Definition approx_sin (a : Q) : Q :=
  let '(k, t) := quadrant a in
  q_trunc (if (k =? 0)%Z then taylor_sin t
           else if (k =? 1)%Z then taylor_cos t
           else if (k =? 2)%Z then - taylor_sin t
           else - taylor_cos t).

Definition approx_cos (a : Q) : Q :=
  let '(k, t) := quadrant a in
  q_trunc (if (k =? 0)%Z then taylor_cos t
           else if (k =? 1)%Z then - taylor_sin t
           else if (k =? 2)%Z then - taylor_cos t
           else taylor_sin t).

Definition approx_sqrt (a : Q) : Q :=
  Z.sqrt (Qfloor (a * 1000000000000000000000000)) # 1000000000000.

(** ** Stand-ins for [str.upper] and [float]

    ASCII upper-casing, and a reader of signed decimal integers; enough
    to run the dialog on sample entries. *)

Definition upper_ascii (ch : ascii) : ascii :=
  let n := nat_of_ascii ch in
  if (97 <=? n)%nat && (n <=? 122)%nat then ascii_of_nat (n - 32) else ch.

Fixpoint upper_string (s : string) : string :=
  match s with
  | EmptyString => EmptyString
  | String ch s' => String (upper_ascii ch) (upper_string s')
  end.

Fixpoint read_digits (s : string) (acc : Z) : option Z :=
  match s with
  | EmptyString => Some acc
  | String ch s' =>
      let n := nat_of_ascii ch in
      if (48 <=? n)%nat && (n <=? 57)%nat
      then read_digits s' (acc * 10 + Z.of_nat (n - 48))%Z
      else None
  end.

Definition read_number (s : string) : option Q :=
  match s with
  | EmptyString => None
  | String "-" (String ch s') => (fun n => inject_Z (- n)) <$> read_digits (String ch s') 0
  | _ => inject_Z <$> read_digits s 0
  end.

(** The list [check_for_conflicts] returned, empty if it raised. *)
Definition report_of (res : result (ATC_Controller * list conflict_report))
    : list conflict_report :=
  match res with
  | Return (_, reports) => reports
  | _ => []
  end.

(** ** The vocabulary of the geometry

    Relative position and velocity of two aircraft, used to state what
    [_calculate_cpa] computes. *)

Section Geometry.
Variables math_sin math_cos math_radians math_sqrt : Q -> Q.

Definition velocity (k : kinematic) : Q * Q :=
  let '(_, _, _, spd, head) := k in
  (spd * math_sin (math_radians head), spd * math_cos (math_radians head)).

Definition rel_vel (a b : kinematic) : Q * Q :=
  ((velocity b).1 - (velocity a).1, (velocity b).2 - (velocity a).2).

Definition rel_pos (a b : kinematic) : Q * Q :=
  (kin_x b - kin_x a, kin_y b - kin_y a).

Definition dot (u v : Q * Q) : Q := u.1 * v.1 + u.2 * v.2.

Definition norm (u : Q * Q) : Q := math_sqrt (sq u.1 + sq u.2).

(** Relative position after time [t] of linear motion. *)
Definition drift (p v : Q * Q) (t : Q) : Q * Q := (p.1 + v.1 * t, p.2 + v.2 * t).

(** [t = -(relPos . relVel) / |relVel|^2] *)
Definition time_of_closest_approach (a b : kinematic) : Q :=
  - dot (rel_pos a b) (rel_vel a b) / dot (rel_vel a b) (rel_vel a b).
End Geometry.

(** Equality of the triples [_calculate_cpa] returns, as numbers. *)
Definition cpa_eq (u v : ext * Q * Q) : Prop :=
  ext_eq u.1.1 v.1.1 /\ u.1.2 == v.1.2 /\ u.2 == v.2.


(** Both aircraft sit where they sat in the initial state. *)
Definition same_positions (r : ConflictResolver) (s : ConflictState) : Prop :=
  forall cs : string,
    kin_x (get_aircraft_data s cs) = kin_x (default (0, 0, 0, 0, 0) (dict_get (initial_aircraft_data r) cs))
    /\ kin_y (get_aircraft_data s cs) = kin_y (default (0, 0, 0, 0, 0) (dict_get (initial_aircraft_data r) cs)).

(** The rounded altitude of the first entry of a joint state, and the
    same number read off a fingerprint. *)
Definition lead_z (s : ConflictState) : Z :=
  match aircraft_states s with
  | (_, v) :: _ => py_round0 (kin_z v)
  | [] => 0%Z
  end.

Definition fingerprint_z (k : fingerprint) : Z :=
  match k with
  | (_, _, rz, _, _) :: _ => rz
  | [] => 0%Z
  end.

(** A joint state has the keys of the initial dict, in the same order. *)
Definition keys_ok (r : ConflictResolver) (n : ConflictState) : Prop :=
  (aircraft_states n).*1 = (initial_aircraft_data r).*1.

(** Some open node is at least as high as every recorded fingerprint. *)
Definition leads (open : list ConflictState) (gs : gmap fingerprint Q) : Prop :=
  exists n, n ∈ open /\ forall k, is_Some (gs !! k) -> (fingerprint_z k <= lead_z n)%Z.

(** The node being expanded is at least as high as every recorded fingerprint. *)
Definition tops (cur : ConflictState) (gs : gmap fingerprint Q) : Prop :=
  forall k, is_Some (gs !! k) -> (fingerprint_z k <= lead_z cur)%Z.

(** ** States the search can generate *)

Section Generated.
Variables math_sin math_cos math_radians math_sqrt : Q -> Q.

(** The joint states [a_star_search] can build: the initial one, and
    every successor of a generated state under a maneuver of the
    catalogue. *)
Inductive generated (r : ConflictResolver) : ConflictState -> Prop :=
| generated_initial :
    generated r (initial_state math_sin math_cos math_radians math_sqrt r)
| generated_successor (n : ConflictState) (m : Maneuver) (s : ConflictState) :
    generated r n ->
    m ∈ MANEUVER_OPTIONS r ->
    successor math_sin math_cos math_radians math_sqrt r n m = Some s ->
    generated r s.
(** What holds when the loop stops, by the way it stops. *)
Definition loop_post (r : ConflictResolver) (fuel : nat) (st : SearchState)
    (out : outcome) (st' : SearchState) : Prop :=
  match out with
  | Return (Some path) =>
      exists node, generated r node /\ h_cost node == 0 /\ path = reconstruct_path node
  | Return None =>
      nodes_explored st' = max_search_nodes /\ open_list st' <> []
  | Raise _ => False
  | OutOfFuel =>
      nodes_explored st' = (nodes_explored st + fuel)%nat
      /\ leads (open_list st') (g_scores st')
  end.

End Generated.

(** ** Reading the report of a pass *)

(** A line with status [FAILED] or [RESOLVED] is written exactly when
    [a_star_search] was called for its pair. *)
Definition searched (rep : conflict_report) : bool :=
  match rep_status rep with
  | NO_RES_ATTEMPTED => false
  | FAILED | RESOLVED _ => true
  end.

Definition mentions (cs : string) (rep : conflict_report) : bool :=
  bool_decide (rep_a rep = cs) || bool_decide (rep_b rep = cs).

(** In how many searches of the pass the aircraft [cs] took part. *)
Definition searches_with (cs : string) (reports : list conflict_report) : nat :=
  length (filter (fun rep => searched rep && mentions cs rep = true) reports).

(** ** Sample traffic

    The head-on pair of the main program, and a third aircraft that
    crosses their meeting point from the south at the same level. *)

Definition plane_a : Aircraft := Aircraft_init "AAL123" (-20) 0 30000 450 90.
Definition plane_b : Aircraft := Aircraft_init "UAL456" 20 0 30000 450 270.
Definition plane_x : Aircraft := Aircraft_init "SWA789" 0 (-20) 30000 450 0.

Definition three_way : ATC_Controller :=
  add_aircraft (add_aircraft (add_aircraft (ATC_Controller_init 5) plane_a) plane_b) plane_x.

(** The head-on pair as a resolver, and a pair 4000 ft apart. *)
Definition head_on : ConflictResolver := mkResolver plane_a plane_b (5 / 60).
Definition stacked : ConflictResolver :=
  mkResolver plane_a (Aircraft_init "DAL001" 20 0 34000 450 270) (5 / 60).

(** A pass in which AAL123 already has a maneuver queued. *)
Definition queued_scan : Scan :=
  mkScan [plane_a; plane_b]
    {[ "AAL123"%string := [altitude_maneuver "AAL123" (-1000)] ]} [].

(** [three_way] with alerts and a queue left over from an earlier tick. *)
Definition stale_controller : ATC_Controller :=
  mkController (map (set_alert true) (aircraft_list three_way)) 5 (5 / 60)
    {[ "SWA789"%string := [heading_maneuver "SWA789" 10] ]}.

(** A dialog entry that repeats a callsign, in lower case. *)
Definition repeat_entry : Entries := mkEntries "aal123" "0" "0" "33000" "450" "0".

(** ** Motion, queue application and the tick *)

Section Motion.
Variables math_sin math_cos math_radians math_sqrt : Q -> Q.

(** [Aircraft.update_position] *)
Definition update_position (ac : Aircraft) (delta_t_hrs : Q) : Aircraft :=
  let heading_rad := math_radians (heading ac) in
  let distance := speed ac * delta_t_hrs in
  mkAircraft (callsign ac)
    (x ac + distance * math_sin heading_rad)
    (y ac + distance * math_cos heading_rad)
    (z ac) (speed ac) (heading ac) (conflict_alert ac).

(** [Aircraft.get_projected_position] *)
Definition get_projected_position (ac : Aircraft) (delta_t_hrs : Q) : Q * Q * Q :=
  let heading_rad := math_radians (heading ac) in
  let distance := speed ac * delta_t_hrs in
  (x ac + distance * math_sin heading_rad,
   y ac + distance * math_cos heading_rad,
   z ac).

(** One turn of the loop of [apply_resolved_maneuvers]: the aircraft
    takes the first maneuver of its queue, if it has a non-empty one;
    a queue that runs empty is deleted. *)
Definition serve (acc : list Aircraft * gmap string (list Maneuver)) (ac : Aircraft)
    : list Aircraft * gmap string (list Maneuver) :=
  match acc.2 !! callsign ac with
  | Some (m :: maneuver_list) =>
      (acc.1 ++ [apply_maneuver ac m],
       match maneuver_list with
       | [] => delete (callsign ac) acc.2
       | _ :: _ => <[callsign ac := maneuver_list]> acc.2
       end)
  | Some [] | None => (acc.1 ++ [ac], acc.2)
  end.

Definition apply_resolved_maneuvers (c : ATC_Controller) : ATC_Controller :=
  let served := foldl serve ([], resolved_maneuvers c) (aircraft_list c) in
  mkController served.1 (lookahead_time_min c) (lookahead_time_hrs c) served.2.

(** The simulation part of [ATCSimulatorGUI.sim_step]: one pass of
    detection and resolution, one queued maneuver per aircraft, five
    seconds of flight, five seconds on the clock. *)
Definition TIME_STEP_SECONDS : Z := 5.
Definition TIME_STEP_HOURS : Q := inject_Z TIME_STEP_SECONDS / 3600.

Definition sim_step (c : ATC_Controller) (current_time_seconds : Z)
    : result (ATC_Controller * list conflict_report * Z) :=
  match check_for_conflicts math_sin math_cos math_radians math_sqrt c with
  | Return (c1, conflicts) =>
      let c2 := apply_resolved_maneuvers c1 in
      let c3 := mkController
                  (map (fun ac => update_position ac TIME_STEP_HOURS) (aircraft_list c2))
                  (lookahead_time_min c2) (lookahead_time_hrs c2) (resolved_maneuvers c2) in
      Return (c3, conflicts, (current_time_seconds + TIME_STEP_SECONDS)%Z)
  | Raise e => Raise e
  | OutOfFuel => OutOfFuel
  end.

(** *** The detector of [Air Traffic Control.py]

    The earlier program has the same pairwise test without the search:
    it neither clears alerts nor keeps queues. *)

Record plain_report : Type := mkPlain {
  plain_a : string;
  plain_b : string;
  plain_time : conflict_time;
  plain_h_dist : Q;
  plain_v_dist : Q
}.

Definition detect_pair (lookahead : Q) (st : list Aircraft * list plain_report)
    (ij : nat * nat) : result (list Aircraft * list plain_report) :=
  match st.1 !! ij.1, st.1 !! ij.2 with
  | Some a, Some b =>
      let vertical_sep := Qabs (z a - z b) in
      if Qlt_le_dec vertical_sep VERTICAL_MIN then
        let vax := speed a * math_sin (math_radians (heading a)) in
        let vay := speed a * math_cos (math_radians (heading a)) in
        let vbx := speed b * math_sin (math_radians (heading b)) in
        let vby := speed b * math_cos (math_radians (heading b)) in
        let vrx := vbx - vax in
        let vry := vby - vay in
        let rx := x b - x a in
        let ry := y b - y a in
        let v_rel_sq := sq vrx + sq vry in
        if Qlt_le_dec v_rel_sq (1#1000) then
          let dist_current := math_sqrt (sq rx + sq ry) in
          if Qlt_le_dec dist_current HORIZONTAL_MIN then
            Return (alert_pair ij.1 ij.2 st.1,
                    st.2 ++ [mkPlain (callsign a) (callsign b) Immediate
                               dist_current vertical_sep])
          else Return st
        else
          let tcpa := - (rx * vrx + ry * vry) / v_rel_sq in
          if Qle_bool 0 tcpa && Qle_bool tcpa lookahead then
            let min_sep_dist :=
              math_sqrt (sq (rx + vrx * tcpa) + sq (ry + vry * tcpa)) in
            if Qlt_le_dec min_sep_dist HORIZONTAL_MIN then
              Return (alert_pair ij.1 ij.2 st.1,
                      st.2 ++ [mkPlain (callsign a) (callsign b) (In_min (tcpa * 60))
                                 min_sep_dist vertical_sep])
            else Return st
          else Return st
      else Return st
  | _, _ => Raise IndexError
  end.

Fixpoint detect_pairs (lookahead : Q) (st : list Aircraft * list plain_report)
    (pairs : list (nat * nat)) : result (list Aircraft * list plain_report) :=
  match pairs with
  | [] => Return st
  | ij :: pairs' =>
      match detect_pair lookahead st ij with
      | Return st' => detect_pairs lookahead st' pairs'
      | Raise e => Raise e
      | OutOfFuel => OutOfFuel
      end
  end.

(** [check_for_conflicts] of the earlier program. *)
Definition detect_conflicts (c : ATC_Controller)
    : result (ATC_Controller * list plain_report) :=
  match detect_pairs (lookahead_time_hrs c) (aircraft_list c, [])
          (index_pairs (length (aircraft_list c))) with
  | Return st =>
      Return (mkController st.1 (lookahead_time_min c) (lookahead_time_hrs c)
                (resolved_maneuvers c), st.2)
  | Raise e => Raise e
  | OutOfFuel => OutOfFuel
  end.
End Motion.

(** A line of the new report without its resolution status. *)
Definition plain_of (rep : conflict_report) : plain_report :=
  mkPlain (rep_a rep) (rep_b rep) (rep_time rep) (rep_h_dist rep) (rep_v_dist rep).

(** ** Presentation arithmetic *)

(** [update_time_label]: hours, minutes and seconds of the clock. *)
Definition update_time_label (current_time_seconds : Z) : Z * Z * Z :=
  ((current_time_seconds / 3600)%Z,
   ((current_time_seconds mod 3600) / 60)%Z,
   (current_time_seconds mod 60)%Z).

(** The heading bucket of [_get_rotated_aircraft_image]:
    [int(round(heading / 5.0) * 5.0) % 360]. *)
Definition rounded_heading (heading_deg : Q) : Z :=
  ((py_round0 (heading_deg / 5) * 5) mod 360)%Z.

Definition airspace_x_min : Q := -100.
Definition airspace_x_max : Q := 100.
Definition airspace_y_min : Q := -100.
Definition airspace_y_max : Q := 100.

Record Scaling : Type := mkScaling {
  canvas_width : Q;
  canvas_height : Q;
  scale_factor : Q;
  offset_x : Q;
  offset_y : Q
}.

(** [setup_canvas_scaling] for a canvas of the given size. *)
Definition setup_canvas_scaling (width height : Q) : Scaling :=
  if Qlt_le_dec width 10 then mkScaling width height 1 0 0
  else if Qlt_le_dec height 10 then mkScaling width height 1 0 0
  else
    let airspace_range_x := airspace_x_max - airspace_x_min in
    let airspace_range_y := airspace_y_max - airspace_y_min in
    let scale := py_min (width / airspace_range_x) (height / airspace_range_y) in
    let scaled_airspace_width := airspace_range_x * scale in
    let scaled_airspace_height := airspace_range_y * scale in
    mkScaling width height scale
      ((width - scaled_airspace_width) / 2)
      ((height - scaled_airspace_height) / 2).

Definition world_to_canvas (sc : Scaling) (x_world y_world : Q) : Q * Q :=
  let x_scaled := (x_world - airspace_x_min) * scale_factor sc in
  let y_scaled := (y_world - airspace_y_min) * scale_factor sc in
  (x_scaled + offset_x sc, canvas_height sc - y_scaled - offset_y sc).

(** ** Vocabulary of the pass, the queues and the heap *)

(** The cost of a path, maneuver by maneuver. *)
Definition path_cost (path : list Maneuver) : Q :=
  foldr (fun m acc => Maneuver_cost m + acc) 0 path.

(** The order [heapq] keeps, for elements compared by a key. *)
Section HeapOrder.
Context {T : Type} (key : T -> Q).

(** The heap property of [heapq]: no element is smaller than its parent. *)
Definition heap_ordered (l : list T) : Prop :=
  forall i x p, (0 < i)%nat ->
    l !! i = Some x -> l !! ((i - 1) / 2)%nat = Some p -> key p <= key x.

(** The state of [_siftdown] with the hole at [pos]: once the hole is
    filled every element but the one at [pos] is in order with its
    parent, and the children of [pos] are in order with the parent of
    [pos]. *)
Definition hole_ok (heap : list T) (pos : nat) (newitem : T) : Prop :=
  (forall i x p, (0 < i)%nat -> i <> pos ->
     <[pos := newitem]> heap !! i = Some x ->
     <[pos := newitem]> heap !! ((i - 1) / 2)%nat = Some p -> key p <= key x)
  /\ (forall c x p, (0 < pos)%nat -> (0 < c)%nat -> ((c - 1) / 2)%nat = pos ->
        heap !! c = Some x -> heap !! ((pos - 1) / 2)%nat = Some p -> key p <= key x).
End HeapOrder.

(** Queues are not empty and hold maneuvers for their own callsign that
    change no speed. *)
Definition queues_ok (q : gmap string (list Maneuver)) : Prop :=
  forall cs l, q !! cs = Some l ->
    l <> [] /\ Forall (fun m => m_callsign m = cs /\ speed_change m = 0) l.

(** Every raised alert is backed by a line of the report that names the
    aircraft and says the conflict was not resolved. *)
Definition alerts_backed (st : Scan) : Prop :=
  forall k ac, sc_aircraft st !! k = Some ac -> conflict_alert ac = true ->
    exists rep, rep ∈ sc_conflicts st
      /\ mentions (callsign ac) rep = true
      /\ (rep_status rep = NO_RES_ATTEMPTED \/ rep_status rep = FAILED).

(** What [apply_resolved_maneuvers] does to one aircraft and to one
    queue, when every callsign is in the list once. *)
Definition served_aircraft (q : gmap string (list Maneuver)) (ac : Aircraft) : Aircraft :=
  match q !! callsign ac with
  | Some (m :: _) => apply_maneuver ac m
  | _ => ac
  end.

Definition queue_tail (o : option (list Maneuver)) : option (list Maneuver) :=
  match o with
  | Some [_] => None
  | Some (_ :: rest) => Some rest
  | _ => o
  end.

(** Every queue holds one maneuver, for its own callsign, that changes
    an altitude and nothing else. *)
Definition single_climbs (q : gmap string (list Maneuver)) : Prop :=
  forall cs l, q !! cs = Some l ->
    exists m, l = [m] /\ m_callsign m = cs /\ heading_change m = 0
              /\ speed_change m = 0 /\ ~ altitude_change m == 0.

(** Two aircraft under one callsign, two levels 4000 ft apart, and two
    more dialog entries: a new callsign with a heading beyond a full
    turn, and a taken callsign with an altitude that is no number. *)
Definition twin : ConflictResolver :=
  mkResolver plane_a (Aircraft_init "AAL123" 20 0 30000 450 270) (5 / 60).

Definition layered : ATC_Controller :=
  add_aircraft (add_aircraft (ATC_Controller_init 5) plane_a)
    (Aircraft_init "DAL001" 20 0 34000 450 270).

Definition new_entry : Entries := mkEntries "dal001" "5" "-5" "33000" "450" "400".
Definition bad_entry : Entries := mkEntries "aal123" "0" "0" "high" "450" "0".

(** * The same code on binary64

    The exact model above leaves out what rounding does.  This module
    reads the search and the maneuver on IEEE 754 doubles, which is what
    Python's [float] is: [+], [-], [*], [/] and [math.sqrt] are the
    correctly rounded operations, [%] is C's exact [fmod] with Python's
    sign adjustment, [** 2] raises [OverflowError] when a finite square
    is not finite, and [round] is taken on the exact value of the
    double.  [math.sin] and [math.cos] are the C library's and enter as
    parameters.  Integers of the source (the catalogue's changes, the
    floors) are the doubles of the same value. *)

Module Binary64.

(** The value of a finite double. *)
Definition exact (f : float) : option Q :=
  match Prim2SF f with
  | S754_zero _ => Some 0
  | S754_finite s m e =>
      let v := if (0 <=? e)%Z then inject_Z (Zpos m * 2 ^ e)
               else Zpos m # Z.to_pos (2 ^ (- e)) in
      Some (if s then - v else v)
  | S754_infinity _ | S754_nan => None
  end.

(** C's [fmod]: the remainder of the truncated quotient, which is a
    double; it has the sign of [v]. *)
Definition fmod (v w : float) : float :=
  match Prim2SF v, Prim2SF w with
  | S754_finite sv mv ev, S754_finite _ mw ew =>
      let e := Z.min ev ew in
      match Z.rem (Zpos mv * 2 ^ (ev - e)) (Zpos mw * 2 ^ (ew - e)) with
      | Zpos p => SF2Prim (S754_finite sv p e)
      | _ => if sv then neg_zero else zero
      end
  | S754_zero _, S754_finite _ _ _ | S754_zero _, S754_infinity _
  | S754_finite _ _ _, S754_infinity _ => v
  | _, _ => nan
  end.

(** [v % w] on floats ([float_rem] of CPython), for a divisor that is
    not zero: the source divides by 360 only. *)
Definition py_mod (v w : float) : float :=
  let mod_ := fmod v w in
  if (mod_ =? 0)%float then (if get_sign w then neg_zero else zero)
  else if xorb (w <? 0)%float (mod_ <? 0)%float then (mod_ + w)%float
  else mod_.

(** [max(a, b)] and [min(a, b)]: the first argument unless the second
    is larger (smaller). *)
Definition py_max (a b : float) : float := if (a <? b)%float then b else a.
Definition py_min (a b : float) : float := if (b <? a)%float then b else a.

(** What [round(x, 0)] and [round(h, 1)] contribute to a hash: the
    rounded value as a count of units or tenths, ties to even on the
    exact value; infinities and NaN round to themselves. *)
Inductive quantum : Type :=
| Whole (k : Z)
| Infinite (negative : bool)
| NotANumber.

Definition py_round (tenths : bool) (v : float) : quantum :=
  match exact v with
  | Some q => Whole (if tenths then py_round1 q else py_round0 q)
  | None => if is_nan v then NotANumber else Infinite (get_sign v)
  end.

Record Aircraft : Type := mkAircraft {
  callsign : string;
  x : float;
  y : float;
  z : float;
  speed : float;
  heading : float;
  conflict_alert : bool
}.

(** [Aircraft.__init__] *)
Definition Aircraft_init (cs : string) (x0 y0 z0 speed_knots heading_deg : float) : Aircraft :=
  mkAircraft cs x0 y0 z0 speed_knots (py_mod heading_deg 360) false.

Record Maneuver : Type := mkManeuver {
  m_callsign : string;
  heading_change : float;
  altitude_change : float;
  speed_change : float
}.

Definition Maneuver_cost (m : Maneuver) : float :=
  (abs (heading_change m) * 0x1.999999999999ap-4
   + abs (altitude_change m / 1000) * 0.5
   + abs (speed_change m / 50) * 0x1.999999999999ap-3)%float.

Definition apply_maneuver (ac : Aircraft) (m : Maneuver) : Aircraft :=
  mkAircraft (callsign ac) (x ac) (y ac)
    (py_max 5000 (z ac + altitude_change m)%float)
    (py_max 200 (speed ac + speed_change m)%float)
    (py_mod (heading ac + heading_change m)%float 360)
    (conflict_alert ac).

(** One aircraft's entry in a joint state. *)
Definition kinematic : Type := (float * float * float * float * float)%type.

Abbreviation states_dict := (list (string * kinematic)).

Fixpoint dict_get (d : states_dict) (k : string) : option kinematic :=
  match d with
  | [] => None
  | (k', v) :: d' => if decide (k' = k) then Some v else dict_get d' k
  end.

Fixpoint dict_set (d : states_dict) (k : string) (v : kinematic) : states_dict :=
  match d with
  | [] => [(k, v)]
  | (k', v') :: d' =>
      if decide (k' = k) then (k, v) :: d' else (k', v') :: dict_set d' k v
  end.

Inductive ConflictState : Type :=
| Root (aircraft_states : states_dict) (g_cost h_cost f_cost : float)
| Child (aircraft_states : states_dict) (g_cost h_cost f_cost : float)
    (parent : ConflictState) (maneuver : Maneuver).

Definition aircraft_states (s : ConflictState) : states_dict :=
  match s with Root d _ _ _ | Child d _ _ _ _ _ => d end.
Definition g_cost (s : ConflictState) : float :=
  match s with Root _ g _ _ | Child _ g _ _ _ _ => g end.
Definition h_cost (s : ConflictState) : float :=
  match s with Root _ _ h _ | Child _ _ h _ _ _ => h end.
Definition f_cost (s : ConflictState) : float :=
  match s with Root _ _ _ f | Child _ _ _ f _ _ => f end.

(** [ConflictState.__lt__] *)
Definition state_lt (a b : ConflictState) : bool := (f_cost a <? f_cost b)%float.

(** The tuple that [__hash__] hashes.  The hash is taken to be
    injective on these tuples, and NaN to be one value (its hash is by
    object identity from Python 3.10 on). *)
Abbreviation fingerprint := (list (quantum * quantum * quantum * quantum * quantum)).

Definition quantise (k : kinematic) : quantum * quantum * quantum * quantum * quantum :=
  let '(kx, ky, kz, ks, kh) := k in
  (py_round false kx, py_round false ky, py_round false kz, py_round false ks,
   py_round true kh).

Definition state_hash (s : ConflictState) : fingerprint :=
  map (fun e => quantise e.2) (aircraft_states s).

Definition get_aircraft_data (s : ConflictState) (cs : string) : kinematic :=
  default (0, 0, 0, 0, 0)%float (dict_get (aircraft_states s) cs).

Fixpoint reconstruct_path (s : ConflictState) : list Maneuver :=
  match s with
  | Root _ _ _ _ => []
  | Child _ _ _ _ p m => reconstruct_path p ++ [m]
  end.

Record ConflictResolver : Type := mkResolver {
  res_A : Aircraft;
  res_B : Aircraft;
  lookahead_hrs : float
}.

Definition heading_maneuver (cs : string) (d : float) : Maneuver := mkManeuver cs d 0 0.
Definition altitude_maneuver (cs : string) (d : float) : Maneuver := mkManeuver cs 0 d 0.

Definition MANEUVER_OPTIONS (r : ConflictResolver) : list Maneuver :=
  map (heading_maneuver (callsign (res_A r))) [-10; 10; -5; 5]%float
  ++ map (heading_maneuver (callsign (res_B r))) [-10; 10; -5; 5]%float
  ++ map (altitude_maneuver (callsign (res_A r))) [-1000; 1000]%float
  ++ map (altitude_maneuver (callsign (res_B r))) [-1000; 1000]%float.

(** How a call ends on doubles: the arithmetic can raise. *)
Inductive exn : Type :=
| KeyError | IndexError | OverflowError | ValueError | ZeroDivisionError.

Inductive result (A : Type) : Type :=
| Return (a : A)
| Raise (e : exn).
Arguments Return {A} a.
Arguments Raise {A} e.

#[global] Instance result_bind : MBind result := fun A B k c =>
  match c with
  | Return a => k a
  | Raise e => Raise e
  end.

(** [v ** 2]: infinities and NaN pass, a finite square that overflows
    raises; the square itself is taken to be the rounded product. *)
Definition pow2 (v : float) : result float :=
  if is_finite v && is_infinity (v * v)%float then Raise OverflowError
  else Return (v * v)%float.

(** [a / b] *)
Definition py_div (a b : float) : result float :=
  if (b =? 0)%float then Raise ZeroDivisionError else Return (a / b)%float.

(** The wrapper of the [math] module around a C function: a NaN that
    does not come from a NaN, or an infinity from a finite argument, is
    a [ValueError]. *)
Definition math_1 (f : float -> float) (v : float) : result float :=
  let r := f v in
  if is_nan r && negb (is_nan v) then Raise ValueError
  else if is_infinity r && is_finite v then Raise ValueError
  else Return r.

Definition math_sqrt : float -> result float := math_1 sqrt.

(** [math.radians]: the product with the double [pi / 180]. *)
Definition math_radians (v : float) : float := (v * 0x1.1df46a2529d39p-6)%float.

Definition HORIZONTAL_MIN : float := 5.
Definition VERTICAL_MIN : float := 1000.

Record SearchState : Type := mkSearch {
  open_list : list ConflictState;
  g_scores : list (fingerprint * float);
  nodes_explored : nat
}.

#[global] Instance quantum_eq_dec : EqDecision quantum.
Proof. solve_decision. Defined.

(** [g_scores[h]] and [g_scores[h] = g] *)
Fixpoint scores_get (gs : list (fingerprint * float)) (h : fingerprint) : option float :=
  match gs with
  | [] => None
  | (h', g) :: gs' => if decide (h' = h) then Some g else scores_get gs' h
  end.

Fixpoint scores_set (gs : list (fingerprint * float)) (h : fingerprint) (g : float)
    : list (fingerprint * float) :=
  match gs with
  | [] => [(h, g)]
  | (h', g') :: gs' =>
      if decide (h' = h) then (h, g) :: gs' else (h', g') :: scores_set gs' h g
  end.

Section Simulator.
(** The C library's [sin] and [cos]. *)
Variables libm_sin libm_cos : float -> float.

Definition math_sin : float -> result float := math_1 libm_sin.
Definition math_cos : float -> result float := math_1 libm_cos.

(** [math.sqrt(a**2 + b**2)] *)
Definition norm (a b : float) : result float :=
  a2 ← pow2 a; b2 ← pow2 b; math_sqrt (a2 + b2)%float.

(** [_calculate_cpa] on the data of the two aircraft. *)
Definition cpa_of (lookahead : float) (a b : kinematic) : result (float * float * float) :=
  let '(ax, ay, az, aspd, ahead) := a in
  let '(bx, by_, bz, bspd, bhead) := b in
  let vertical_sep := abs (az - bz)%float in
  if (VERTICAL_MIN <=? vertical_sep)%float then Return (infinity, vertical_sep, 0%float)
  else
    sa ← math_sin (math_radians ahead);
    ca ← math_cos (math_radians ahead);
    sb ← math_sin (math_radians bhead);
    cb ← math_cos (math_radians bhead);
    let vax := (aspd * sa)%float in
    let vay := (aspd * ca)%float in
    let vbx := (bspd * sb)%float in
    let vby := (bspd * cb)%float in
    let vrx := (vbx - vax)%float in
    let vry := (vby - vay)%float in
    let rx := (bx - ax)%float in
    let ry := (by_ - ay)%float in
    vrx2 ← pow2 vrx;
    vry2 ← pow2 vry;
    let v_rel_sq := (vrx2 + vry2)%float in
    if (v_rel_sq <? 0x1.0624dd2f1a9fcp-10)%float then
      dist_current ← norm rx ry;
      Return (dist_current, vertical_sep, (lookahead / 2)%float)
    else
      tcpa ← py_div (- (rx * vrx + ry * vry))%float v_rel_sq;
      min_sep_dist ←
        (if (tcpa <? 0)%float then norm rx ry
         else norm (rx + vrx * tcpa)%float (ry + vry * tcpa)%float);
      min_sep_dist ←
        (if (lookahead <? tcpa)%float then
           end_sep_dist ← norm (rx + vrx * lookahead)%float (ry + vry * lookahead)%float;
           Return (py_min min_sep_dist end_sep_dist)
         else Return min_sep_dist);
      Return (min_sep_dist, vertical_sep, py_max 0 tcpa).

Definition _calculate_cpa (r : ConflictResolver) (state : ConflictState)
    : result (float * float * float) :=
  cpa_of (lookahead_hrs r)
    (get_aircraft_data state (callsign (res_A r)))
    (get_aircraft_data state (callsign (res_B r))).

Definition _heuristic (r : ConflictResolver) (state : ConflictState) : result float :=
  cpa ← _calculate_cpa r state;
  let '(h_dist, h_v_sep, _) := cpa in
  if (HORIZONTAL_MIN <=? h_dist)%float && (VERTICAL_MIN <=? h_v_sep)%float then Return 0%float
  else
    let horizontal_penalty := (py_max 0 (HORIZONTAL_MIN - h_dist) / HORIZONTAL_MIN)%float in
    let vertical_penalty := (py_max 0 (VERTICAL_MIN - h_v_sep) / VERTICAL_MIN)%float in
    Return ((horizontal_penalty + vertical_penalty) * 5)%float.

Definition max_search_nodes : nat := 1000.

Definition initial_aircraft_data (r : ConflictResolver) : states_dict :=
  let a := res_A r in
  let b := res_B r in
  dict_set (dict_set [] (callsign a) (x a, y a, z a, speed a, heading a))
    (callsign b) (x b, y b, z b, speed b, heading b).

Definition initial_state (r : ConflictResolver) : result ConflictState :=
  h ← _heuristic r (Root (initial_aircraft_data r) 0 0 0);
  Return (Root (initial_aircraft_data r) 0 h (0 + h)%float).

Definition successor (r : ConflictResolver) (current_state : ConflictState)
    (m : Maneuver) : result ConflictState :=
  let cs := m_callsign m in
  match dict_get (aircraft_states current_state) cs with
  | None => Raise KeyError
  | Some (x0, y0, z0, speed0, heading0) =>
      let temp_ac := apply_maneuver (Aircraft_init cs x0 y0 z0 speed0 heading0) m in
      let new_aircraft_states :=
        dict_set (aircraft_states current_state) cs
          (x temp_ac, y temp_ac, z temp_ac, speed temp_ac, heading temp_ac) in
      let g := (g_cost current_state + Maneuver_cost m)%float in
      h ← _heuristic r (Child new_aircraft_states g 0 0 current_state m);
      Return (Child new_aircraft_states g h (g + h)%float current_state m)
  end.

(** One turn of the [for maneuver in self.MANEUVER_OPTIONS] loop. *)
Definition consider (r : ConflictResolver) (current_state : ConflictState)
    (acc : result (list ConflictState * list (fingerprint * float))) (m : Maneuver)
    : result (list ConflictState * list (fingerprint * float)) :=
  og ← acc;
  succ ← successor r current_state m;
  let known :=
    match scores_get og.2 (state_hash succ) with
    | Some g_old => (g_old <=? g_cost succ)%float
    | None => false
    end in
  if known then Return og
  else Return (heappush state_lt og.1 succ,
               scores_set og.2 (state_hash succ) (g_cost succ)).

Definition expand (r : ConflictResolver) (current_state : ConflictState)
    (open : list ConflictState) (gs : list (fingerprint * float))
    : result (list ConflictState * list (fingerprint * float)) :=
  foldl (consider r current_state) (Return (open, gs)) (MANEUVER_OPTIONS r).

(** The [while open_list and nodes_explored < max_search_nodes] loop.
    The outcome [None] is the model's fuel running out, which
    [a_star_run] never meets. *)
Fixpoint search_loop (fuel : nat) (r : ConflictResolver) (st : SearchState)
    : option (result (option (list Maneuver))) * SearchState :=
  match fuel with
  | O => (None, st)
  | S fuel' =>
      match open_list st with
      | [] => (Some (Return None), st)
      | _ :: _ =>
          if (nodes_explored st <? max_search_nodes)%nat then
            let n := S (nodes_explored st) in
            match heappop state_lt (open_list st) with
            | None => (Some (Raise IndexError), mkSearch (open_list st) (g_scores st) n)
            | Some (current_state, open) =>
                if (h_cost current_state =? 0)%float then
                  (Some (Return (Some (reconstruct_path current_state))),
                   mkSearch open (g_scores st) n)
                else
                  match expand r current_state open (g_scores st) with
                  | Return (open', gs') => search_loop fuel' r (mkSearch open' gs' n)
                  | Raise e => (Some (Raise e), mkSearch open (g_scores st) n)
                  end
            end
          else (Some (Return None), st)
      end
  end.

Definition a_star_run (r : ConflictResolver)
    : option (result (option (list Maneuver))) * SearchState :=
  match initial_state r with
  | Return s0 =>
      search_loop (S max_search_nodes) r (mkSearch [s0] [(state_hash s0, 0%float)] 0)
  | Raise e => (Some (Raise e), mkSearch [] [] 0)
  end.

Definition a_star_search (r : ConflictResolver)
    : option (result (option (list Maneuver))) :=
  (a_star_run r).1.
End Simulator.

Definition float_of_Z (n : Z) : float :=
  match n with
  | Z0 => zero
  | Zpos _ => of_uint63 (Uint63.of_Z n)
  | Zneg p => (- of_uint63 (Uint63.of_Z (Zpos p)))%float
  end.

(** Stand-ins for the C library's [sin] and [cos]: the argument is
    reduced to a quadrant and a Taylor polynomial is evaluated in
    doubles. *)
Definition half_pi : float := 0x1.921fb54442d18p+0.

Definition taylor_sin (t : float) : float :=
  let t2 := (t * t)%float in
  (t * (1 - t2 / 6 * (1 - t2 / 20 * (1 - t2 / 42 * (1 - t2 / 72)))))%float.

Definition taylor_cos (t : float) : float :=
  let t2 := (t * t)%float in
  (1 - t2 / 2 * (1 - t2 / 12 * (1 - t2 / 30 * (1 - t2 / 56))))%float.

Definition quadrant (a : float) : option (Z * float) :=
  match exact (a / half_pi)%float with
  | Some q => let k := py_round0 q in Some ((k mod 4)%Z, (a - float_of_Z k * half_pi)%float)
  | None => None
  end.

Definition approx_sin (a : float) : float :=
  match quadrant a with
  | Some (k, t) =>
      if (k =? 0)%Z then taylor_sin t
      else if (k =? 1)%Z then taylor_cos t
      else if (k =? 2)%Z then (- taylor_sin t)%float
      else (- taylor_cos t)%float
  | None => nan
  end.

Definition approx_cos (a : float) : float :=
  match quadrant a with
  | Some (k, t) =>
      if (k =? 0)%Z then taylor_cos t
      else if (k =? 1)%Z then (- taylor_sin t)%float
      else if (k =? 2)%Z then (- taylor_cos t)%float
      else taylor_sin t
  | None => nan
  end.

(** One callsign on two aircraft that fly towards each other, at an
    altitude where doubles are 2048 apart. *)
Definition twin_far : ConflictResolver :=
  mkResolver (Aircraft_init "AAL123" (-20) 0 1e19 450 90)
    (Aircraft_init "AAL123" 20 0 1e19 450 270)
    0x1.5555555555555p-4.

(** An aircraft whose heading is the double below 5
    (4.999999999999999), and a heading entry just below zero (-1e-17). *)
Definition nearly_five : Aircraft :=
  Aircraft_init "AAL123" 0 0 30000 450 0x1.3ffffffffffffp+2.
Definition nearly_north : Aircraft :=
  Aircraft_init "AAL123" 0 0 30000 450 (-0x1.70ef54646d497p-57).

(** Two level aircraft 2e154 apart, flying towards each other. *)
Definition wide_apart : ConflictResolver :=
  mkResolver (Aircraft_init "AAL123" 0 0 30000 450 90)
    (Aircraft_init "UAL456" 0x1.7dddf6b095ff1p+512 0 30000 450 270)
    0x1.5555555555555p-4.

(** The aircraft has both callsigns of the pair among its keys. *)
Definition keys_ok (r : ConflictResolver) (s : ConflictState) : Prop :=
  is_Some (dict_get (aircraft_states s) (callsign (res_A r)))
  /\ is_Some (dict_get (aircraft_states s) (callsign (res_B r))).

(** The exceptions of the arithmetic, as against those of the containers. *)
Definition arithmetic (e : exn) : Prop := e <> KeyError /\ e <> IndexError.

Definition raises_arithmetic {A : Type} (c : result A) : Prop :=
  match c with
  | Return _ => True
  | Raise e => arithmetic e
  end.

End Binary64.

(** * Facts *)

(** ** Facts about the arithmetic *)

Lemma py_mod_range (a m : Q) : 0 < m -> 0 <= py_mod a m /\ py_mod a m < m.
Proof.
  intros Hm. unfold py_mod.
  pose proof (Qfloor_le (a / m)) as Hlo.
  pose proof (Qlt_floor (a / m)) as Hhi.
  assert (Hne : ~ m == 0) by lra.
  assert (Ha : a == (a / m) * m) by (field; exact Hne).
  set (k := inject_Z (Qfloor (a / m))) in *.
  rewrite inject_Z_plus in Hhi. fold k in Hhi.
  set (d := a / m) in *.
  split.
  - assert (k * m <= d * m) by (apply Qmult_le_compat_r; lra). lra.
  - assert (d * m < (k + inject_Z 1) * m) by (apply Qmult_lt_compat_r; lra).
    change (inject_Z 1) with 1 in *. lra.
Qed.

Lemma py_max_lb_l (a b : Q) : a <= py_max a b.
Proof. unfold py_max. destruct (Qlt_le_dec a b); lra. Qed.

Lemma py_max_lb_r (a b : Q) : b <= py_max a b.
Proof. unfold py_max. destruct (Qlt_le_dec a b); lra. Qed.

Lemma py_max_cases (a b : Q) :
  (a < b /\ py_max a b = b) \/ (b <= a /\ py_max a b = a).
Proof. unfold py_max. destruct (Qlt_le_dec a b); auto. Qed.

(** ** [heapq] keeps the elements *)

Section HeapqFacts.
Context {T : Type} (lt : T -> T -> bool).

Lemma insert_hole_perm (l : list T) (j : nat) (b v : T) :
  l !! j = Some b -> b :: <[j := v]> l ≡ₚ v :: l.
Proof.
  revert j. induction l as [|a l IH]; intros [|j] Hj; simplify_eq/=.
  - apply perm_swap.
  - rewrite (perm_swap a b). rewrite (IH _ Hj). apply perm_swap.
Qed.

Lemma insert_swap_perm (l : list T) (i j : nat) (a b : T) :
  l !! i = Some a -> l !! j = Some b -> <[i := b]> (<[j := a]> l) ≡ₚ l.
Proof.
  revert i j. induction l as [|c l IH]; intros [|i] [|j] Hi Hj; simplify_eq/=.
  - done.
  - by apply insert_hole_perm.
  - by apply insert_hole_perm.
  - f_equiv. by apply IH.
Qed.

(** Moving the hole from [pos] to [p] keeps the multiset once the hole
    is filled again. *)
Lemma move_hole_perm (heap : list T) (pos p : nat) (a v : T) :
  heap !! p = Some a -> (pos < length heap)%nat ->
  <[p := v]> (<[pos := a]> heap) ≡ₚ <[pos := v]> heap.
Proof.
  intros Hp Hpos. destruct (decide (p = pos)) as [->|Hne].
  - by rewrite list_insert_insert_eq.
  - rewrite <- (list_insert_insert_eq heap pos a v).
    apply insert_swap_perm.
    + by rewrite list_lookup_insert_ne.
    + by apply list_lookup_insert_eq.
Qed.

Lemma siftdown_loop_perm (fuel : nat) (heap : list T) (startpos pos : nat) (newitem : T) :
  (pos < length heap)%nat ->
  siftdown_loop lt fuel heap startpos pos newitem ≡ₚ <[pos := newitem]> heap.
Proof.
  revert heap pos. induction fuel as [|fuel IH]; intros heap pos Hpos;
    cbn [siftdown_loop]; [done|].
  destruct (startpos <? pos)%nat eqn:Hlt; [|done].
  apply Nat.ltb_lt in Hlt.
  assert (Hpar : ((pos - 1) / 2 < pos)%nat).
  { apply Nat.le_lt_trans with (pos - 1)%nat; [apply Nat.Div0.div_le_upper_bound|]; lia. }
  destruct (lookup_lt_is_Some_2 heap ((pos - 1) / 2)%nat ltac:(lia)) as [a Ha].
  rewrite Ha. cbn [default from_option id].
  destruct (lt newitem a); [|done].
  rewrite IH by (rewrite length_insert; lia).
  by apply move_hole_perm.
Qed.

Lemma siftdown_perm (heap : list T) (startpos pos : nat) :
  siftdown lt heap startpos pos ≡ₚ heap.
Proof.
  unfold siftdown. destruct (heap !! pos) as [newitem|] eqn:Hpos; [|done].
  rewrite siftdown_loop_perm by (by eapply lookup_lt_Some).
  by rewrite list_insert_id.
Qed.

Lemma siftup_loop_perm (fuel : nat) (heap : list T) (pos : nat) (dflt : T)
    (heap' : list T) (pos' : nat) :
  (pos < length heap)%nat ->
  siftup_loop lt fuel heap pos dflt = (heap', pos') ->
  (pos' < length heap')%nat /\
  forall v, <[pos' := v]> heap' ≡ₚ <[pos := v]> heap.
Proof.
  revert heap pos. induction fuel as [|fuel IH]; intros heap pos Hpos Hrun;
    cbn [siftup_loop] in Hrun; [by simplify_eq|].
  destruct (2 * pos + 1 <? length heap)%nat eqn:Hchild; [|by simplify_eq].
  apply Nat.ltb_lt in Hchild.
  set (c := if ((2 * pos + 1 + 1 <? length heap)%nat
                && negb (lt (default dflt (heap !! (2 * pos + 1)%nat))
                            (default dflt (heap !! (2 * pos + 1 + 1)%nat))))%bool
            then (2 * pos + 1 + 1)%nat else (2 * pos + 1)%nat) in *.
  assert (Hc : (c < length heap)%nat).
  { subst c. destruct (2 * pos + 1 + 1 <? length heap)%nat eqn:Hr; simpl.
    - apply Nat.ltb_lt in Hr. by destruct (negb _).
    - done. }
  destruct (lookup_lt_is_Some_2 heap c Hc) as [a Ha].
  rewrite Ha in Hrun. cbn [default from_option id] in Hrun.
  apply IH in Hrun as [Hlen Hperm]; [|by rewrite length_insert].
  split; [done|]. intros v. rewrite Hperm. by apply move_hole_perm.
Qed.

Lemma siftup_perm (heap : list T) (pos : nat) : siftup lt heap pos ≡ₚ heap.
Proof.
  unfold siftup. destruct (heap !! pos) as [newitem|] eqn:Hpos; [|done].
  destruct (siftup_loop lt _ _ _ _) as [heap' pos'] eqn:Hrun.
  apply siftup_loop_perm in Hrun as [_ Hperm]; [|by eapply lookup_lt_Some].
  rewrite siftdown_perm, Hperm. by rewrite list_insert_id.
Qed.

Lemma heappush_perm (heap : list T) (item : T) : heappush lt heap item ≡ₚ item :: heap.
Proof.
  unfold heappush. rewrite siftdown_perm. symmetry. apply Permutation_cons_append.
Qed.

Lemma heappop_perm (heap : list T) (item : T) (rest : list T) :
  heappop lt heap = Some (item, rest) -> heap ≡ₚ item :: rest.
Proof.
  unfold heappop. destruct (last heap) as [lastelt|] eqn:Hlast; [|done].
  apply last_Some in Hlast as [front ->].
  rewrite removelast_last. destruct front as [|r t]; intros; simplify_eq/=.
  - done.
  - rewrite siftup_perm. simpl. f_equiv. symmetry. apply Permutation_cons_append.
Qed.

Lemma heappop_None (heap : list T) : heappop lt heap = None <-> heap = [].
Proof.
  unfold heappop. split.
  - destruct (last heap) eqn:Hlast.
    + by destruct (removelast heap).
    + intros _. by apply last_None.
  - by intros ->.
Qed.
End HeapqFacts.

Lemma py_max_comp (a a' b b' : Q) : a == a' -> b == b' -> py_max a b == py_max a' b'.
Proof.
  intros Ha Hb. unfold py_max.
  destruct (Qlt_le_dec a b), (Qlt_le_dec a' b'); lra.
Qed.

Lemma py_min_comp (a a' b b' : Q) : a == a' -> b == b' -> py_min a b == py_min a' b'.
Proof.
  intros Ha Hb. unfold py_min.
  destruct (Qlt_le_dec b a), (Qlt_le_dec b' a'); lra.
Qed.

Lemma py_max_Qmax (a b : Q) : py_max a b == Qmax a b.
Proof.
  unfold py_max. destruct (Qlt_le_dec a b).
  - symmetry. apply Q.max_r. lra.
  - symmetry. apply Q.max_l. lra.
Qed.

(** ** The kinematic model *)

(** In exact arithmetic [apply_maneuver] wraps the new heading into
    [0, 360), and clamps the new altitude at 5000 and the new speed at
    200; position and callsign are left alone.  On doubles the heading
    can come out as 360 ([apply_maneuver_heading_reaches_360]). *)
Theorem apply_maneuver_wraps_and_clamps (ac : Aircraft) (m : Maneuver) :
  let ac' := apply_maneuver ac m in
  (exists k : Z, heading ac' == heading ac + heading_change m - 360 * inject_Z k)
  /\ 0 <= heading ac' /\ heading ac' < 360
  /\ z ac' == Qmax 5000 (z ac + altitude_change m)
  /\ speed ac' == Qmax 200 (speed ac + speed_change m)
  /\ 5000 <= z ac' /\ 200 <= speed ac'
  /\ x ac' = x ac /\ y ac' = y ac /\ callsign ac' = callsign ac.
Proof.
  simpl. repeat split.
  - eexists. unfold py_mod. reflexivity.
  - apply py_mod_range. lra.
  - apply py_mod_range. lra.
  - apply py_max_Qmax.
  - apply py_max_Qmax.
  - apply py_max_lb_l.
  - apply py_max_lb_l.
Qed.

(** ** Conflict geometry *)

Section GeometryFacts.
Variables math_sin math_cos math_radians math_sqrt : Q -> Q.

Local Abbreviation cpa := (_calculate_cpa math_sin math_cos math_radians math_sqrt).
Local Abbreviation heur := (_heuristic math_sin math_cos math_radians math_sqrt).
Local Abbreviation rvel := (rel_vel math_sin math_cos math_radians).
Local Abbreviation tca := (time_of_closest_approach math_sin math_cos math_radians).
Local Abbreviation nrm := (norm math_sqrt).

(** C1: when the two altitudes are at least 1000 apart, [_calculate_cpa]
    returns infinite horizontal separation, the vertical separation and
    time zero, whatever the positions, speeds and headings are and
    whatever the [math] functions would compute; the heuristic then
    reports the pair safe. *)
Theorem cpa_vertically_safe (r : ConflictResolver) (state : ConflictState) :
  let a := get_aircraft_data state (callsign (res_A r)) in
  let b := get_aircraft_data state (callsign (res_B r)) in
  VERTICAL_MIN <= Qabs (kin_z a - kin_z b) ->
  cpa r state = (Inf, Qabs (kin_z a - kin_z b), 0) /\ heur r state = 0.
Proof.
  intros a b Hsafe.
  assert (Hcpa : cpa r state = (Inf, Qabs (kin_z a - kin_z b), 0)).
  { unfold _calculate_cpa, cpa_of. fold a b.
    destruct a as [[[[ax ay] az] aspd] ahead], b as [[[[bx by_] bz] bspd] bhead].
    unfold kin_z in *. simpl in *.
    destruct (Qlt_le_dec _ _) as [Hlt|_]; [lra|reflexivity]. }
  split; [exact Hcpa|].
  unfold _heuristic. rewrite Hcpa. cbn [ext_geb andb].
  destruct (Qlt_le_dec _ _) as [Hlt|_]; [lra|reflexivity].
Qed.

(** C2: for a pair that is not vertically safe, [_calculate_cpa] goes by
    cases.  Relative speed squared below 0.001: the current separation
    and half the lookahead.  Otherwise, with [t] the time of closest
    approach: the current separation if [t] is negative, the separation
    at time [t] if not; and when [t] lies beyond the lookahead, the
    smaller of that value and the separation at the lookahead. *)
Theorem cpa_case_analysis (r : ConflictResolver) (state : ConflictState) :
  let a := get_aircraft_data state (callsign (res_A r)) in
  let b := get_aircraft_data state (callsign (res_B r)) in
  let p := rel_pos a b in
  let v := rvel a b in
  let t := tca a b in
  let horizon := lookahead_hrs r in
  let vsep := Qabs (kin_z a - kin_z b) in
  let projected := if Qlt_le_dec t 0 then nrm p else nrm (drift p v t) in
  vsep < VERTICAL_MIN ->
  (dot v v < 1 # 1000 -> cpa r state = (Fin (nrm p), vsep, horizon / 2))
  /\ (1 # 1000 <= dot v v -> t < 0 -> t <= horizon ->
      cpa r state = (Fin (nrm p), vsep, py_max 0 t))
  /\ (1 # 1000 <= dot v v -> 0 <= t -> t <= horizon ->
      cpa r state = (Fin (nrm (drift p v t)), vsep, py_max 0 t))
  /\ (1 # 1000 <= dot v v -> horizon < t ->
      cpa r state = (Fin (py_min projected (nrm (drift p v horizon))), vsep, py_max 0 t)).
Proof.
  intros a b p v t horizon vsep projected Hunsafe.
  subst p v t horizon vsep projected.
  unfold _calculate_cpa. fold a b.
  destruct a as [[[[ax ay] az] aspd] ahead], b as [[[[bx by_] bz] bspd] bhead].
  unfold cpa_of, time_of_closest_approach, rel_vel, rel_pos, velocity, dot, norm, drift, sq,
    kin_x, kin_y, kin_z in *.
  cbn [fst snd] in *.
  destruct (Qlt_le_dec (Qabs (az - bz)) VERTICAL_MIN) as [_|Hge]; [|lra].
  repeat split.
  - intros Hslow. destruct (Qlt_le_dec _ (1 # 1000)) as [_|Hge]; [reflexivity|lra].
  - intros Hfast Hneg Hin. destruct (Qlt_le_dec _ (1 # 1000)) as [Hlt|_]; [lra|].
    destruct (Qlt_le_dec _ 0) as [_|Hge]; [|lra].
    destruct (Qlt_le_dec (lookahead_hrs r) _) as [Hlt|_]; [lra|reflexivity].
  - intros Hfast Hpos Hin. destruct (Qlt_le_dec _ (1 # 1000)) as [Hlt|_]; [lra|].
    destruct (Qlt_le_dec _ 0) as [Hlt|_].
    + destruct (Qlt_le_dec (lookahead_hrs r) _) as [Hlt'|_]; [lra|].
      exfalso. lra.
    + destruct (Qlt_le_dec (lookahead_hrs r) _) as [Hlt'|_]; [lra|reflexivity].
  - intros Hfast Hout. destruct (Qlt_le_dec _ (1 # 1000)) as [Hlt|_]; [lra|].
    destruct (Qlt_le_dec (lookahead_hrs r) _) as [_|Hge]; [reflexivity|lra].
Qed.

(** From here on [math.sqrt] is assumed to be a function of the number,
    not of the fraction that denotes it. *)
Hypothesis math_sqrt_comp : forall a b : Q, a == b -> math_sqrt a == math_sqrt b.

Lemma cpa_of_swap (horizon : Q) (a b : kinematic) :
  cpa_eq (cpa_of math_sin math_cos math_radians math_sqrt horizon a b)
         (cpa_of math_sin math_cos math_radians math_sqrt horizon b a).
Proof.
  destruct a as [[[[ax ay] az] aspd] ahead], b as [[[[bx by_] bz] bspd] bhead].
  unfold cpa_of.
  generalize (aspd * math_sin (math_radians ahead)) (aspd * math_cos (math_radians ahead))
             (bspd * math_sin (math_radians bhead)) (bspd * math_cos (math_radians bhead)).
  intros vax vay vbx vby.
  assert (Hz : Qabs (az - bz) == Qabs (bz - az)) by (rewrite Qabs_Qminus; reflexivity).
  assert (Hv : sq (vbx - vax) + sq (vby - vay) == sq (vax - vbx) + sq (vay - vby))
    by (unfold sq; ring).
  assert (Hd : sq (bx - ax) + sq (by_ - ay) == sq (ax - bx) + sq (ay - by_))
    by (unfold sq; ring).
  destruct (Qlt_le_dec (Qabs (az - bz)) VERTICAL_MIN),
           (Qlt_le_dec (Qabs (bz - az)) VERTICAL_MIN); try lra;
    [|split; [|split]; cbn [fst snd ext_eq]; [done|done|reflexivity]].
  destruct (Qlt_le_dec (sq (vbx - vax) + sq (vby - vay)) (1 # 1000)),
           (Qlt_le_dec (sq (vax - vbx) + sq (vay - vby)) (1 # 1000)); try lra.
  { split; [|split]; cbn [fst snd ext_eq]; [by apply math_sqrt_comp|done|reflexivity]. }
  set (t := - ((bx - ax) * (vbx - vax) + (by_ - ay) * (vby - vay))
            / (sq (vbx - vax) + sq (vby - vay))).
  set (t' := - ((ax - bx) * (vax - vbx) + (ay - by_) * (vay - vby))
             / (sq (vax - vbx) + sq (vay - vby))).
  assert (Ht : t == t').
  { subst t t'. apply Qmult_comp; [ring|]. by apply Qinv_comp. }
  clearbody t t'.
  assert (Hm : (if Qlt_le_dec t 0 then math_sqrt (sq (bx - ax) + sq (by_ - ay))
                else math_sqrt (sq (bx - ax + (vbx - vax) * t)
                                + sq (by_ - ay + (vby - vay) * t)))
               == (if Qlt_le_dec t' 0 then math_sqrt (sq (ax - bx) + sq (ay - by_))
                   else math_sqrt (sq (ax - bx + (vax - vbx) * t')
                                   + sq (ay - by_ + (vay - vby) * t')))).
  { destruct (Qlt_le_dec t 0), (Qlt_le_dec t' 0); try lra; apply math_sqrt_comp;
      [exact Hd|]. unfold sq. rewrite <- Ht. ring. }
  split; [|split]; cbn [fst snd ext_eq]; [|done|by apply py_max_comp].
  destruct (Qlt_le_dec horizon t), (Qlt_le_dec horizon t'); try lra.
  apply py_min_comp; [exact Hm|]. apply math_sqrt_comp. unfold sq. ring.
Qed.

(** C9: exchanging the two aircraft of the resolver does not change what
    [_calculate_cpa] returns for a joint state. *)
Theorem cpa_order_independent (a b : Aircraft) (horizon : Q) (state : ConflictState) :
  cpa_eq (cpa (mkResolver a b horizon) state) (cpa (mkResolver b a horizon) state).
Proof. unfold _calculate_cpa. cbn [res_A res_B lookahead_hrs]. apply cpa_of_swap. Qed.
End GeometryFacts.

(** ** Dictionaries and rounding *)

Lemma dict_get_set_eq (d : states_dict) (k : string) (v : kinematic) :
  dict_get (dict_set d k v) k = Some v.
Proof.
  induction d as [|[k' v'] d IH]; simpl.
  - by rewrite decide_True.
  - destruct (decide (k' = k)) as [->|Hne]; simpl.
    + by rewrite decide_True.
    + by rewrite decide_False.
Qed.

Lemma dict_get_set_ne (d : states_dict) (k k' : string) (v : kinematic) :
  k ≠ k' -> dict_get (dict_set d k v) k' = dict_get d k'.
Proof.
  intros Hne. induction d as [|[k0 v0] d IH]; simpl.
  - by rewrite decide_False.
  - destruct (decide (k0 = k)) as [->|Hne0]; simpl.
    + by rewrite !decide_False.
    + destruct (decide (k0 = k')); [done|exact IH].
Qed.

Lemma dict_set_keys (d : states_dict) (k : string) (v : kinematic) :
  is_Some (dict_get d k) -> (dict_set d k v).*1 = d.*1.
Proof.
  induction d as [|[k' v'] d IH]; simpl; intros Hk.
  - by destruct Hk.
  - destruct (decide (k' = k)) as [->|Hne]; simpl; [done|].
    f_equal. by apply IH.
Qed.

Lemma dict_get_is_Some (d : states_dict) (k : string) :
  is_Some (dict_get d k) <-> k ∈ d.*1.
Proof.
  induction d as [|[k' v'] d IH]; simpl.
  - split; [by intros []|by intros ?%elem_of_nil].
  - destruct (decide (k' = k)) as [->|Hne].
    + split; [intros _; apply list_elem_of_here|by eauto].
    + rewrite IH. split; [by apply list_elem_of_further|].
      intros [?|?]%elem_of_cons; [congruence|done].
Qed.

Lemma initial_data_keys (r : ConflictResolver) :
  exists rest, (initial_aircraft_data r).*1 = callsign (res_A r) :: rest
               /\ callsign (res_B r) ∈ callsign (res_A r) :: rest.
Proof.
  unfold initial_aircraft_data. simpl.
  destruct (decide (callsign (res_A r) = callsign (res_B r))) as [Heq|Hne]; simpl.
  - exists []. split; [by rewrite Heq|]. rewrite Heq. apply list_elem_of_here.
  - exists [callsign (res_B r)]. split; [done|]. set_solver.
Qed.

Lemma py_round0_bounds (a : Q) :
  a - (1 # 2) <= inject_Z (py_round0 a) /\ inject_Z (py_round0 a) <= a + (1 # 2).
Proof.
  unfold py_round0.
  pose proof (Qfloor_le a) as Hlo. pose proof (Qlt_floor a) as Hhi.
  rewrite inject_Z_plus in Hhi. change (inject_Z 1) with 1 in Hhi.
  destruct (Qlt_le_dec _ _) as [H1|H1]; [lra|].
  destruct (Qlt_le_dec _ _) as [H2|H2].
  - rewrite inject_Z_plus. change (inject_Z 1) with 1. lra.
  - destruct (Z.even _); [lra|].
    rewrite inject_Z_plus. change (inject_Z 1) with 1. lra.
Qed.

Lemma py_round0_gap (a b : Q) : a + 1000 <= b -> (py_round0 a < py_round0 b)%Z.
Proof.
  intros Hab. pose proof (py_round0_bounds a) as [_ Ha].
  pose proof (py_round0_bounds b) as [Hb _].
  rewrite Zlt_Qlt. lra.
Qed.

(** ** The search *)

Section SearchFacts.
Variables math_sin math_cos math_radians math_sqrt : Q -> Q.

Local Abbreviation heur := (_heuristic math_sin math_cos math_radians math_sqrt).
Local Abbreviation init := (initial_state math_sin math_cos math_radians math_sqrt).
Local Abbreviation succ := (successor math_sin math_cos math_radians math_sqrt).
Local Abbreviation step := (consider math_sin math_cos math_radians math_sqrt).
Local Abbreviation expd := (expand math_sin math_cos math_radians math_sqrt).
Local Abbreviation loop := (search_loop math_sin math_cos math_radians math_sqrt).
Local Abbreviation start := (search_start math_sin math_cos math_radians math_sqrt).
Local Abbreviation run := (a_star_run math_sin math_cos math_radians math_sqrt).
Local Abbreviation gen := (generated math_sin math_cos math_radians math_sqrt).

Lemma options_callsign (r : ConflictResolver) (m : Maneuver) :
  m ∈ MANEUVER_OPTIONS r ->
  m_callsign m = callsign (res_A r) \/ m_callsign m = callsign (res_B r).
Proof.
  unfold MANEUVER_OPTIONS. rewrite !elem_of_app, !list_elem_of_fmap.
  intros [(d & -> & _)|[(d & -> & _)|[(d & -> & _)|(d & -> & _)]]]; simpl; auto.
Qed.

Lemma keys_ok_lookup (r : ConflictResolver) (n : ConflictState) (m : Maneuver) :
  keys_ok r n -> m ∈ MANEUVER_OPTIONS r ->
  is_Some (dict_get (aircraft_states n) (m_callsign m)).
Proof.
  intros Hk Hm. apply dict_get_is_Some. rewrite Hk.
  destruct (initial_data_keys r) as (rest & -> & HB).
  destruct (options_callsign r m Hm) as [->| ->]; [apply list_elem_of_here|exact HB].
Qed.

Lemma successor_inv (r : ConflictResolver) (n s : ConflictState) (m : Maneuver) :
  succ r n m = Some s ->
  exists x0 y0 z0 speed0 heading0,
    dict_get (aircraft_states n) (m_callsign m) = Some (x0, y0, z0, speed0, heading0)
    /\ aircraft_states s =
       dict_set (aircraft_states n) (m_callsign m)
         (x0, y0, py_max 5000 (z0 + altitude_change m),
          py_max 200 (speed0 + speed_change m),
          py_mod (py_mod heading0 360 + heading_change m) 360)
    /\ g_cost s = g_cost n + Maneuver_cost m
    /\ parent s = Some n /\ maneuver s = Some m.
Proof.
  unfold successor.
  destruct (dict_get _ _) as [[[[[x0 y0] z0] speed0] heading0]|] eqn:Hget; [|done].
  intros [= <-]. by exists x0, y0, z0, speed0, heading0.
Qed.

Lemma successor_is_Some (r : ConflictResolver) (n : ConflictState) (m : Maneuver) :
  keys_ok r n -> m ∈ MANEUVER_OPTIONS r -> is_Some (succ r n m).
Proof.
  intros Hk Hm. destruct (keys_ok_lookup r n m Hk Hm) as [[[[[x0 y0] z0] sp] hd] Hget].
  unfold successor. rewrite Hget. by eexists.
Qed.

Lemma successor_keys (r : ConflictResolver) (n s : ConflictState) (m : Maneuver) :
  keys_ok r n -> succ r n m = Some s -> keys_ok r s.
Proof.
  intros Hk (x0 & y0 & z0 & sp & hd & Hget & Hs & _)%successor_inv.
  unfold keys_ok. rewrite Hs, dict_set_keys; [exact Hk|]. by rewrite Hget.
Qed.

Lemma keys_ok_initial (r : ConflictResolver) : keys_ok r (init r).
Proof. done. Qed.

Lemma generated_keys (r : ConflictResolver) (s : ConflictState) : gen r s -> keys_ok r s.
Proof.
  induction 1 as [|n m s _ IH _ Hs]; [apply keys_ok_initial|].
  by eapply successor_keys.
Qed.

Lemma successor_positions (r : ConflictResolver) (n s : ConflictState) (m : Maneuver) :
  same_positions r n -> succ r n m = Some s -> same_positions r s.
Proof.
  intros Hn (x0 & y0 & z0 & sp & hd & Hget & Hs & _)%successor_inv cs.
  specialize (Hn cs). unfold get_aircraft_data in *. rewrite Hs.
  destruct (decide (m_callsign m = cs)) as [<-|Hne].
  - rewrite dict_get_set_eq. rewrite Hget in Hn. exact Hn.
  - by rewrite dict_get_set_ne.
Qed.

(** C10: in every joint state the search can generate, both aircraft
    have the planar position they have in the initial state; maneuvers
    change heading, altitude and speed only. *)
Theorem search_keeps_positions (r : ConflictResolver) (s : ConflictState) :
  gen r s -> same_positions r s.
Proof.
  induction 1 as [|n m s _ IH _ Hs]; [done|].
  by eapply successor_positions.
Qed.

Lemma fingerprint_z_hash (s : ConflictState) : fingerprint_z (state_hash s) = lead_z s.
Proof.
  unfold state_hash, lead_z. destruct (aircraft_states s) as [|[k v] d]; [done|].
  by destruct v as [[[[vx vy] vz] vs] vh].
Qed.

Lemma consider_inv (r : ConflictResolver) (cur : ConflictState) (m : Maneuver)
    (open open' : list ConflictState) (gs gs' : gmap fingerprint Q) :
  step r cur (Some (open, gs)) m = Some (open', gs') ->
  exists s, succ r cur m = Some s
    /\ ((open' = open /\ gs' = gs /\ is_Some (gs !! state_hash s))
        \/ (open' = heappush state_lt open s
            /\ gs' = <[state_hash s := g_cost s]> gs)).
Proof.
  unfold consider. destruct (succ r cur m) as [s|]; [|done].
  intros Hstep. exists s. split; [done|].
  destruct (gs !! state_hash s) as [g_old|] eqn:Hold.
  - destruct (Qlt_le_dec _ _); simplify_eq; [by right|left; eauto].
  - simplify_eq. by right.
Qed.

Lemma consider_None (r : ConflictResolver) (cur : ConflictState) (ms : list Maneuver) :
  foldl (step r cur) None ms = None.
Proof. by induction ms. Qed.

(** Recording a fingerprint that is not above a bound keeps the bound. *)
Lemma recorded_below (gs : gmap fingerprint Q) (s : ConflictState) (g : Q) (bound : Z) :
  (forall k, is_Some (gs !! k) -> (fingerprint_z k <= bound)%Z) ->
  (lead_z s <= bound)%Z ->
  forall k, is_Some (<[state_hash s := g]> gs !! k) -> (fingerprint_z k <= bound)%Z.
Proof.
  intros Hgs Hs k [g' Hk]. destruct (decide (state_hash s = k)) as [<-|Hne].
  - by rewrite fingerprint_z_hash.
  - rewrite lookup_insert_ne in Hk by done. eauto.
Qed.

(** A pushed node that is above every recorded fingerprint leads. *)
Lemma pushed_on_top (open : list ConflictState) (gs : gmap fingerprint Q)
    (s : ConflictState) (bound : Z) :
  (forall k, is_Some (gs !! k) -> (fingerprint_z k <= bound)%Z) ->
  (bound <= lead_z s)%Z ->
  leads (heappush state_lt open s) (<[state_hash s := g_cost s]> gs).
Proof.
  intros Hgs Hs. exists s. split; [rewrite heappush_perm; apply list_elem_of_here|].
  apply recorded_below; [|done]. intros k Hk. specialize (Hgs k Hk). lia.
Qed.

Lemma pushed_leads (open : list ConflictState) (gs : gmap fingerprint Q)
    (s : ConflictState) :
  leads open gs ->
  leads (heappush state_lt open s) (<[state_hash s := g_cost s]> gs).
Proof.
  intros (w & Hw & Hmax).
  destruct (decide (lead_z s <= lead_z w)%Z) as [Hle|Hgt].
  - exists w. split; [rewrite heappush_perm; by apply list_elem_of_further|].
    by apply recorded_below.
  - apply (pushed_on_top open gs s (lead_z w)); [done|lia].
Qed.

Lemma consider_leads (r : ConflictResolver) (cur : ConflictState) (m : Maneuver)
    (open open' : list ConflictState) (gs gs' : gmap fingerprint Q) :
  leads open gs -> step r cur (Some (open, gs)) m = Some (open', gs') -> leads open' gs'.
Proof.
  intros Hl (s & _ & [(-> & -> & _)|(-> & ->)])%consider_inv; [done|].
  by apply pushed_leads.
Qed.

Lemma consider_leads_or_tops (r : ConflictResolver) (cur : ConflictState) (m : Maneuver)
    (open open' : list ConflictState) (gs gs' : gmap fingerprint Q) :
  leads open gs \/ tops cur gs ->
  step r cur (Some (open, gs)) m = Some (open', gs') ->
  leads open' gs' \/ tops cur gs'.
Proof.
  intros [Hl|Ht] Hstep; [left; by eapply consider_leads|].
  apply consider_inv in Hstep as (s & _ & [(-> & -> & _)|(-> & ->)]); [by right|].
  destruct (decide (lead_z s <= lead_z cur)%Z) as [Hle|Hgt].
  - right. exact (recorded_below gs s (g_cost s) (lead_z cur) Ht Hle).
  - left. apply (pushed_on_top open gs s (lead_z cur)); [done|lia].
Qed.

(** A successor that climbs above a topmost node is new, so it is pushed. *)
Lemma consider_climb (r : ConflictResolver) (cur s : ConflictState) (m : Maneuver)
    (open open' : list ConflictState) (gs gs' : gmap fingerprint Q) :
  leads open gs \/ tops cur gs ->
  succ r cur m = Some s -> (lead_z cur < lead_z s)%Z ->
  step r cur (Some (open, gs)) m = Some (open', gs') ->
  leads open' gs'.
Proof.
  intros [Hl|Ht] Hs Hup Hstep; [by eapply consider_leads|].
  apply consider_inv in Hstep as (s' & Hs' & Hcase).
  assert (s' = s) as -> by congruence.
  destruct Hcase as [(_ & _ & Hknown)|(-> & ->)].
  - specialize (Ht _ Hknown). rewrite fingerprint_z_hash in Ht. lia.
  - apply (pushed_on_top open gs s (lead_z cur)); [done|lia].
Qed.

Lemma climb_successor (r : ConflictResolver) (cur s : ConflictState) :
  keys_ok r cur ->
  succ r cur (altitude_maneuver (callsign (res_A r)) 1000) = Some s ->
  (lead_z cur < lead_z s)%Z.
Proof.
  intros Hk (x0 & y0 & z0 & sp & hd & Hget & Hs & _)%successor_inv.
  destruct (initial_data_keys r) as (rest & Hkeys & _).
  unfold keys_ok in Hk. rewrite Hkeys in Hk.
  unfold lead_z. rewrite Hs.
  destruct (aircraft_states cur) as [|[k v] d]; [done|].
  simpl in Hk, Hget, Hs |- *. injection Hk as -> _.
  destruct (decide (callsign (res_A r) = callsign (res_A r))); [|done].
  injection Hget as ->.
  cbn [kin_z fst snd]. apply py_round0_gap.
  change (altitude_change _) with 1000. apply py_max_lb_r.
Qed.

Lemma fold_consider_leads (r : ConflictResolver) (cur : ConflictState)
    (ms : list Maneuver) (open open' : list ConflictState)
    (gs gs' : gmap fingerprint Q) :
  leads open gs ->
  foldl (step r cur) (Some (open, gs)) ms = Some (open', gs') -> leads open' gs'.
Proof.
  revert open gs. induction ms as [|m ms IH]; intros open gs Hl Hfold; cbn [foldl] in Hfold.
  - by simplify_eq.
  - destruct (step r cur (Some (open, gs)) m) as [[o g]|] eqn:Hstep.
    + eapply IH; [|exact Hfold]. by eapply consider_leads.
    + by rewrite consider_None in Hfold.
Qed.

Lemma fold_consider_leads_or_tops (r : ConflictResolver) (cur : ConflictState)
    (ms : list Maneuver) (open open' : list ConflictState)
    (gs gs' : gmap fingerprint Q) :
  leads open gs \/ tops cur gs ->
  foldl (step r cur) (Some (open, gs)) ms = Some (open', gs') ->
  leads open' gs' \/ tops cur gs'.
Proof.
  revert open gs. induction ms as [|m ms IH]; intros open gs Hl Hfold; cbn [foldl] in Hfold.
  - by simplify_eq.
  - destruct (step r cur (Some (open, gs)) m) as [[o g]|] eqn:Hstep.
    + eapply IH; [|exact Hfold]. by eapply consider_leads_or_tops.
    + by rewrite consider_None in Hfold.
Qed.

(** After a full expansion the open list holds a topmost node: the
    successor that sends the first aircraft up 1000 is above its parent. *)
Lemma expand_leads (r : ConflictResolver) (cur : ConflictState)
    (open open' : list ConflictState) (gs gs' : gmap fingerprint Q) :
  keys_ok r cur -> leads open gs \/ tops cur gs ->
  expd r cur open gs = Some (open', gs') -> leads open' gs'.
Proof.
  intros Hk Hl. unfold expand.
  set (up := altitude_maneuver (callsign (res_A r)) 1000).
  assert (Hsplit : exists before after, MANEUVER_OPTIONS r = before ++ up :: after).
  { eexists (_ :: _ :: _ :: _ :: _ :: _ :: _ :: _ :: [_]), _. reflexivity. }
  destruct Hsplit as (before & after & ->).
  rewrite foldl_app. cbn [foldl].
  destruct (foldl (step r cur) (Some (open, gs)) before) as [[o1 g1]|] eqn:H1;
    [|by rewrite consider_None].
  apply fold_consider_leads_or_tops in H1; [|done].
  destruct (step r cur (Some (o1, g1)) up) as [[o2 g2]|] eqn:H2;
    [|by rewrite consider_None].
  intros H3. eapply fold_consider_leads; [|exact H3].
  pose proof H2 as (s & Hs & _)%consider_inv.
  eapply consider_climb; [exact H1|exact Hs| |exact H2].
  by eapply climb_successor.
Qed.

Lemma fold_consider_Forall (P : ConflictState -> Prop) (r : ConflictResolver)
    (cur : ConflictState) (ms : list Maneuver) (open open' : list ConflictState)
    (gs gs' : gmap fingerprint Q) :
  (forall m s, m ∈ ms -> succ r cur m = Some s -> P s) ->
  Forall P open ->
  foldl (step r cur) (Some (open, gs)) ms = Some (open', gs') -> Forall P open'.
Proof.
  revert open gs. induction ms as [|m ms IH]; intros open gs HP Hopen Hfold;
    cbn [foldl] in Hfold.
  - by simplify_eq.
  - destruct (step r cur (Some (open, gs)) m) as [[o g]|] eqn:Hstep;
      [|by rewrite consider_None in Hfold].
    eapply IH; [| |exact Hfold].
    + intros m' s' Hm'. apply HP. by apply list_elem_of_further.
    + apply consider_inv in Hstep as (s & Hs & [(-> & _)|(-> & _)]); [done|].
      rewrite heappush_perm. constructor; [|done].
      eapply HP; [apply list_elem_of_here|exact Hs].
Qed.

Lemma consider_is_Some (r : ConflictResolver) (cur : ConflictState) (m : Maneuver)
    (open : list ConflictState) (gs : gmap fingerprint Q) :
  is_Some (succ r cur m) ->
  exists o g, step r cur (Some (open, gs)) m = Some (o, g).
Proof.
  intros [s Hs]. unfold consider. rewrite Hs.
  destruct (match gs !! state_hash s with
            | Some g_old => if Qlt_le_dec (g_cost s) g_old then false else true
            | None => false end); eauto.
Qed.

Lemma fold_consider_is_Some (r : ConflictResolver) (cur : ConflictState)
    (ms : list Maneuver) (open : list ConflictState) (gs : gmap fingerprint Q) :
  (forall m, m ∈ ms -> is_Some (succ r cur m)) ->
  is_Some (foldl (step r cur) (Some (open, gs)) ms).
Proof.
  revert open gs. induction ms as [|m ms IH]; intros open gs Hsucc; cbn [foldl];
    [by eexists|].
  destruct (consider_is_Some r cur m open gs) as (o & g & ->);
    [apply Hsucc, list_elem_of_here|].
  apply IH. intros m' Hm'. apply Hsucc. by apply list_elem_of_further.
Qed.

Lemma search_loop_inv (fuel : nat) (r : ConflictResolver) (st : SearchState)
    (out : outcome) (st' : SearchState) :
  Forall (gen r) (open_list st) ->
  leads (open_list st) (g_scores st) ->
  (nodes_explored st <= max_search_nodes)%nat ->
  loop fuel r st = (out, st') ->
  Forall (gen r) (open_list st')
  /\ (nodes_explored st' <= max_search_nodes)%nat
  /\ loop_post math_sin math_cos math_radians math_sqrt r fuel st out st'.
Proof.
  revert st. induction fuel as [|fuel IH]; intros st Hgen Hleads Hn Hrun;
    cbn [search_loop] in Hrun.
  { simplify_eq. repeat split; [done|done|simpl; lia|done]. }
  destruct (open_list st) as [|c l] eqn:Hopen.
  { destruct Hleads as (w & Hw & _). by apply elem_of_nil in Hw. }
  destruct (Nat.ltb_spec (nodes_explored st) max_search_nodes) as [Hlt|Hge]; cycle 1.
  { simplify_eq. repeat split; [by rewrite Hopen|done|simpl; lia|by rewrite Hopen]. }
  destruct (heappop state_lt (c :: l)) as [[cur open]|] eqn:Hpop; cycle 1.
  { by apply heappop_None in Hpop. }
  apply heappop_perm in Hpop. rewrite Hpop in Hgen.
  apply Forall_cons in Hgen as [Hcur Hrest].
  destruct (Qeq_bool (h_cost cur) 0) eqn:Hgoal.
  { simplify_eq. repeat split; [done|simpl; lia|].
    exists cur. repeat split; [done|by apply Qeq_bool_iff]. }
  pose proof (generated_keys r cur Hcur) as Hkeys.
  destruct (expd r cur open (g_scores st)) as [[open' gs']|] eqn:Hexp; cycle 1.
  { exfalso. eapply is_Some_None. rewrite <- Hexp. apply fold_consider_is_Some.
    intros m Hm. by apply successor_is_Some. }
  apply IH in Hrun; cbn [open_list g_scores nodes_explored] in *.
  - destruct Hrun as (Hg & Hle & Hpost). repeat split; [done|done|].
    destruct out as [[path|]| |]; simpl in *; [done|done|done|].
    destruct Hpost as [-> ?]. split; [lia|done].
  - eapply (fold_consider_Forall (gen r)); [|exact Hrest|exact Hexp].
    intros m s Hm Hs. by eapply generated_successor.
  - eapply expand_leads; [exact Hkeys| |exact Hexp].
    destruct Hleads as (w & Hw & Hmax). rewrite Hpop in Hw.
    apply elem_of_cons in Hw as [->|Hw]; [by right|].
    left. by exists w.
  - lia.
Qed.

Lemma search_start_inv (r : ConflictResolver) :
  Forall (gen r) (open_list (start r))
  /\ leads (open_list (start r)) (g_scores (start r))
  /\ nodes_explored (start r) = 0%nat.
Proof.
  repeat split.
  - repeat constructor.
  - exists (init r). split; [apply list_elem_of_here|].
    intros k [g Hk]. unfold search_start in Hk. cbn [g_scores] in Hk.
    apply lookup_singleton_Some in Hk as [<- _]. by rewrite fingerprint_z_hash.
Qed.

Lemma a_star_run_shape (r : ConflictResolver) :
  Forall (gen r) (open_list (run r).2)
  /\ (nodes_explored (run r).2 <= max_search_nodes)%nat
  /\ loop_post math_sin math_cos math_radians math_sqrt r (S max_search_nodes) (start r) (run r).1 (run r).2.
Proof.
  destruct (search_start_inv r) as (Hgen & Hleads & Hzero).
  apply search_loop_inv; [done|done|lia|].
  unfold a_star_run. by destruct (loop _ _ _).
Qed.

(** Fuel beyond what the loop used changes nothing. *)
Lemma search_loop_more_fuel (fuel extra : nat) (r : ConflictResolver) (st : SearchState) :
  (loop fuel r st).1 <> OutOfFuel ->
  loop (fuel + extra) r st = loop fuel r st.
Proof.
  revert st. induction fuel as [|fuel IH]; intros st Hout; [done|].
  cbn [search_loop Nat.add] in *.
  destruct (open_list st); [done|].
  destruct (_ <? _)%nat; [|done].
  destruct (heappop _ _) as [[cur open]|]; [|done].
  destruct (Qeq_bool _ _); [done|].
  destruct (expd _ _ _ _) as [[open' gs']|]; [|done].
  by apply IH.
Qed.

(** C3: [a_star_search] always comes back with a value, after at most
    1000 pops from the open list; it returns [None] unless a popped node
    had [h_cost] zero, in which case it returns that node's path. *)
Theorem a_star_within_budget (r : ConflictResolver) :
  exists (res : option (list Maneuver)) (st : SearchState),
    run r = (Return res, st)
    /\ (nodes_explored st <= 1000)%nat
    /\ (forall extra, loop (S max_search_nodes + extra) r (start r) = (Return res, st))
    /\ match res with
       | Some path => exists node, gen r node /\ h_cost node == 0
                                   /\ path = reconstruct_path node
       | None => nodes_explored st = 1000%nat
       end.
Proof.
  destruct (a_star_run_shape r) as (_ & Hle & Hpost).
  assert (Hfuel : forall extra, loop (S max_search_nodes + extra) r (start r) = run r).
  { intros extra. apply search_loop_more_fuel.
    fold (run r). intros Hout. rewrite Hout in Hpost.
    destruct Hpost as [Hn _]. change (nodes_explored (start r)) with 0%nat in Hn. lia. }
  destruct (run r) as [out st] eqn:Hrun. cbn [fst snd] in *.
  destruct out as [res| |]; cbn [loop_post] in Hpost.
  - exists res, st. repeat split; [exact Hle|exact Hfuel|].
    destruct res as [path|]; [exact Hpost|]. by destruct Hpost.
  - done.
  - destruct Hpost as [Hn _]. change (nodes_explored (start r)) with 0%nat in Hn. lia.
Qed.

(** In exact arithmetic the search ends in one of two ways only: a
    popped node with [h_cost] zero, whose path is returned, or [None]
    after exactly 1000 pops.  When it returns [None] the open list is not
    empty.  On doubles there is a third way ([a_star_three_exits]). *)
Theorem a_star_two_exits (r : ConflictResolver) :
  match run r with
  | (Return (Some path), st) =>
      exists node, gen r node /\ h_cost node == 0 /\ path = reconstruct_path node
  | (Return None, st) =>
      nodes_explored st = max_search_nodes /\ open_list st <> []
  | (Raise _, _) | (OutOfFuel, _) => False
  end.
Proof.
  destruct (a_star_run_shape r) as (_ & Hle & Hpost).
  destruct (run r) as [out st]. cbn [fst snd] in *.
  destruct out as [[path|]| |]; cbn [loop_post] in Hpost; try done.
  destruct Hpost as [Hn _]. change (nodes_explored (start r)) with 0%nat in Hn. lia.
Qed.

(** Every node of the open list, at any point of the loop, is a
    generated state. *)
Lemma open_list_generated (r : ConflictResolver) (fuel : nat) :
  Forall (gen r) (open_list (loop fuel r (start r)).2).
Proof.
  destruct (search_start_inv r) as (Hgen & Hleads & Hzero).
  destruct (loop fuel r (start r)) as [out st] eqn:Hrun.
  eapply search_loop_inv in Hrun as (H & _); [done..|lia].
Qed.
End SearchFacts.

(** ** The coordinator *)

Section ControllerFacts.
Variables math_sin math_cos math_radians math_sqrt : Q -> Q.

Local Abbreviation gen := (generated math_sin math_cos math_radians math_sqrt).
Local Abbreviation astar := (a_star_search math_sin math_cos math_radians math_sqrt).
Local Abbreviation pair_step := (scan_pair math_sin math_cos math_radians math_sqrt).
Local Abbreviation pass := (scan_pairs math_sin math_cos math_radians math_sqrt).
Local Abbreviation check := (check_for_conflicts math_sin math_cos math_radians math_sqrt).

Lemma reconstruct_path_options (r : ConflictResolver) (node : ConflictState) :
  gen r node -> Forall (fun m => m ∈ MANEUVER_OPTIONS r) (reconstruct_path node).
Proof.
  induction 1 as [|n m s _ IH Hm Hs]; [constructor|].
  apply successor_inv in Hs as (_ & _ & _ & _ & _ & _ & _ & _ & Hp & Hmv).
  destruct s; simplify_eq/=. apply Forall_app. split; [done|by apply Forall_singleton].
Qed.

(** A returned path only names the two aircraft of the pair. *)
Lemma a_star_path_callsigns (r : ConflictResolver) (path : list Maneuver) :
  astar r = Return (Some path) ->
  Forall (fun m => m_callsign m = callsign (res_A r)
                   \/ m_callsign m = callsign (res_B r)) path.
Proof.
  unfold a_star_search. intros Hres.
  destruct (a_star_run_shape math_sin math_cos math_radians math_sqrt r) as (_ & _ & Hexit).
  rewrite Hres in Hexit. destruct Hexit as (node & Hgen & _ & ->).
  eapply Forall_impl; [by apply reconstruct_path_options|].
  intros m. apply options_callsign.
Qed.

Lemma enqueue_other (q : gmap string (list Maneuver)) (path : list Maneuver) (cs : string) :
  Forall (fun m => m_callsign m ≠ cs) path -> foldl enqueue q path !! cs = q !! cs.
Proof.
  revert q. induction path as [|m path IH]; intros q Hpath; [done|].
  apply Forall_cons in Hpath as [Hm Hrest]. cbn [foldl].
  rewrite IH by done. unfold enqueue. by rewrite lookup_insert_ne.
Qed.

(** The skip rule: a pair with a queued aircraft is passed over. *)
Lemma scan_pair_skips (horizon : Q) (st : Scan) (i j : nat) (a b : Aircraft) :
  sc_aircraft st !! i = Some a -> sc_aircraft st !! j = Some b ->
  is_Some (sc_resolved st !! callsign a) \/ is_Some (sc_resolved st !! callsign b) ->
  pair_step horizon st (i, j) = Return st.
Proof.
  intros Ha Hb Hq. unfold scan_pair. cbn [fst snd]. rewrite Ha, Hb.
  by rewrite decide_True.
Qed.

Lemma scan_pair_queued (horizon : Q) (st st' : Scan) (ij : nat * nat) (cs : string) :
  is_Some (sc_resolved st !! cs) ->
  pair_step horizon st ij = Return st' ->
  exists new, sc_conflicts st' = sc_conflicts st ++ new
    /\ Forall (fun rep => mentions cs rep = false) new
    /\ sc_resolved st' !! cs = sc_resolved st !! cs.
Proof.
  intros Hq. unfold scan_pair.
  destruct (sc_aircraft st !! ij.1) as [a|]; [|done].
  destruct (sc_aircraft st !! ij.2) as [b|]; [|done].
  assert (Hstay : exists new, sc_conflicts st = sc_conflicts st ++ new
            /\ Forall (fun rep => mentions cs rep = false) new
            /\ sc_resolved st !! cs = sc_resolved st !! cs).
  { exists []. by rewrite app_nil_r. }
  destruct (decide _) as [_|Hfree]; [by intros [= <-]|].
  assert (Ha : callsign a ≠ cs) by (intros Heq; rewrite Heq in Hfree; tauto).
  assert (Hb : callsign b ≠ cs) by (intros Heq; rewrite Heq in Hfree; tauto).
  assert (Hrep : forall t h v status,
            mentions cs (mkReport (callsign a) (callsign b) t h v status) = false).
  { intros. unfold mentions. cbn [rep_a rep_b].
    by rewrite !bool_decide_eq_false_2. }
  destruct (Qlt_le_dec _ VERTICAL_MIN); [|by intros [= <-]].
  destruct (Qlt_le_dec _ (1 # 1000)).
  { destruct (Qlt_le_dec _ HORIZONTAL_MIN); [|by intros [= <-]].
    intros [= <-]. eexists [_]. cbn [sc_conflicts sc_resolved].
    split; [done|]. split; [by repeat constructor|done]. }
  destruct (_ && _); [|by intros [= <-]].
  destruct (Qlt_le_dec _ HORIZONTAL_MIN); [|by intros [= <-]].
  destruct (astar _) as [[[|m path]|]| |] eqn:Hsearch; try done.
  - intros [= <-]. eexists [_]. cbn [sc_conflicts sc_resolved].
    split; [done|]. split; [by repeat constructor|done].
  - intros [= <-]. eexists [_]. cbn [sc_conflicts sc_resolved].
    split; [done|]. split; [by repeat constructor|].
    apply (enqueue_other (sc_resolved st) (m :: path) cs).
    apply a_star_path_callsigns in Hsearch.
    eapply Forall_impl; [exact Hsearch|]. cbn [res_A res_B].
    intros m' [Heq|Heq]; by rewrite Heq.
  - intros [= <-]. eexists [_]. cbn [sc_conflicts sc_resolved].
    split; [done|]. split; [by repeat constructor|done].
Qed.

(** C5 (amended): once an aircraft has a resolution queued in a pass,
    the rest of the pass leaves it alone: no later line of the report
    names it, so no later search involves it, and its queue is not
    touched. *)
Theorem queued_agent_left_alone (horizon : Q) (st st' : Scan)
    (pairs : list (nat * nat)) (cs : string) :
  is_Some (sc_resolved st !! cs) ->
  pass horizon st pairs = Return st' ->
  exists new, sc_conflicts st' = sc_conflicts st ++ new
    /\ Forall (fun rep => mentions cs rep = false) new
    /\ sc_resolved st' !! cs = sc_resolved st !! cs.
Proof.
  revert st. induction pairs as [|ij pairs IH]; intros st Hq Hpass;
    cbn [scan_pairs] in Hpass.
  - injection Hpass as <-. exists []. by rewrite app_nil_r.
  - destruct (pair_step horizon st ij) as [st1| |] eqn:Hstep; try done.
    destruct (scan_pair_queued horizon st st1 ij cs Hq Hstep) as (new1 & H1 & Hno1 & Hq1).
    destruct (IH st1) as (new2 & H2 & Hno2 & Hq2); [by rewrite Hq1|done|].
    exists (new1 ++ new2). split; [by rewrite H2, H1, app_assoc|].
    split; [by apply Forall_app|congruence].
Qed.

End ControllerFacts.

(** ** Registration *)

Section DialogFacts.
Variable str_upper : string -> string.
Variable float_of_string : string -> option Q.

Local Abbreviation dialog_add := (AddPlaneDialog_add_aircraft str_upper float_of_string).

End DialogFacts.

(** ** Sample runs *)

Lemma approx_sqrt_comp (a b : Q) : a == b -> approx_sqrt a == approx_sqrt b.
Proof.
  intros Hab. unfold approx_sqrt.
  assert (Hfl : Qfloor (a * 1000000000000000000000000)
                = Qfloor (b * 1000000000000000000000000))
    by (apply Qfloor_comp; rewrite Hab; reflexivity).
  rewrite Hfl. reflexivity.
Qed.

Lemma cpa_vertically_safe_witness :
  _calculate_cpa approx_sin approx_cos approx_radians approx_sqrt stacked
    (Root (initial_aircraft_data stacked) 0 0 0)
  = (Inf,
     Qabs (kin_z (get_aircraft_data (Root (initial_aircraft_data stacked) 0 0 0) "AAL123")
           - kin_z (get_aircraft_data (Root (initial_aircraft_data stacked) 0 0 0) "DAL001")),
     0)
  /\ _heuristic approx_sin approx_cos approx_radians approx_sqrt stacked
       (Root (initial_aircraft_data stacked) 0 0 0) = 0.
Proof.
  apply (cpa_vertically_safe approx_sin approx_cos approx_radians approx_sqrt stacked
           (Root (initial_aircraft_data stacked) 0 0 0)).
  by vm_compute.
Defined.

Lemma cpa_case_analysis_witness :
  _calculate_cpa approx_sin approx_cos approx_radians approx_sqrt head_on
    (Root (initial_aircraft_data head_on) 0 0 0)
  = (Fin (norm approx_sqrt
            (drift (rel_pos (-20, 0, 30000, 450, 90) (20, 0, 30000, 450, 270))
               (rel_vel approx_sin approx_cos approx_radians
                  (-20, 0, 30000, 450, 90) (20, 0, 30000, 450, 270))
               (time_of_closest_approach approx_sin approx_cos approx_radians
                  (-20, 0, 30000, 450, 90) (20, 0, 30000, 450, 270)))),
     Qabs (30000 - 30000),
     py_max 0 (time_of_closest_approach approx_sin approx_cos approx_radians
                 (-20, 0, 30000, 450, 90) (20, 0, 30000, 450, 270))).
Proof.
  refine (proj1 (proj2 (proj2
            (cpa_case_analysis approx_sin approx_cos approx_radians approx_sqrt head_on
               (Root (initial_aircraft_data head_on) 0 0 0) _))) _ _ _); by vm_compute.
Defined.

Lemma cpa_order_independent_witness :
  cpa_eq
    (_calculate_cpa approx_sin approx_cos approx_radians approx_sqrt
       (mkResolver plane_a plane_x (5 / 60)) (Root (initial_aircraft_data head_on) 0 0 0))
    (_calculate_cpa approx_sin approx_cos approx_radians approx_sqrt
       (mkResolver plane_x plane_a (5 / 60)) (Root (initial_aircraft_data head_on) 0 0 0)).
Proof.
  exact (cpa_order_independent approx_sin approx_cos approx_radians approx_sqrt
           approx_sqrt_comp plane_a plane_x (5 / 60)
           (Root (initial_aircraft_data head_on) 0 0 0)).
Defined.

Lemma search_keeps_positions_witness :
  same_positions head_on (initial_state approx_sin approx_cos approx_radians approx_sqrt head_on).
Proof.
  apply (search_keeps_positions approx_sin approx_cos approx_radians approx_sqrt head_on).
  apply generated_initial.
Defined.

Lemma queued_agent_left_alone_witness :
  exists new, sc_conflicts queued_scan = sc_conflicts queued_scan ++ new
    /\ Forall (fun rep => mentions "AAL123" rep = false) new
    /\ sc_resolved queued_scan !! "AAL123"%string = sc_resolved queued_scan !! "AAL123"%string.
Proof.
  apply (queued_agent_left_alone approx_sin approx_cos approx_radians approx_sqrt
           (5 / 60) queued_scan queued_scan [(0, 1)%nat] "AAL123").
  - exists [altitude_maneuver "AAL123" (-1000)]. by vm_compute.
  - by vm_compute.
Defined.

(** C5 as stated fails: in one pass over [three_way], UAL456 is in two
    searches.  The search for AAL123 and UAL456 returns one maneuver,
    for AAL123 alone; UAL456 has nothing queued when its pair with
    SWA789 comes up, and is searched again. *)
Lemma one_search_per_agent_fails :
  ~ (forall (c : ATC_Controller) (cs : string),
       (searches_with cs
          (report_of (check_for_conflicts approx_sin approx_cos approx_radians approx_sqrt c))
        <= 1)%nat).
Proof.
  intros Hclaim. specialize (Hclaim three_way "UAL456"%string).
  assert (Hrun : searches_with "UAL456"
                   (report_of (check_for_conflicts approx_sin approx_cos approx_radians
                                 approx_sqrt three_way)) = 2%nat)
    by (vm_compute; reflexivity).
  rewrite Hrun in Hclaim. lia.
Qed.




(** * Further facts *)

(** ** Motion *)

Section MotionFacts.
Variables math_sin math_cos math_radians : Q -> Q.

Local Abbreviation move := (update_position math_sin math_cos math_radians).
Local Abbreviation project := (get_projected_position math_sin math_cos math_radians).

(** X1: flying [t1] hours and then [t2] hours puts the aircraft where
    flying [t1 + t2] hours does; altitude, speed, heading, callsign and
    alert are not touched. *)
Theorem update_position_compose (ac : Aircraft) (t1 t2 : Q) :
  x (move (move ac t1) t2) == x (move ac (t1 + t2))
  /\ y (move (move ac t1) t2) == y (move ac (t1 + t2))
  /\ z (move (move ac t1) t2) = z ac
  /\ speed (move (move ac t1) t2) = speed ac
  /\ heading (move (move ac t1) t2) = heading ac
  /\ callsign (move (move ac t1) t2) = callsign ac
  /\ conflict_alert (move (move ac t1) t2) = conflict_alert ac.
Proof.
  unfold update_position. cbn [x y z speed heading callsign conflict_alert].
  repeat split; ring.
Qed.

(** X2: [get_projected_position] is where [update_position] would put
    the aircraft, with the altitude it has; projecting by zero hours is
    the current position. *)
Theorem projection_matches_update (ac : Aircraft) (dt : Q) :
  project ac dt = (x (move ac dt), y (move ac dt), z ac)
  /\ (project ac 0).1.1 == x ac /\ (project ac 0).1.2 == y ac.
Proof.
  unfold get_projected_position, update_position. cbn [x y z fst snd].
  repeat split; ring.
Qed.
End MotionFacts.

(** ** Cost of a maneuver *)

(** X3: the cost of a maneuver is never negative, and it is zero only
    for the maneuver that changes nothing. *)
Theorem Maneuver_cost_nonneg (m : Maneuver) :
  0 <= Maneuver_cost m
  /\ (Maneuver_cost m == 0 <->
      heading_change m == 0 /\ altitude_change m == 0 /\ speed_change m == 0).
Proof.
  unfold Maneuver_cost.
  pose proof (Qabs_nonneg (heading_change m)) as Hh.
  pose proof (Qabs_nonneg (altitude_change m / 1000)) as Ha.
  pose proof (Qabs_nonneg (speed_change m / 50)) as Hs.
  split; [lra|]. split.
  - intros Hzero.
    assert (Hh0 : Qabs (heading_change m) == 0) by lra.
    assert (Ha0 : Qabs (altitude_change m / 1000) == 0) by lra.
    assert (Hs0 : Qabs (speed_change m / 50) == 0) by lra.
    revert Hh0 Ha0 Hs0. clear.
    generalize (heading_change m) (altitude_change m) (speed_change m). intros h a s.
    intros Hh0 Ha0 Hs0.
    assert (Hz : forall q, Qabs q == 0 -> q == 0).
    { intros q. apply Qabs_case; intros; lra. }
    apply Hz in Hh0, Ha0, Hs0. repeat split; [lra| |].
    + assert (a == a / 1000 * 1000) as -> by field. rewrite Ha0. ring.
    + assert (s == s / 50 * 50) as -> by field. rewrite Hs0. ring.
  - intros (Hh0 & Ha0 & Hs0). rewrite Hh0, Ha0, Hs0. reflexivity.
Qed.

(** The maneuvers of the catalogue cost 0.5 or 1. *)
Lemma options_cost (r : ConflictResolver) (m : Maneuver) :
  m ∈ MANEUVER_OPTIONS r -> Maneuver_cost m == 1 # 2 \/ Maneuver_cost m == 1.
Proof.
  unfold MANEUVER_OPTIONS. rewrite !elem_of_app, !list_elem_of_fmap.
  intros [(d & -> & Hd)|[(d & -> & Hd)|[(d & -> & Hd)|(d & -> & Hd)]]];
    repeat (apply elem_of_cons in Hd as [->|Hd]); try (by apply elem_of_nil in Hd);
    vm_compute; auto.
Qed.

(** ** The heuristic *)

(** Division by the two minima, written as multiplication. *)
Ltac no_div :=
  unfold Qdiv in *;
  change (/ 5) with (1 # 5) in *; change (/ 1000) with (1 # 1000) in *.

Section HeuristicFacts.
Variables math_sin math_cos math_radians math_sqrt : Q -> Q.

Local Abbreviation cpa := (_calculate_cpa math_sin math_cos math_radians math_sqrt).
Local Abbreviation heur := (_heuristic math_sin math_cos math_radians math_sqrt).
Local Abbreviation gen := (generated math_sin math_cos math_radians math_sqrt).
Local Abbreviation run := (a_star_run math_sin math_cos math_radians math_sqrt).
Local Abbreviation astar := (a_star_search math_sin math_cos math_radians math_sqrt).

(** The two shapes of what [_calculate_cpa] returns. *)
Lemma cpa_shape (r : ConflictResolver) (state : ConflictState) :
  let vsep := Qabs (kin_z (get_aircraft_data state (callsign (res_A r)))
                    - kin_z (get_aircraft_data state (callsign (res_B r)))) in
  (VERTICAL_MIN <= vsep /\ cpa r state = (Inf, vsep, 0))
  \/ (vsep < VERTICAL_MIN
      /\ exists d t, cpa r state = (Fin d, vsep, t)
                     /\ ((forall q, 0 <= math_sqrt q) -> 0 <= d)).
Proof.
  unfold _calculate_cpa, cpa_of.
  destruct (get_aircraft_data state (callsign (res_A r))) as [[[[ax ay] az] aspd] ahead].
  destruct (get_aircraft_data state (callsign (res_B r))) as [[[[bx by_] bz] bspd] bhead].
  cbn [kin_z fst snd].
  destruct (Qlt_le_dec (Qabs (az - bz)) VERTICAL_MIN) as [Hlt|Hge]; [right|by left].
  split; [done|].
  destruct (Qlt_le_dec _ (1 # 1000)); [by eauto|].
  eexists _, _. split; [reflexivity|]. intros Hsqrt.
  destruct (Qlt_le_dec (lookahead_hrs r) _); [|by destruct (Qlt_le_dec _ 0)].
  unfold py_min. destruct (Qlt_le_dec _ _); [done|by destruct (Qlt_le_dec _ 0)].
Qed.

Lemma heuristic_unsafe (r : ConflictResolver) (state : ConflictState) (d vsep t : Q) :
  cpa r state = (Fin d, vsep, t) -> vsep < VERTICAL_MIN ->
  heur r state ==
    (py_max 0 (HORIZONTAL_MIN - d) / HORIZONTAL_MIN
     + py_max 0 (VERTICAL_MIN - vsep) / VERTICAL_MIN) * 5.
Proof.
  intros Hcpa Hlt. unfold _heuristic. rewrite Hcpa. cbn [ext_geb ext_deficit].
  destruct (Qlt_le_dec vsep VERTICAL_MIN) as [_|Hge]; [|unfold VERTICAL_MIN in *; lra].
  rewrite andb_false_r. reflexivity.
Qed.

Lemma heuristic_of_states (r : ConflictResolver) (s s' : ConflictState) :
  aircraft_states s = aircraft_states s' -> heur r s = heur r s'.
Proof.
  intros Heq. unfold _heuristic, _calculate_cpa, get_aircraft_data. by rewrite Heq.
Qed.

(** The [h_cost] and [f_cost] stored in a generated state are the
    heuristic of the state and its sum with [g_cost]. *)
Lemma generated_costs (r : ConflictResolver) (s : ConflictState) :
  gen r s -> h_cost s = heur r s /\ f_cost s = g_cost s + h_cost s.
Proof.
  destruct 1 as [|n m s _ _ Hs].
  - split; [|done]. cbn [initial_state h_cost]. by apply heuristic_of_states.
  - unfold successor in Hs.
    destruct (dict_get _ _) as [[[[[x0 y0] z0] speed0] heading0]|]; [|done].
    injection Hs as <-. split; [|done]. cbn [h_cost]. by apply heuristic_of_states.
Qed.

Lemma heuristic_sign (r : ConflictResolver) (state : ConflictState) :
  0 <= heur r state
  /\ (heur r state == 0 <->
      VERTICAL_MIN <= Qabs (kin_z (get_aircraft_data state (callsign (res_A r)))
                            - kin_z (get_aircraft_data state (callsign (res_B r))))).
Proof.
  destruct (cpa_shape r state) as [[Hge Hcpa]|(Hlt & d & t & Hcpa & _)].
  - assert (Hzero : heur r state = 0).
    { unfold _heuristic. rewrite Hcpa. cbn [ext_geb andb].
      destruct (Qlt_le_dec _ _) as [Hlt|_]; [lra|reflexivity]. }
    rewrite Hzero. split; [lra|]. split; [done|reflexivity].
  - rewrite (heuristic_unsafe r state d _ t Hcpa Hlt).
    set (vs := Qabs _) in *.
    pose proof (py_max_lb_l 0 (HORIZONTAL_MIN - d)) as Hh.
    pose proof (py_max_lb_l 0 (VERTICAL_MIN - vs)) as Hv0.
    pose proof (py_max_lb_r 0 (VERTICAL_MIN - vs)) as Hv.
    unfold HORIZONTAL_MIN, VERTICAL_MIN in *.
    set (u := py_max 0 (5 - d)) in *. set (v := py_max 0 (1000 - vs)) in *.
    no_div. split; [lra|]. split; [lra|]. intros Hge. lra.
Qed.


(** X5: when [math.sqrt] returns no negative number, the heuristic is at
    most 10. *)
Theorem heuristic_at_most_ten (r : ConflictResolver) (state : ConflictState) :
  (forall q, 0 <= math_sqrt q) -> heur r state <= 10.
Proof.
  intros Hsqrt.
  destruct (cpa_shape r state) as [[Hge Hcpa]|(Hlt & d & t & Hcpa & Hd)].
  - unfold _heuristic. rewrite Hcpa. cbn [ext_geb andb].
    destruct (Qlt_le_dec _ _) as [Hlt|_]; [lra|lra].
  - rewrite (heuristic_unsafe r state d _ t Hcpa Hlt). specialize (Hd Hsqrt).
    pose proof (Qabs_nonneg (kin_z (get_aircraft_data state (callsign (res_A r)))
                            - kin_z (get_aircraft_data state (callsign (res_B r))))) as Habs.
    unfold HORIZONTAL_MIN, VERTICAL_MIN in *. unfold py_max.
    destruct (Qlt_le_dec 0 (5 - d)), (Qlt_le_dec 0 _); no_div; lra.
Qed.

Lemma path_cost_snoc (path : list Maneuver) (m : Maneuver) :
  path_cost (path ++ [m]) == path_cost path + Maneuver_cost m.
Proof.
  induction path as [|m' path IH]; simpl; [ring|]. rewrite IH. ring.
Qed.

(** X6: the [g_cost] of a generated state is the cost of the maneuvers
    on its path, and every maneuver on the path adds at least 0.5. *)
Theorem g_cost_is_path_cost (r : ConflictResolver) (s : ConflictState) :
  gen r s ->
  g_cost s == path_cost (reconstruct_path s)
  /\ inject_Z (Z.of_nat (length (reconstruct_path s))) * (1 # 2) <= g_cost s.
Proof.
  induction 1 as [|n m s _ [IHg IHlen] Hm Hs]; [by vm_compute|].
  apply successor_inv in Hs as (_ & _ & _ & _ & _ & _ & _ & Hg & Hp & Hmv).
  destruct s; simplify_eq/=. rewrite path_cost_snoc, length_app, Nat2Z.inj_add, inject_Z_plus.
  cbn [length]. change (inject_Z (Z.of_nat 1)) with 1.
  split; [by rewrite IHg|].
  destruct (options_cost r _ Hm) as [Hc|Hc]; rewrite Hc; lra.
Qed.

Lemma options_no_speed (r : ConflictResolver) (m : Maneuver) :
  m ∈ MANEUVER_OPTIONS r -> speed_change m = 0.
Proof.
  unfold MANEUVER_OPTIONS. rewrite !elem_of_app, !list_elem_of_fmap.
  intros [(d & -> & _)|[(d & -> & _)|[(d & -> & _)|(d & -> & _)]]]; reflexivity.
Qed.

Lemma returned_path_options (r : ConflictResolver) (path : list Maneuver) :
  astar r = Return (Some path) -> Forall (fun m => m ∈ MANEUVER_OPTIONS r) path.
Proof.
  unfold a_star_search. intros Hres.
  destruct (a_star_run_shape math_sin math_cos math_radians math_sqrt r) as (_ & _ & Hexit).
  rewrite Hres in Hexit. destruct Hexit as (node & Hgen & _ & ->).
  by apply (reconstruct_path_options math_sin math_cos math_radians math_sqrt).
Qed.

(** X7: a returned path is made of catalogue maneuvers only: each names
    one of the two aircraft and never changes a speed. *)
Theorem returned_path_from_catalogue (r : ConflictResolver) :
  match astar r with
  | Return (Some path) =>
      Forall (fun m => m ∈ MANEUVER_OPTIONS r
                       /\ (m_callsign m = callsign (res_A r)
                           \/ m_callsign m = callsign (res_B r))
                       /\ speed_change m = 0) path
  | _ => True
  end.
Proof.
  destruct (astar r) as [[path|]| |] eqn:Hres; try done.
  eapply Forall_impl; [by apply returned_path_options|].
  intros m Hm. split; [done|]. split; [by apply options_callsign|].
  by apply (options_no_speed r).
Qed.

(** X8: in exact arithmetic, two aircraft that share a callsign share
    one entry of the joint state, so no state is terminal: the search
    pops 1000 nodes and returns [None].  (On doubles the open list can
    run empty first, see [search_stops_on_empty_open_list].) *)
Theorem same_callsign_never_resolved (r : ConflictResolver) :
  callsign (res_A r) = callsign (res_B r) ->
  astar r = Return None /\ nodes_explored (run r).2 = 1000%nat.
Proof.
  intros Hsame. unfold a_star_search.
  destruct (a_star_run_shape math_sin math_cos math_radians math_sqrt r) as (_ & Hle & Hexit).
  destruct (run r) as [out st]. cbn [fst snd] in *.
  destruct out as [[path|]| |]; cbn [loop_post] in Hexit.
  - destruct Hexit as (node & Hgen & Hzero & _).
    apply generated_costs in Hgen as [Hh _]. rewrite Hh in Hzero.
    apply heuristic_sign in Hzero. rewrite Hsame in Hzero.
    assert (Hz : forall q, Qabs (q - q) == 0).
    { intros q. assert (q - q == 0) as -> by ring. reflexivity. }
    rewrite Hz in Hzero. unfold VERTICAL_MIN in Hzero. lra.
  - by destruct Hexit.
  - done.
  - destruct Hexit as [Hn _].
    change (nodes_explored (search_start _ _ _ _ r)) with 0%nat in Hn. lia.
Qed.
End HeuristicFacts.

(** ** The pass, pair by pair *)

Section PassFacts.
Variables math_sin math_cos math_radians math_sqrt : Q -> Q.

Local Abbreviation astar := (a_star_search math_sin math_cos math_radians math_sqrt).
Local Abbreviation pair_step := (scan_pair math_sin math_cos math_radians math_sqrt).
Local Abbreviation pass := (scan_pairs math_sin math_cos math_radians math_sqrt).
Local Abbreviation check := (check_for_conflicts math_sin math_cos math_radians math_sqrt).

Lemma a_star_returns (r : ConflictResolver) : exists res, astar r = Return res.
Proof.
  unfold a_star_search.
  destruct (a_star_run_shape math_sin math_cos math_radians math_sqrt r) as (_ & Hle & Hexit).
  destruct (a_star_run _ _ _ _ r) as [out st]. cbn [fst snd] in *.
  destruct out as [res| |]; cbn [loop_post] in Hexit; [by eexists|done|].
  destruct Hexit as [Hn _].
  change (nodes_explored (search_start _ _ _ _ r)) with 0%nat in Hn. lia.
Qed.

(** The three ways the body of the double loop can leave the state. *)
Lemma scan_pair_cases (horizon : Q) (st : Scan) (i j : nat) (a b : Aircraft) :
  sc_aircraft st !! i = Some a -> sc_aircraft st !! j = Some b ->
  pair_step horizon st (i, j) = Return st
  \/ (exists t d v status,
        (status = NO_RES_ATTEMPTED \/ status = FAILED)
        /\ pair_step horizon st (i, j) =
           Return (mkScan (alert_pair i j (sc_aircraft st)) (sc_resolved st)
                     (sc_conflicts st ++ [mkReport (callsign a) (callsign b) t d v status])))
  \/ (exists m path t d v,
        astar (mkResolver a b horizon) = Return (Some (m :: path))
        /\ pair_step horizon st (i, j) =
           Return (mkScan (sc_aircraft st) (foldl enqueue (sc_resolved st) (m :: path))
                     (sc_conflicts st ++
                        [mkReport (callsign a) (callsign b) t d v
                           (RESOLVED (length (m :: path)))]))).
Proof.
  intros Ha Hb. unfold scan_pair. cbn [fst snd]. rewrite Ha, Hb.
  destruct (decide _); [by left|].
  destruct (Qlt_le_dec _ VERTICAL_MIN); [|by left].
  destruct (Qlt_le_dec _ (1 # 1000)).
  { destruct (Qlt_le_dec _ HORIZONTAL_MIN); [|by left].
    right; left. eexists _, _, _, _. split; [by left|done]. }
  destruct (_ && _); [|by left].
  destruct (Qlt_le_dec _ HORIZONTAL_MIN); [|by left].
  destruct (a_star_returns (mkResolver a b horizon)) as [[[|m path]|] Hres]; rewrite Hres.
  - right; left. eexists _, _, _, _. split; [by right|done].
  - right; right. by eexists _, _, _, _, _.
  - right; left. eexists _, _, _, _. split; [by right|done].
Qed.

Lemma alert_pair_length (i j : nat) (l : list Aircraft) :
  length (alert_pair i j l) = length l.
Proof. unfold alert_pair. by rewrite !length_alter. Qed.

Lemma alert_pair_lookup (i j k : nat) (l : list Aircraft) (ac : Aircraft) :
  alert_pair i j l !! k = Some ac ->
  exists ac0, l !! k = Some ac0
    /\ (ac = ac0 \/ ((k = i \/ k = j) /\ ac = set_alert true ac0)).
Proof.
  unfold alert_pair. intros Hk.
  destruct (decide (k = j)) as [->|Hj].
  - rewrite list_lookup_alter_eq in Hk.
    destruct (decide (j = i)) as [->|Hi].
    + rewrite list_lookup_alter_eq in Hk. destruct (l !! i) as [ac0|]; simplify_eq/=.
      exists ac0. split; [done|]. right. split; [by left|]. destruct ac0; reflexivity.
    + rewrite list_lookup_alter_ne in Hk by done.
      destruct (l !! j) as [ac0|]; simplify_eq/=. exists ac0. split; [done|]. right. eauto.
  - rewrite list_lookup_alter_ne in Hk by done.
    destruct (decide (k = i)) as [->|Hi].
    + rewrite list_lookup_alter_eq in Hk. destruct (l !! i) as [ac0|]; simplify_eq/=.
      exists ac0. split; [done|]. right. eauto.
    + rewrite list_lookup_alter_ne in Hk by done. eauto.
Qed.

Lemma fmap_alter_absorb {A B : Type} (g : A -> B) (f : A -> A) (i : nat) (l : list A) :
  (forall a, g (f a) = g a) -> g <$> alter f i l = g <$> l.
Proof.
  intros Hgf. revert i. induction l as [|a l IH]; intros [|i]; simpl; [done..| |].
  - by rewrite Hgf.
  - f_equal. apply IH.
Qed.

Lemma alert_pair_same_fleet (i j : nat) (l : list Aircraft) :
  set_alert false <$> alert_pair i j l = set_alert false <$> l.
Proof. unfold alert_pair. by rewrite !fmap_alter_absorb. Qed.

(** An invariant of the state that every pair keeps holds at the end of
    the pass, and the pass does not raise. *)
Lemma scan_pairs_invariant (I : Scan -> Prop) (horizon : Q) (n : nat)
    (pairs : list (nat * nat)) (st : Scan) :
  Forall (fun ij => (ij.1 < ij.2)%nat /\ (ij.2 < n)%nat) pairs ->
  length (sc_aircraft st) = n ->
  I st ->
  (forall st i j a b st',
     (i < j)%nat ->
     I st -> sc_aircraft st !! i = Some a -> sc_aircraft st !! j = Some b ->
     pair_step horizon st (i, j) = Return st' -> I st') ->
  exists st', pass horizon st pairs = Return st' /\ I st' /\ length (sc_aircraft st') = n.
Proof.
  intros Hpairs Hlen HI Hstep. revert st Hlen HI.
  induction Hpairs as [|[i j] pairs [Hi Hj] _ IH]; intros st Hlen HI; cbn [scan_pairs].
  { by exists st. }
  cbn [fst snd] in Hi, Hj.
  destruct (lookup_lt_is_Some_2 (sc_aircraft st) i ltac:(lia)) as [a Ha].
  destruct (lookup_lt_is_Some_2 (sc_aircraft st) j ltac:(lia)) as [b Hb].
  assert (Hrun : exists st1, pair_step horizon st (i, j) = Return st1
                             /\ length (sc_aircraft st1) = n).
  { destruct (scan_pair_cases horizon st i j a b Ha Hb)
      as [Hsame|[(t & d & v & status & _ & Halert)|(m & path & t & d & v & _ & Hres)]];
      eexists; (split; [eassumption|]); cbn [sc_aircraft];
      by rewrite ?alert_pair_length. }
  destruct Hrun as (st1 & Hst1 & Hlen1). rewrite Hst1.
  apply IH; [done|]. exact (Hstep st i j a b st1 Hi HI Ha Hb Hst1).
Qed.

Lemma index_pairs_in_range (n : nat) :
  Forall (fun ij => (ij.1 < ij.2)%nat /\ (ij.2 < n)%nat) (index_pairs n).
Proof.
  unfold index_pairs. apply Forall_forall. intros [i j] Hin.
  apply list_elem_of_In, in_flat_map in Hin as (i' & Hi' & Hin).
  apply in_map_iff in Hin as (j' & [= <- <-] & Hj').
  apply in_seq in Hi', Hj'. cbn [fst snd]. lia.
Qed.
End PassFacts.

Section CheckFacts.
Variables math_sin math_cos math_radians math_sqrt : Q -> Q.

Local Abbreviation astar := (a_star_search math_sin math_cos math_radians math_sqrt).
Local Abbreviation pair_step := (scan_pair math_sin math_cos math_radians math_sqrt).
Local Abbreviation pass := (scan_pairs math_sin math_cos math_radians math_sqrt).
Local Abbreviation check := (check_for_conflicts math_sin math_cos math_radians math_sqrt).

(** The pass of [check_for_conflicts] ends, and an invariant that the
    cleared state has and every pair keeps holds of what it returns. *)
Lemma check_invariant (I : Scan -> Prop) (c : ATC_Controller) :
  I (clear_pass c) ->
  (forall st i j a b st',
     (i < j)%nat ->
     I st -> sc_aircraft st !! i = Some a -> sc_aircraft st !! j = Some b ->
     pair_step (lookahead_time_hrs c) st (i, j) = Return st' -> I st') ->
  exists st, check c = Return (mkController (sc_aircraft st) (lookahead_time_min c)
                                 (lookahead_time_hrs c) (sc_resolved st),
                               sc_conflicts st)
             /\ I st.
Proof.
  intros Hinit Hstep. unfold check_for_conflicts.
  destruct (scan_pairs_invariant math_sin math_cos math_radians math_sqrt I
              (lookahead_time_hrs c) (length (aircraft_list c))
              (index_pairs (length (aircraft_list c))) (clear_pass c))
    as (st & -> & HI & _); [| |done|done|by exists st].
  - apply index_pairs_in_range.
  - unfold clear_pass. cbn [sc_aircraft]. by rewrite length_map.
Qed.

(** What a pair can have done when its step returned [st']. *)
Lemma scan_pair_result (horizon : Q) (st st' : Scan) (i j : nat) (a b : Aircraft) :
  sc_aircraft st !! i = Some a -> sc_aircraft st !! j = Some b ->
  pair_step horizon st (i, j) = Return st' ->
  st' = st
  \/ (exists t d v status,
        (status = NO_RES_ATTEMPTED \/ status = FAILED)
        /\ st' = mkScan (alert_pair i j (sc_aircraft st)) (sc_resolved st)
                   (sc_conflicts st ++ [mkReport (callsign a) (callsign b) t d v status]))
  \/ (exists m path t d v,
        astar (mkResolver a b horizon) = Return (Some (m :: path))
        /\ st' = mkScan (sc_aircraft st) (foldl enqueue (sc_resolved st) (m :: path))
                   (sc_conflicts st ++
                      [mkReport (callsign a) (callsign b) t d v
                         (RESOLVED (length (m :: path)))])).
Proof.
  intros Ha Hb Hstep.
  destruct (scan_pair_cases math_sin math_cos math_radians math_sqrt horizon st i j a b Ha Hb)
    as [Hsame|[(t & d & v & status & Hstatus & Halert)|(m & path & t & d & v & Hsearch & Hres)]].
  - left. congruence.
  - right; left. exists t, d, v, status. split; [done|congruence].
  - right; right. exists m, path, t, d, v. split; [done|congruence].
Qed.

Lemma check_keeps_fleet_lemma (c : ATC_Controller) :
  exists c' reports,
    check c = Return (c', reports)
    /\ set_alert false <$> aircraft_list c' = set_alert false <$> aircraft_list c
    /\ lookahead_time_min c' = lookahead_time_min c
    /\ lookahead_time_hrs c' = lookahead_time_hrs c.
Proof.
  destruct (check_invariant
              (fun st => set_alert false <$> sc_aircraft st
                         = set_alert false <$> aircraft_list c) c)
    as (st & Hcheck & HI).
  - unfold clear_pass. cbn [sc_aircraft]. rewrite <- list_fmap_compose.
    apply list_fmap_ext. by intros k ac _.
  - intros st i j a b st' _ HI Ha Hb Hstep.
    destruct (scan_pair_result _ _ _ _ _ _ _ Ha Hb Hstep)
      as [->|[(t & d & v & status & _ & ->)|(m & path & t & d & v & _ & ->)]];
      cbn [sc_aircraft]; by rewrite ?alert_pair_same_fleet.
  - eexists _, _. split; [exact Hcheck|]. by cbn.
Qed.

(** X9: in exact arithmetic, where no square overflows,
    [check_for_conflicts] always returns: its index accesses are in range
    and its searches end.  It changes nothing of an aircraft but its
    alert: callsigns, positions, altitudes, speeds and headings come back
    as they were, in the same order. *)
Theorem check_keeps_fleet (c : ATC_Controller) :
  exists c' reports,
    check c = Return (c', reports)
    /\ set_alert false <$> aircraft_list c' = set_alert false <$> aircraft_list c
    /\ lookahead_time_min c' = lookahead_time_min c
    /\ lookahead_time_hrs c' = lookahead_time_hrs c.
Proof. apply check_keeps_fleet_lemma. Qed.

Lemma enqueue_ok (q : gmap string (list Maneuver)) (m : Maneuver) :
  queues_ok q -> speed_change m = 0 -> queues_ok (enqueue q m).
Proof.
  intros Hq Hm cs l. unfold enqueue.
  destruct (decide (m_callsign m = cs)) as [<-|Hne].
  - rewrite lookup_insert_eq. intros [= <-]. split; [by destruct (default _ _)|].
    apply Forall_app. split; [|by repeat constructor].
    destruct (q !! m_callsign m) as [l|] eqn:Hl; [|by constructor].
    by apply (Hq _ _ Hl).
  - rewrite lookup_insert_ne by done. apply Hq.
Qed.

Lemma foldl_enqueue_ok (q : gmap string (list Maneuver)) (path : list Maneuver) :
  queues_ok q -> Forall (fun m => speed_change m = 0) path ->
  queues_ok (foldl enqueue q path).
Proof.
  intros Hq Hpath. revert q Hq.
  induction Hpath as [|m path Hm _ IH]; intros q Hq; [done|].
  cbn [foldl]. apply IH. by apply enqueue_ok.
Qed.

(** X10: after [check_for_conflicts] no queue is empty, and a queue
    holds only maneuvers addressed to the callsign it is stored under,
    none of which changes a speed. *)
Theorem check_leaves_proper_queues (c : ATC_Controller) :
  match check c with
  | Return (c', _) => queues_ok (resolved_maneuvers c')
  | _ => False
  end.
Proof.
  destruct (check_invariant (fun st => queues_ok (sc_resolved st)) c)
    as (st & -> & HI); [| |done].
  - intros cs l. unfold clear_pass. cbn [sc_resolved]. by rewrite lookup_empty.
  - intros st i j a b st' _ HI Ha Hb Hstep.
    destruct (scan_pair_result _ _ _ _ _ _ _ Ha Hb Hstep)
      as [->|[(t & d & v & status & _ & ->)|(m & path & t & d & v & Hsearch & ->)]];
      cbn [sc_resolved]; [done|done|].
    apply (foldl_enqueue_ok _ (m :: path)); [done|].
    eapply Forall_impl;
      [by apply (returned_path_options math_sin math_cos math_radians math_sqrt _ _ Hsearch)|].
    intros m'. apply options_no_speed.
Qed.

(** X11: after [check_for_conflicts] an aircraft carries an alert only
    if a line of the returned report names it with status
    NO_RES_ATTEMPTED or FAILED; a resolved conflict raises no alert. *)
Theorem check_alerts_unresolved_only (c : ATC_Controller) :
  match check c with
  | Return (c', reports) =>
      forall k ac, aircraft_list c' !! k = Some ac -> conflict_alert ac = true ->
        exists rep, rep ∈ reports
          /\ mentions (callsign ac) rep = true
          /\ (rep_status rep = NO_RES_ATTEMPTED \/ rep_status rep = FAILED)
  | _ => False
  end.
Proof.
  destruct (check_invariant alerts_backed c) as (st & -> & HI); [| |exact HI].
  - intros k ac. unfold clear_pass. cbn [sc_aircraft].
    rewrite list_lookup_fmap. destruct (aircraft_list c !! k); [|done].
    by intros [= <-].
  - intros st i j a b st' _ HI Ha Hb Hstep.
    destruct (scan_pair_result _ _ _ _ _ _ _ Ha Hb Hstep)
      as [->|[(t & d & v & status & Hstatus & ->)|(m & path & t & d & v & _ & ->)]];
      [done| |].
    + intros k ac Hk Halert. cbn [sc_aircraft sc_conflicts] in *.
      apply alert_pair_lookup in Hk as (ac0 & Hk0 & [->|[Hij ->]]).
      * destruct (HI k ac0 Hk0 Halert) as (rep & Hrep & Hm & Hs).
        exists rep. split; [|done]. apply elem_of_app. by left.
      * eexists. split; [apply elem_of_app; right; apply list_elem_of_here|].
        cbn [rep_status]. split; [|by destruct Hstatus; auto].
        unfold mentions. cbn [rep_a rep_b callsign set_alert].
        destruct Hij as [->| ->]; simplify_eq.
        -- by rewrite bool_decide_eq_true_2.
        -- rewrite (bool_decide_eq_true_2 (callsign b = callsign b)) by done.
           apply orb_true_r.
    + intros k ac Hk Halert. cbn [sc_aircraft sc_conflicts] in *.
      destruct (HI k ac Hk Halert) as (rep & Hrep & Hm & Hs).
      exists rep. split; [|done]. apply elem_of_app. by left.
Qed.

(** X12: when the altitudes of every two aircraft differ by at least
    1000, the pass reports nothing, queues nothing and raises no alert. *)
Theorem separated_fleet_is_quiet (c : ATC_Controller) :
  (forall i j a b, (i < j)%nat ->
     aircraft_list c !! i = Some a -> aircraft_list c !! j = Some b ->
     VERTICAL_MIN <= Qabs (z a - z b)) ->
  check c = Return (mkController (set_alert false <$> aircraft_list c)
                      (lookahead_time_min c) (lookahead_time_hrs c) ∅, []).
Proof.
  intros Hsafe. unfold check_for_conflicts.
  assert (Hpass : forall pairs,
            Forall (fun ij => (ij.1 < ij.2)%nat /\ (ij.2 < length (aircraft_list c))%nat) pairs ->
            pass (lookahead_time_hrs c) (clear_pass c) pairs = Return (clear_pass c)).
  { induction 1 as [|[i j] pairs [Hij Hj] _ IH]; [done|]. cbn [scan_pairs fst snd] in *.
    destruct (lookup_lt_is_Some_2 (aircraft_list c) i ltac:(lia)) as [a Ha].
    destruct (lookup_lt_is_Some_2 (aircraft_list c) j ltac:(lia)) as [b Hb].
    assert (Hstep : pair_step (lookahead_time_hrs c) (clear_pass c) (i, j)
                    = Return (clear_pass c)).
    { unfold scan_pair, clear_pass. cbn [sc_aircraft sc_resolved fst snd].
      rewrite !list_lookup_fmap, Ha, Hb. cbn [fmap option_fmap option_map].
      destruct (decide _) as [_|_]; [done|].
      cbn [z set_alert]. specialize (Hsafe i j a b Hij Ha Hb).
      destruct (Qlt_le_dec _ _); [lra|done]. }
    by rewrite Hstep. }
  rewrite Hpass by apply index_pairs_in_range. done.
Qed.
End CheckFacts.

(** ** Applying the queues *)

Lemma serve_aircraft (done : list Aircraft) (q : gmap string (list Maneuver))
    (ac : Aircraft) :
  (serve (done, q) ac).1 = done ++ [served_aircraft q ac].
Proof.
  unfold serve, served_aircraft. cbn [fst snd].
  by destruct (q !! callsign ac) as [[|m l]|].
Qed.

Lemma serve_queue (done : list Aircraft) (q : gmap string (list Maneuver))
    (ac : Aircraft) (cs : string) :
  (serve (done, q) ac).2 !! cs
  = if decide (cs = callsign ac) then queue_tail (q !! cs) else q !! cs.
Proof.
  unfold serve, queue_tail. cbn [fst snd].
  destruct (decide (cs = callsign ac)) as [->|Hne].
  - destruct (q !! callsign ac) as [[|m [|m' l]]|] eqn:Hq; cbn [snd]; try done.
    + apply lookup_delete_eq.
    + apply lookup_insert_eq.
  - destruct (q !! callsign ac) as [[|m [|m' l]]|] eqn:Hq; cbn [snd]; try done.
    + by apply lookup_delete_ne.
    + by apply lookup_insert_ne.
Qed.

Lemma foldl_serve (done : list Aircraft) (q : gmap string (list Maneuver))
    (l : list Aircraft) :
  NoDup (callsign <$> l) ->
  (foldl serve (done, q) l).1 = done ++ (served_aircraft q <$> l)
  /\ forall cs, (foldl serve (done, q) l).2 !! cs
                = if decide (cs ∈ callsign <$> l) then queue_tail (q !! cs) else q !! cs.
Proof.
  revert done q. induction l as [|ac l IH]; intros done q Hnd; cbn [foldl].
  { split; [by rewrite app_nil_r|]. intros cs. by rewrite decide_False by apply not_elem_of_nil. }
  rewrite fmap_cons in Hnd. apply NoDup_cons in Hnd as [Hfresh Hnd].
  destruct (serve (done, q) ac) as [done1 q1] eqn:Hserve.
  pose proof (serve_aircraft done q ac) as Hd. pose proof (serve_queue done q ac) as Hq.
  rewrite Hserve in Hd, Hq. cbn [fst snd] in Hd, Hq. subst done1.
  destruct (IH (done ++ [served_aircraft q ac]) q1 Hnd) as [IHl IHq]. split.
  - rewrite IHl, <- app_assoc. cbn [app fmap list_fmap]. do 2 f_equal.
    apply list_fmap_ext. intros k ac' Hk. unfold served_aircraft.
    rewrite Hq. rewrite decide_False; [done|].
    intros Heq. apply Hfresh. rewrite <- Heq. apply list_elem_of_fmap.
    exists ac'. split; [done|]. by eapply list_elem_of_lookup_2.
  - intros cs. rewrite IHq, Hq, fmap_cons.
    destruct (decide (cs = callsign ac)) as [->|Hne].
    + rewrite decide_False by done. rewrite decide_True by apply list_elem_of_here. done.
    + destruct (decide (cs ∈ callsign <$> l)) as [Hin|Hout].
      * rewrite decide_True by (by apply list_elem_of_further). done.
      * rewrite decide_False; [done|]. intros [?|?]%elem_of_cons; done.
Qed.

(** X13: with every callsign in the list once, [apply_resolved_maneuvers]
    gives each aircraft that has a non-empty queue the first maneuver of
    that queue and leaves the others alone; a queue of a listed aircraft
    loses its first maneuver and is deleted when that was its last;
    queues stored under other callsigns stay. *)
Theorem apply_resolved_one_each (c : ATC_Controller) :
  NoDup (callsign <$> aircraft_list c) ->
  aircraft_list (apply_resolved_maneuvers c)
  = served_aircraft (resolved_maneuvers c) <$> aircraft_list c
  /\ forall cs, resolved_maneuvers (apply_resolved_maneuvers c) !! cs
                = if decide (cs ∈ callsign <$> aircraft_list c)
                  then queue_tail (resolved_maneuvers c !! cs)
                  else resolved_maneuvers c !! cs.
Proof.
  intros Hnd. unfold apply_resolved_maneuvers. cbn [aircraft_list resolved_maneuvers].
  by destruct (foldl_serve [] (resolved_maneuvers c) (aircraft_list c) Hnd) as [-> Hq].
Qed.

Lemma serve_ok (acc : list Aircraft * gmap string (list Maneuver)) (ac : Aircraft) :
  queues_ok acc.2 -> queues_ok (serve acc ac).2.
Proof.
  intros Hq cs l. destruct acc as [done q]. rewrite serve_queue.
  destruct (decide (cs = callsign ac)) as [->|Hne]; [|apply Hq].
  cbn [snd] in *. destruct (q !! callsign ac) as [[|m [|m' rest]]|] eqn:Hl; cbn [queue_tail];
    try done.
  - intros [= <-]. by apply (Hq _ _ Hl).
  - intros [= <-]. destruct (Hq _ _ Hl) as [_ Hall]. apply Forall_cons in Hall as [_ Hall].
    done.
Qed.

(** X14: [apply_resolved_maneuvers] keeps the queues proper: if no queue
    was empty and each held maneuvers for its own callsign, that is so
    afterwards; a queue that runs empty is removed, not left empty. *)
Theorem apply_resolved_keeps_queues (c : ATC_Controller) :
  queues_ok (resolved_maneuvers c) ->
  queues_ok (resolved_maneuvers (apply_resolved_maneuvers c)).
Proof.
  intros Hq. unfold apply_resolved_maneuvers. cbn [resolved_maneuvers].
  assert (Hfold : forall l acc, queues_ok acc.2 -> queues_ok (foldl serve acc l).2).
  { induction l as [|ac l IH]; intros acc Hacc; [done|]. cbn [foldl].
    apply IH. by apply serve_ok. }
  by apply Hfold.
Qed.

Lemma served_same_place (q : gmap string (list Maneuver)) (ac : Aircraft) :
  callsign (served_aircraft q ac) = callsign ac
  /\ x (served_aircraft q ac) = x ac /\ y (served_aircraft q ac) = y ac
  /\ conflict_alert (served_aircraft q ac) = conflict_alert ac.
Proof. unfold served_aircraft. by destruct (q !! callsign ac) as [[|m l]|]. Qed.

Lemma foldl_serve_callsigns (l : list Aircraft)
    (acc : list Aircraft * gmap string (list Maneuver)) :
  callsign <$> (foldl serve acc l).1 = (callsign <$> acc.1) ++ (callsign <$> l).
Proof.
  revert acc. induction l as [|ac l IH]; intros [done q]; cbn [foldl fst].
  { by rewrite app_nil_r. }
  rewrite IH, serve_aircraft, fmap_app, <- app_assoc. cbn [fmap list_fmap app].
  by destruct (served_same_place q ac) as [-> _].
Qed.

Section TickFacts.
Variables math_sin math_cos math_radians math_sqrt : Q -> Q.

Local Abbreviation tick := (sim_step math_sin math_cos math_radians math_sqrt).

(** X15: in exact arithmetic a tick always completes: the pass returns
    a controller and a report, and the tick returns that very report, the
    clock moved on by five seconds, and the controller the pass left with
    its queues served and its aircraft moved: the same callsigns in the
    same order as before the tick, the same lookahead. *)
Theorem sim_step_completes (c : ATC_Controller) (now : Z) :
  exists c1 reports c',
    check_for_conflicts math_sin math_cos math_radians math_sqrt c = Return (c1, reports)
    /\ tick c now = Return (c', reports, (now + 5)%Z)
    /\ aircraft_list c'
       = (fun ac => update_position math_sin math_cos math_radians ac TIME_STEP_HOURS)
           <$> aircraft_list (apply_resolved_maneuvers c1)
    /\ resolved_maneuvers c' = resolved_maneuvers (apply_resolved_maneuvers c1)
    /\ callsign <$> aircraft_list c' = callsign <$> aircraft_list c
    /\ lookahead_time_hrs c' = lookahead_time_hrs c.
Proof.
  destruct (check_keeps_fleet_lemma math_sin math_cos math_radians math_sqrt c)
    as (c1 & reports & Hcheck & Hfleet & _ & Hhrs).
  unfold sim_step. rewrite Hcheck. eexists c1, reports, _.
  split; [reflexivity|]. split; [reflexivity|].
  split; [reflexivity|]. split; [reflexivity|].
  cbn [aircraft_list lookahead_time_hrs apply_resolved_maneuvers]. split; [|done].
  rewrite <- list_fmap_compose.
  rewrite (list_fmap_ext _ callsign _ (fun _ ac _ => eq_refl)).
  rewrite foldl_serve_callsigns. cbn [fst fmap list_fmap app].
  assert (Hcs : forall l : list Aircraft, callsign <$> l = callsign <$> (set_alert false <$> l)).
  { intros l. rewrite <- list_fmap_compose. by apply list_fmap_ext. }
  by rewrite (Hcs (aircraft_list c1)), Hfleet, <- Hcs.
Qed.
End TickFacts.

(** ** The earlier detector *)

Section DetectorFacts.
Variables math_sin math_cos math_radians math_sqrt : Q -> Q.

Local Abbreviation astar := (a_star_search math_sin math_cos math_radians math_sqrt).
Local Abbreviation pair_step := (scan_pair math_sin math_cos math_radians math_sqrt).
Local Abbreviation pass := (scan_pairs math_sin math_cos math_radians math_sqrt).
Local Abbreviation check := (check_for_conflicts math_sin math_cos math_radians math_sqrt).
Local Abbreviation old_step := (detect_pair math_sin math_cos math_radians math_sqrt).
Local Abbreviation old_pass := (detect_pairs math_sin math_cos math_radians math_sqrt).
Local Abbreviation detect := (detect_conflicts math_sin math_cos math_radians math_sqrt).

(** The two ways the body of the earlier loop can leave the state. *)
Lemma detect_pair_cases (horizon : Q) (st : list Aircraft * list plain_report)
    (i j : nat) (a b : Aircraft) :
  st.1 !! i = Some a -> st.1 !! j = Some b ->
  old_step horizon st (i, j) = Return st
  \/ exists t d v,
       old_step horizon st (i, j)
       = Return (alert_pair i j st.1, st.2 ++ [mkPlain (callsign a) (callsign b) t d v]).
Proof.
  intros Ha Hb. unfold detect_pair. cbn [fst snd]. rewrite Ha, Hb.
  destruct (Qlt_le_dec _ VERTICAL_MIN); [|by left].
  destruct (Qlt_le_dec _ (1 # 1000)).
  { destruct (Qlt_le_dec _ HORIZONTAL_MIN); [|by left]. right. by eexists _, _, _. }
  destruct (_ && _); [|by left].
  destruct (Qlt_le_dec _ HORIZONTAL_MIN); [|by left]. right. by eexists _, _, _.
Qed.

Lemma same_kinematics (a a' : Aircraft) :
  set_alert false a = set_alert false a' ->
  callsign a = callsign a' /\ x a = x a' /\ y a = y a' /\ z a = z a'
  /\ speed a = speed a' /\ heading a = heading a'.
Proof. destruct a, a'. unfold set_alert. cbn. by intros [= -> -> -> -> -> ->]. Qed.

(** One pair, in the new pass and in the earlier one, on fleets that
    differ in alerts only: both return, the fleets still differ in alerts
    only, and what the new pass reports the earlier one reports too. *)
Lemma pair_within_detect (horizon : Q) (st : Scan) (ost : list Aircraft * list plain_report)
    (i j : nat) :
  (i < length (sc_aircraft st))%nat -> (j < length (sc_aircraft st))%nat ->
  set_alert false <$> sc_aircraft st = set_alert false <$> ost.1 ->
  exists st' ost' new onew,
    pair_step horizon st (i, j) = Return st'
    /\ old_step horizon ost (i, j) = Return ost'
    /\ set_alert false <$> sc_aircraft st' = set_alert false <$> ost'.1
    /\ length (sc_aircraft st') = length (sc_aircraft st)
    /\ sc_conflicts st' = sc_conflicts st ++ new
    /\ ost'.2 = ost.2 ++ onew
    /\ sublist (plain_of <$> new) onew.
Proof.
  intros Hi Hj Hfleet.
  destruct (lookup_lt_is_Some_2 (sc_aircraft st) i Hi) as [a Ha].
  destruct (lookup_lt_is_Some_2 (sc_aircraft st) j Hj) as [b Hb].
  assert (Hlook : forall k ac, sc_aircraft st !! k = Some ac ->
            exists ac', ost.1 !! k = Some ac' /\ set_alert false ac = set_alert false ac').
  { intros k ac Hk.
    assert (Hk' : (set_alert false <$> ost.1) !! k = Some (set_alert false ac))
      by (by rewrite <- Hfleet, list_lookup_fmap, Hk).
    rewrite list_lookup_fmap in Hk'. destruct (ost.1 !! k) as [ac'|]; [|done].
    change (Some (set_alert false ac') = Some (set_alert false ac)) in Hk'.
    assert (Heq : set_alert false ac' = set_alert false ac) by congruence.
    exists ac'. by split. }
  destruct (Hlook i a Ha) as (a' & Ha' & Haa). destruct (Hlook j b Hb) as (b' & Hb' & Hbb).
  apply same_kinematics in Haa as (Hca & Hxa & Hya & Hza & Hsa & Hha).
  apply same_kinematics in Hbb as (Hcb & Hxb & Hyb & Hzb & Hsb & Hhb).
  assert (Hquiet : forall onew ol,
            set_alert false <$> ol = set_alert false <$> ost.1 ->
            pair_step horizon st (i, j) = Return st ->
            old_step horizon ost (i, j) = Return (ol, ost.2 ++ onew) ->
            exists st' ost' new onew,
              pair_step horizon st (i, j) = Return st'
              /\ old_step horizon ost (i, j) = Return ost'
              /\ set_alert false <$> sc_aircraft st' = set_alert false <$> ost'.1
              /\ length (sc_aircraft st') = length (sc_aircraft st)
              /\ sc_conflicts st' = sc_conflicts st ++ new
              /\ ost'.2 = ost.2 ++ onew
              /\ sublist (plain_of <$> new) onew).
  { intros onew ol Hol Hnew Hold. exists st, (ol, ost.2 ++ onew), [], onew.
    repeat split; cbn [fst snd];
      [done|done|by rewrite Hfleet, Hol|by rewrite app_nil_r|apply sublist_nil_l]. }
  assert (Hquiet0 : pair_step horizon st (i, j) = Return st ->
            old_step horizon ost (i, j) = Return ost ->
            exists st' ost' new onew,
              pair_step horizon st (i, j) = Return st'
              /\ old_step horizon ost (i, j) = Return ost'
              /\ set_alert false <$> sc_aircraft st' = set_alert false <$> ost'.1
              /\ length (sc_aircraft st') = length (sc_aircraft st)
              /\ sc_conflicts st' = sc_conflicts st ++ new
              /\ ost'.2 = ost.2 ++ onew
              /\ sublist (plain_of <$> new) onew).
  { intros Hnew Hold. apply (Hquiet [] ost.1); [done|done|].
    rewrite app_nil_r. by destruct ost. }
  destruct (decide (is_Some (sc_resolved st !! callsign a)
                    \/ is_Some (sc_resolved st !! callsign b))) as [Hskip|Hfree].
  { pose proof (scan_pair_skips math_sin math_cos math_radians math_sqrt
                  horizon st i j a b Ha Hb Hskip) as Hnew.
    destruct (detect_pair_cases horizon ost i j a' b' Ha' Hb') as [Hold|(t & d & v & Hold)].
    - by apply Hquiet0.
    - eapply Hquiet; [|done|exact Hold]. apply alert_pair_same_fleet. }
  unfold scan_pair, detect_pair in *. cbn [fst snd] in *.
  rewrite Ha, Hb, Ha', Hb' in *. rewrite decide_False in * by done.
  rewrite <- Hca, <- Hxa, <- Hya, <- Hza, <- Hsa, <- Hha,
          <- Hcb, <- Hxb, <- Hyb, <- Hzb, <- Hsb, <- Hhb in *.
  destruct (Qlt_le_dec _ VERTICAL_MIN); [|by apply Hquiet0].
  destruct (Qlt_le_dec _ (1 # 1000)).
  { destruct (Qlt_le_dec _ HORIZONTAL_MIN); [|by apply Hquiet0].
    eexists _, _, [_], [_]. repeat split; cbn [sc_aircraft sc_conflicts fst snd].
    - by rewrite !alert_pair_same_fleet.
    - apply alert_pair_length.
    - done. }
  destruct (_ && _); [|by apply Hquiet0].
  destruct (Qlt_le_dec _ HORIZONTAL_MIN); [|by apply Hquiet0].
  destruct (a_star_returns math_sin math_cos math_radians math_sqrt (mkResolver a b horizon))
    as [[[|m path]|] ->].
  - eexists _, _, [_], [_]. repeat split; cbn [sc_aircraft sc_conflicts fst snd].
    + by rewrite !alert_pair_same_fleet.
    + apply alert_pair_length.
    + done.
  - eexists _, _, [_], [_]. repeat split; cbn [sc_aircraft sc_conflicts fst snd].
    + by rewrite !alert_pair_same_fleet.
    + done.
  - eexists _, _, [_], [_]. repeat split; cbn [sc_aircraft sc_conflicts fst snd].
    + by rewrite !alert_pair_same_fleet.
    + apply alert_pair_length.
    + done.
Qed.

Lemma pass_within_detect (horizon : Q) (n : nat) (pairs : list (nat * nat))
    (st : Scan) (ost : list Aircraft * list plain_report) :
  Forall (fun ij => (ij.1 < n)%nat /\ (ij.2 < n)%nat) pairs ->
  length (sc_aircraft st) = n ->
  set_alert false <$> sc_aircraft st = set_alert false <$> ost.1 ->
  sublist (plain_of <$> sc_conflicts st) ost.2 ->
  exists st' ost',
    pass horizon st pairs = Return st'
    /\ old_pass horizon ost pairs = Return ost'
    /\ sublist (plain_of <$> sc_conflicts st') ost'.2.
Proof.
  intros Hpairs. revert st ost.
  induction Hpairs as [|[i j] pairs [Hi Hj] _ IH]; intros st ost Hlen Hfleet Hsub;
    cbn [scan_pairs detect_pairs].
  { by exists st, ost. }
  cbn [fst snd] in Hi, Hj.
  destruct (pair_within_detect horizon st ost i j) as
    (st1 & ost1 & new & onew & -> & -> & Hfleet1 & Hlen1 & Hnew & Honew & Hsub1);
    [lia|lia|done|].
  apply IH; [lia|done|].
  rewrite Hnew, Honew, fmap_app. by apply sublist_app.
Qed.

(** X16: in exact arithmetic, on the same fleet, the pass with the
    search and the detector of the earlier program both return, and every
    line of the new report, its status left out, is a line of the earlier
    report, in the same order: the search adds no conflict, and it drops
    the pairs it skips. *)
Theorem new_report_within_earlier (c : ATC_Controller) :
  exists c1 reports c2 plain,
    check c = Return (c1, reports)
    /\ detect c = Return (c2, plain)
    /\ sublist (plain_of <$> reports) plain.
Proof.
  unfold check_for_conflicts, detect_conflicts.
  destruct (pass_within_detect (lookahead_time_hrs c) (length (aircraft_list c))
              (index_pairs (length (aircraft_list c))) (clear_pass c) (aircraft_list c, []))
    as (st & ost & -> & -> & Hsub).
  - eapply Forall_impl; [apply index_pairs_in_range|]. intros [i j]; simpl; lia.
  - unfold clear_pass. cbn [sc_aircraft]. by rewrite length_map.
  - unfold clear_pass. cbn [sc_aircraft fst]. rewrite <- list_fmap_compose.
    apply list_fmap_ext. by intros k ac _.
  - apply sublist_nil_l.
  - by eexists _, _, _, _.
Qed.

Lemma alert_pair_keeps (i j k : nat) (l : list Aircraft) (ac : Aircraft) :
  l !! k = Some ac ->
  exists ac', alert_pair i j l !! k = Some ac'
    /\ set_alert false ac' = set_alert false ac
    /\ (conflict_alert ac = true -> conflict_alert ac' = true).
Proof.
  intros Hk. unfold alert_pair.
  assert (Hone : forall (i : nat) (l : list Aircraft) ac, l !! k = Some ac ->
            exists ac', alter (set_alert true) i l !! k = Some ac'
              /\ set_alert false ac' = set_alert false ac
              /\ (conflict_alert ac = true -> conflict_alert ac' = true)).
  { clear. intros i l ac Hk. destruct (decide (i = k)) as [->|Hne].
    - rewrite list_lookup_alter_eq, Hk. by eexists.
    - rewrite list_lookup_alter_ne by done. by exists ac. }
  destruct (Hone i l ac Hk) as (ac1 & Hk1 & Heq1 & Hal1).
  destruct (Hone j _ ac1 Hk1) as (ac2 & Hk2 & Heq2 & Hal2).
  exists ac2. split; [done|]. split; [congruence|auto].
Qed.

(** X17: in exact arithmetic, where no square overflows, the earlier
    detector always returns; it changes nothing of an aircraft but its
    alert, and never takes an alert back: an aircraft alerted before the
    call is alerted after it. *)
Theorem earlier_detector_keeps_alerts (c : ATC_Controller) :
  exists c' plain,
    detect c = Return (c', plain)
    /\ length (aircraft_list c') = length (aircraft_list c)
    /\ forall k ac, aircraft_list c !! k = Some ac ->
         exists ac', aircraft_list c' !! k = Some ac'
           /\ set_alert false ac' = set_alert false ac
           /\ (conflict_alert ac = true -> conflict_alert ac' = true).
Proof.
  unfold detect_conflicts.
  set (keeps := fun l : list Aircraft =>
         length l = length (aircraft_list c)
         /\ forall k ac, aircraft_list c !! k = Some ac ->
              exists ac', l !! k = Some ac'
                /\ set_alert false ac' = set_alert false ac
                /\ (conflict_alert ac = true -> conflict_alert ac' = true)).
  assert (Hpass : forall pairs ost,
            Forall (fun ij => (ij.1 < ij.2)%nat /\ (ij.2 < length (aircraft_list c))%nat) pairs ->
            keeps ost.1 ->
            exists ost', old_pass (lookahead_time_hrs c) ost pairs = Return ost'
                         /\ keeps ost'.1).
  { intros pairs ost Hpairs. revert ost.
    induction Hpairs as [|[i j] pairs [Hij Hj] _ IH]; intros ost Hkeeps;
      cbn [detect_pairs]; [by exists ost|].
    cbn [fst snd] in Hij, Hj. destruct Hkeeps as [Hlen Hkeeps].
    destruct (lookup_lt_is_Some_2 ost.1 i ltac:(lia)) as [a Ha].
    destruct (lookup_lt_is_Some_2 ost.1 j ltac:(lia)) as [b Hb].
    destruct (detect_pair_cases (lookahead_time_hrs c) ost i j a b Ha Hb)
      as [->|(t & d & v & ->)]; apply IH; [by split|].
    cbn [fst]. split; [by rewrite alert_pair_length|].
    intros k ac Hk. destruct (Hkeeps k ac Hk) as (ac1 & Hk1 & Heq1 & Hal1).
    destruct (alert_pair_keeps i j k ost.1 ac1 Hk1) as (ac2 & Hk2 & Heq2 & Hal2).
    exists ac2. split; [done|]. split; [congruence|auto]. }
  destruct (Hpass (index_pairs (length (aircraft_list c))) (aircraft_list c, []))
    as (ost & -> & Hlen & Hkeeps).
  - apply index_pairs_in_range.
  - split; [done|]. intros k ac Hk. by exists ac.
  - by eexists _, _.
Qed.
End DetectorFacts.

(** ** Presentation arithmetic *)

(** X18: the three fields of the clock label put together give back the
    number of seconds, and minutes and seconds stay below 60. *)
Theorem update_time_label_round_trip (seconds : Z) :
  let '(h, m, s) := update_time_label seconds in
  (seconds = h * 3600 + m * 60 + s)%Z
  /\ (0 <= m < 60)%Z /\ (0 <= s < 60)%Z /\ (0 <= seconds <-> 0 <= h)%Z.
Proof.
  unfold update_time_label. Z.div_mod_to_equations. lia.
Qed.

(** X19: the heading under which a rotated image is cached is a
    multiple of 5 between 0 and 355, and it is the heading rounded to the
    nearest multiple of 5, up to whole turns. *)
Theorem rounded_heading_bucket (heading_deg : Q) :
  (0 <= rounded_heading heading_deg < 360)%Z
  /\ (rounded_heading heading_deg mod 5 = 0)%Z
  /\ exists turns : Z,
       Qabs (heading_deg - inject_Z (rounded_heading heading_deg + 360 * turns)) <= 5 # 2.
Proof.
  unfold rounded_heading. set (r := py_round0 (heading_deg / 5)).
  pose proof (Z.mod_pos_bound (r * 5) 360 ltac:(lia)) as Hrange.
  pose proof (Z.div_mod (r * 5) 360 ltac:(lia)) as Hdiv.
  split; [done|]. split.
  - clear Hrange Hdiv. Z.div_mod_to_equations. lia.
  - exists ((r * 5) / 360)%Z.
    replace ((r * 5) mod 360 + 360 * (r * 5 / 360))%Z with (r * 5)%Z by lia.
    destruct (py_round0_bounds (heading_deg / 5)) as [Hlo Hhi]. fold r in Hlo, Hhi.
    rewrite inject_Z_mult. change (inject_Z 5) with 5.
    assert (Hh : heading_deg == heading_deg / 5 * 5) by field.
    apply Qabs_Qle_condition.
    set (q := heading_deg / 5) in *. clearbody q. split; lra.
Qed.


(** ** Registration through the dialog *)

Section DialogMore.
Variable str_upper : string -> string.
Variable float_of_string : string -> option Q.

Local Abbreviation dialog_add := (AddPlaneDialog_add_aircraft str_upper float_of_string).

Lemma existsb_callsign (cs : string) (l : list Aircraft) :
  existsb (fun ac => bool_decide (callsign ac = cs)) l = true <-> cs ∈ callsign <$> l.
Proof.
  rewrite existsb_exists, list_elem_of_fmap. split.
  - intros (ac & Hin & Heq). exists ac. apply bool_decide_eq_true in Heq.
    split; [done|by apply list_elem_of_In].
  - intros (ac & -> & Hin). exists ac. split; [by apply list_elem_of_In|].
    by apply bool_decide_eq_true.
Qed.

(** X21: the dialog keeps callsigns unique: whatever is entered, if no
    two aircraft of the list shared a callsign before, none do after. *)
Theorem dialog_keeps_callsigns_unique (c : ATC_Controller) (e : Entries) :
  NoDup (callsign <$> aircraft_list c) ->
  NoDup (callsign <$> aircraft_list (dialog_add c e).1).
Proof.
  intros Hnd. unfold AddPlaneDialog_add_aircraft.
  destruct (float_of_string (entry_x e)), (float_of_string (entry_y e)),
    (float_of_string (entry_altitude e)), (float_of_string (entry_speed e)),
    (float_of_string (entry_heading e)); cbn [fst]; try done.
  destruct (existsb _ _) eqn:Hdup; cbn [fst]; [done|].
  cbn [add_aircraft aircraft_list]. rewrite fmap_app. apply NoDup_app.
  split; [done|]. split; [|apply NoDup_singleton].
  intros cs Hin [->|[]%elem_of_nil]%elem_of_cons.
  apply existsb_callsign in Hin. cbn [Aircraft_init callsign] in Hin. congruence.
Qed.

(** X22: an entry whose five numbers read and whose upper-cased callsign
    is new is added at the end of the list, as the aircraft that
    [Aircraft.__init__] builds from that callsign and the numbers
    entered. *)
Theorem dialog_adds_new_aircraft (c : ATC_Controller) (e : Entries)
    (x0 y0 z0 speed0 heading0 : Q) :
  float_of_string (entry_x e) = Some x0 ->
  float_of_string (entry_y e) = Some y0 ->
  float_of_string (entry_altitude e) = Some z0 ->
  float_of_string (entry_speed e) = Some speed0 ->
  float_of_string (entry_heading e) = Some heading0 ->
  str_upper (entry_callsign e) ∉ callsign <$> aircraft_list c ->
  (dialog_add c e).2 = Success_added (str_upper (entry_callsign e))
  /\ aircraft_list (dialog_add c e).1
     = aircraft_list c
       ++ [Aircraft_init (str_upper (entry_callsign e)) x0 y0 z0 speed0 heading0]
  /\ resolved_maneuvers (dialog_add c e).1 = resolved_maneuvers c.
Proof.
  intros Hx Hy Hz Hs Hh Hnew. unfold AddPlaneDialog_add_aircraft.
  rewrite Hx, Hy, Hz, Hs, Hh.
  destruct (existsb _ _) eqn:Hdup.
  { by apply existsb_callsign in Hdup. }
  cbn [fst snd]. by repeat split.
Qed.

(** X23: an entry with a number that does not read is refused with the
    number message and changes nothing, also when its callsign is
    already taken: the numbers are read before the callsign is looked up. *)
Theorem dialog_refuses_bad_number (c : ATC_Controller) (e : Entries) :
  float_of_string (entry_x e) = None \/ float_of_string (entry_y e) = None
  \/ float_of_string (entry_altitude e) = None \/ float_of_string (entry_speed e) = None
  \/ float_of_string (entry_heading e) = None ->
  dialog_add c e = (c, Input_error_numbers).
Proof.
  unfold AddPlaneDialog_add_aircraft.
  intros [H|[H|[H|[H|H]]]]; rewrite H;
    by destruct (float_of_string (entry_x e)), (float_of_string (entry_y e)),
      (float_of_string (entry_altitude e)), (float_of_string (entry_speed e)).
Qed.
End DialogMore.

(** ** [heapq] keeps the smallest element in front *)

Section HeapOrderFacts.
Context {T : Type} (key : T -> Q) (lt : T -> T -> bool).
Hypothesis lt_key : forall a b, lt a b = true <-> key a < key b.

Local Abbreviation ordered := (heap_ordered key).
Local Abbreviation hole := (hole_ok key).

Lemma heap_root_least (l : list T) (r : T) :
  ordered l -> l !! 0%nat = Some r ->
  forall i x, l !! i = Some x -> key r <= key x.
Proof.
  intros Hheap Hroot i. induction (lt_wf i) as [i _ IH]. intros x Hx.
  destruct (decide (i = 0)%nat) as [->|Hpos].
  { assert (x = r) as -> by congruence. lra. }
  assert (Hpar : ((i - 1) / 2 < i)%nat).
  { apply Nat.le_lt_trans with (i - 1)%nat; [apply Nat.Div0.div_le_upper_bound|]; lia. }
  destruct (lookup_lt_is_Some_2 l ((i - 1) / 2)%nat) as [p Hp].
  { apply lookup_lt_Some in Hx. lia. }
  specialize (IH _ Hpar p Hp). specialize (Hheap i x p ltac:(lia) Hx Hp). lra.
Qed.

Lemma parent_lt (i : nat) : (0 < i)%nat -> ((i - 1) / 2 < i)%nat.
Proof.
  intros Hi. apply Nat.le_lt_trans with (i - 1)%nat;
    [apply Nat.Div0.div_le_upper_bound|]; lia.
Qed.

Lemma hole_filled (heap : list T) (pos : nat) (newitem : T) :
  (pos < length heap)%nat ->
  hole heap pos newitem ->
  (pos = 0%nat \/ exists p, heap !! ((pos - 1) / 2)%nat = Some p /\ key p <= key newitem) ->
  ordered (<[pos := newitem]> heap).
Proof.
  intros Hlen [Hb _] Hpar i x p Hi Hx Hp.
  destruct (decide (i = pos)) as [->|Hne]; [|by eapply Hb].
  destruct Hpar as [->|(p' & Hp' & Hle)]; [lia|].
  rewrite list_lookup_insert_eq in Hx by done. injection Hx as <-.
  rewrite list_lookup_insert_ne in Hp by (pose proof (parent_lt pos Hi); lia).
  assert (p = p') as -> by congruence. done.
Qed.

Lemma hole_moves_up (heap : list T) (pos : nat) (newitem parent : T) :
  (0 < pos)%nat -> (pos < length heap)%nat ->
  heap !! ((pos - 1) / 2)%nat = Some parent ->
  key newitem < key parent ->
  hole heap pos newitem ->
  hole (<[pos := parent]> heap) ((pos - 1) / 2) newitem.
Proof.
  intros Hpos Hlen Hparent Hlt [Hb Hc].
  pose proof (parent_lt pos Hpos) as Hup.
  set (pos2 := ((pos - 1) / 2)%nat) in *.
  assert (Hlen2 : (pos2 < length heap)%nat) by lia.
  split.
  - intros i x p Hi Hne Hx Hp.
    rewrite list_lookup_insert_ne in Hx by done.
    destruct (decide (i = pos)) as [->|Hne'].
    + rewrite list_lookup_insert_eq in Hx by done. injection Hx as <-.
      fold pos2 in Hp. rewrite list_lookup_insert_eq in Hp by (by rewrite length_insert).
      injection Hp as <-. lra.
    + rewrite list_lookup_insert_ne in Hx by done.
      assert (Hx' : <[pos := newitem]> heap !! i = Some x)
        by (by rewrite list_lookup_insert_ne).
      destruct (decide (((i - 1) / 2)%nat = pos2)) as [Heq|Hne2].
      * rewrite Heq in Hp. rewrite list_lookup_insert_eq in Hp by (by rewrite length_insert).
        injection Hp as <-.
        assert (key parent <= key x); [|lra].
        apply (Hb i x parent Hi Hne' Hx'). rewrite Heq.
        rewrite list_lookup_insert_ne by lia. done.
      * rewrite list_lookup_insert_ne in Hp by done.
        destruct (decide (((i - 1) / 2)%nat = pos)) as [Heq|Hne3].
        -- rewrite Heq in Hp. rewrite list_lookup_insert_eq in Hp by done.
           injection Hp as <-. by apply (Hc i x parent Hpos Hi Heq).
        -- rewrite list_lookup_insert_ne in Hp by done.
           apply (Hb i x p Hi Hne' Hx'). by rewrite list_lookup_insert_ne.
  - intros c x gp Hpos2 Hc0 Hcpar Hx Hgp.
    pose proof (parent_lt pos2 Hpos2) as Hup2.
    rewrite list_lookup_insert_ne in Hgp by lia.
    assert (Hgp_le : key gp <= key parent).
    { apply (Hb pos2 parent gp Hpos2); [lia| |].
      - by rewrite list_lookup_insert_ne by lia.
      - by rewrite list_lookup_insert_ne by lia. }
    destruct (decide (c = pos)) as [->|Hne].
    + rewrite list_lookup_insert_eq in Hx by done. by injection Hx as <-.
    + rewrite list_lookup_insert_ne in Hx by done.
      assert (key parent <= key x); [|lra].
      apply (Hb c x parent Hc0 Hne).
      * by rewrite list_lookup_insert_ne.
      * rewrite Hcpar. by rewrite list_lookup_insert_ne by lia.
Qed.

Lemma siftdown_loop_ordered (fuel : nat) (heap : list T) (pos : nat) (newitem : T) :
  (pos <= fuel)%nat -> (pos < length heap)%nat ->
  hole heap pos newitem ->
  ordered (siftdown_loop lt fuel heap 0 pos newitem).
Proof.
  revert heap pos. induction fuel as [|fuel IH]; intros heap pos Hfuel Hlen Hok;
    cbn [siftdown_loop].
  { apply hole_filled; [done|done|left; lia]. }
  destruct (0 <? pos)%nat eqn:Hpos; cycle 1.
  { apply Nat.ltb_ge in Hpos. apply hole_filled; [done|done|left; lia]. }
  apply Nat.ltb_lt in Hpos. pose proof (parent_lt pos Hpos) as Hup.
  destruct (lookup_lt_is_Some_2 heap ((pos - 1) / 2)%nat ltac:(lia)) as [parent Hparent].
  rewrite Hparent. cbn [default from_option id].
  destruct (lt newitem parent) eqn:Hlt.
  - apply lt_key in Hlt. apply IH; [lia|rewrite length_insert; lia|].
    by apply hole_moves_up.
  - apply hole_filled; [done|done|]. right. exists parent. split; [done|].
    destruct (Qlt_le_dec (key newitem) (key parent)) as [Hlt'|Hle]; [|done].
    apply lt_key in Hlt'. congruence.
Qed.

Lemma heappush_ordered (heap : list T) (item : T) :
  ordered heap -> ordered (heappush lt heap item).
Proof.
  intros Hheap. unfold heappush, siftdown.
  rewrite length_app. cbn [length]. replace (length heap + 1 - 1)%nat with (length heap) by lia.
  rewrite lookup_app_r, Nat.sub_diag by lia. cbn [lookup list_lookup].
  apply siftdown_loop_ordered; [lia|rewrite length_app; cbn [length]; lia|].
  assert (Hfill : <[length heap := item]> (heap ++ [item]) = heap ++ [item]).
  { apply list_insert_id. by rewrite lookup_app_r, Nat.sub_diag by lia. }
  split.
  - rewrite Hfill. intros i x p Hi Hne Hx Hp.
    assert (Hin : (i < length heap)%nat).
    { apply lookup_lt_Some in Hx. rewrite length_app in Hx. cbn [length] in Hx. lia. }
    pose proof (parent_lt i Hi).
    rewrite lookup_app_l in Hx, Hp by lia. by eapply Hheap.
  - intros c x p _ Hc Hpar Hx _. exfalso.
    apply lookup_lt_Some in Hx. rewrite length_app in Hx. cbn [length] in Hx.
    pose proof (Nat.div_mod_eq (c - 1) 2) as Hdm.
    pose proof (Nat.mod_upper_bound (c - 1) 2 ltac:(lia)). lia.
Qed.

(** [heappop] hands out the first element of the list. *)
Lemma heappop_cons (x : T) (l : list T) :
  exists rest, heappop lt (x :: l) = Some (x, rest).
Proof.
  unfold heappop. destruct (last (x :: l)) as [lastelt|] eqn:Hlast.
  - destruct l as [|y l]; [cbn in *; simplify_eq; by eexists|].
    cbn [removelast]. by eexists.
  - by apply last_None in Hlast.
Qed.
End HeapOrderFacts.

(** ** The search on a pair with two callsigns *)

Lemma state_lt_key (a b : ConflictState) : state_lt a b = true <-> f_cost a < f_cost b.
Proof. unfold state_lt. destruct (Qlt_le_dec _ _); split; (done || lra). Qed.

(** Joint states with the same keys and the same fingerprint agree on
    the quantised data of every aircraft. *)
Lemma same_hash_same_quanta (d d' : states_dict) (cs : string) :
  d.*1 = d'.*1 ->
  map (fun e => quantise e.2) d = map (fun e => quantise e.2) d' ->
  quantise (default (0, 0, 0, 0, 0) (dict_get d cs))
  = quantise (default (0, 0, 0, 0, 0) (dict_get d' cs)).
Proof.
  revert d'. induction d as [|[k v] d IH]; intros [|[k' v'] d'] Hkeys Hq; try done.
  cbn in Hkeys, Hq. injection Hkeys as <- Hkeys. injection Hq as Hv Hq.
  cbn [dict_get]. destruct (decide (k = cs)); [done|]. by apply IH.
Qed.

Lemma quantise_z (k : kinematic) : (quantise k).1.1.2 = py_round0 (kin_z k).
Proof. by destruct k as [[[[kx ky] kz] ks] kh]. Qed.

Section TwoCallsigns.
Variables math_sin math_cos math_radians math_sqrt : Q -> Q.

Local Abbreviation heur := (_heuristic math_sin math_cos math_radians math_sqrt).
Local Abbreviation init := (initial_state math_sin math_cos math_radians math_sqrt).
Local Abbreviation succ := (successor math_sin math_cos math_radians math_sqrt).
Local Abbreviation step := (consider math_sin math_cos math_radians math_sqrt).
Local Abbreviation expd := (expand math_sin math_cos math_radians math_sqrt).
Local Abbreviation loop := (search_loop math_sin math_cos math_radians math_sqrt).
Local Abbreviation run := (a_star_run math_sin math_cos math_radians math_sqrt).
Local Abbreviation gen := (generated math_sin math_cos math_radians math_sqrt).

Lemma successor_z (r : ConflictResolver) (n s : ConflictState) (m : Maneuver) (cs : string) :
  succ r n m = Some s ->
  kin_z (get_aircraft_data s cs)
  = if decide (m_callsign m = cs)
    then py_max 5000 (kin_z (get_aircraft_data n cs) + altitude_change m)
    else kin_z (get_aircraft_data n cs).
Proof.
  intros (x0 & y0 & z0 & sp & hd & Hget & Hs & _)%successor_inv.
  unfold get_aircraft_data. rewrite Hs.
  destruct (decide (m_callsign m = cs)) as [<-|Hne].
  - by rewrite dict_get_set_eq, Hget.
  - by rewrite dict_get_set_ne.
Qed.

Lemma different_z_different_hash (r : ConflictResolver) (s s' : ConflictState) (cs : string) :
  keys_ok r s -> keys_ok r s' ->
  py_round0 (kin_z (get_aircraft_data s cs)) <> py_round0 (kin_z (get_aircraft_data s' cs)) ->
  state_hash s <> state_hash s'.
Proof.
  intros Hk Hk' Hz Hhash. apply Hz. rewrite <- !quantise_z. unfold get_aircraft_data.
  by rewrite (same_hash_same_quanta (aircraft_states s) (aircraft_states s') cs)
    by (done || congruence).
Qed.

Lemma consider_pushes_new (r : ConflictResolver) (cur s : ConflictState) (m : Maneuver)
    (open : list ConflictState) (gs : gmap fingerprint Q) :
  succ r cur m = Some s -> gs !! state_hash s = None ->
  step r cur (Some (open, gs)) m
  = Some (heappush state_lt open s, <[state_hash s := g_cost s]> gs).
Proof. intros Hs Hnew. unfold consider. by rewrite Hs, Hnew. Qed.

Lemma fold_consider_mono (r : ConflictResolver) (cur s : ConflictState)
    (ms : list Maneuver) (open open' : list ConflictState) (gs gs' : gmap fingerprint Q) :
  s ∈ open ->
  foldl (step r cur) (Some (open, gs)) ms = Some (open', gs') -> s ∈ open'.
Proof.
  revert open gs. induction ms as [|m ms IH]; intros open gs Hin Hfold; cbn [foldl] in Hfold.
  { by simplify_eq. }
  destruct (step r cur (Some (open, gs)) m) as [[o g]|] eqn:Hstep;
    [|by rewrite consider_None in Hfold].
  eapply IH; [|exact Hfold].
  apply consider_inv in Hstep as (s' & _ & [(-> & _)|(-> & _)]); [done|].
  rewrite heappush_perm. by apply list_elem_of_further.
Qed.

Lemma fold_consider_ordered (r : ConflictResolver) (cur : ConflictState)
    (ms : list Maneuver) (open open' : list ConflictState) (gs gs' : gmap fingerprint Q) :
  heap_ordered f_cost open ->
  foldl (step r cur) (Some (open, gs)) ms = Some (open', gs') ->
  heap_ordered f_cost open'.
Proof.
  revert open gs. induction ms as [|m ms IH]; intros open gs Hheap Hfold;
    cbn [foldl] in Hfold.
  { by simplify_eq. }
  destruct (step r cur (Some (open, gs)) m) as [[o g]|] eqn:Hstep;
    [|by rewrite consider_None in Hfold].
  eapply IH; [|exact Hfold].
  apply consider_inv in Hstep as (s' & _ & [(-> & _)|(-> & _)]); [done|].
  apply (heappush_ordered f_cost state_lt state_lt_key). done.
Qed.

(** The fingerprints recorded during an expansion are those recorded
    before and those of the successors considered. *)
Lemma fold_consider_dom (r : ConflictResolver) (cur : ConflictState)
    (ms : list Maneuver) (open open' : list ConflictState) (gs gs' : gmap fingerprint Q)
    (k : fingerprint) :
  foldl (step r cur) (Some (open, gs)) ms = Some (open', gs') ->
  is_Some (gs' !! k) ->
  is_Some (gs !! k) \/ exists m s, m ∈ ms /\ succ r cur m = Some s /\ k = state_hash s.
Proof.
  revert open gs. induction ms as [|m ms IH]; intros open gs Hfold Hk; cbn [foldl] in Hfold.
  { simplify_eq. by left. }
  destruct (step r cur (Some (open, gs)) m) as [[o g]|] eqn:Hstep;
    [|by rewrite consider_None in Hfold].
  destruct (IH _ _ Hfold Hk) as [Hg|(m' & s' & Hm' & Hs' & ->)].
  - apply consider_inv in Hstep as (s & Hs & [(_ & -> & _)|(_ & ->)]); [by left|].
    destruct (decide (state_hash s = k)) as [<-|Hne].
    + right. exists m, s. split; [apply list_elem_of_here|done].
    + rewrite lookup_insert_ne in Hg by done. by left.
  - right. exists m', s'. split; [by apply list_elem_of_further|done].
Qed.

Lemma initial_data_distinct (r : ConflictResolver) :
  callsign (res_A r) <> callsign (res_B r) ->
  get_aircraft_data (init r) (callsign (res_A r))
  = (x (res_A r), y (res_A r), z (res_A r), speed (res_A r), heading (res_A r))
  /\ get_aircraft_data (init r) (callsign (res_B r))
     = (x (res_B r), y (res_B r), z (res_B r), speed (res_B r), heading (res_B r)).
Proof.
  intros Hne. unfold get_aircraft_data. cbn [initial_state aircraft_states].
  unfold initial_aircraft_data. cbn [dict_set].
  rewrite decide_False by done. cbn [dict_set dict_get].
  rewrite decide_True by done. rewrite decide_False by done. by rewrite decide_True.
Qed.

(** The successor that climbs 1000 from a level at or above the floor
    has a fingerprint no earlier successor has, so it is pushed. *)
Lemma climb_is_pushed (r : ConflictResolver) (cs : string)
    (before after : list Maneuver) (open1 : list ConflictState)
    (gs1 : gmap fingerprint Q) :
  MANEUVER_OPTIONS r = before ++ altitude_maneuver cs 1000 :: after ->
  (forall m, m ∈ before -> m_callsign m = cs -> altitude_change m <= 0) ->
  5000 <= kin_z (get_aircraft_data (init r) cs) ->
  expd r (init r) [] {[ state_hash (init r) := 0 ]} = Some (open1, gs1) ->
  exists s, succ r (init r) (altitude_maneuver cs 1000) = Some s /\ s ∈ open1.
Proof.
  intros Hsplit Hbefore Hfloor. unfold expand. rewrite Hsplit, foldl_app. cbn [foldl].
  pose proof (keys_ok_initial math_sin math_cos math_radians math_sqrt r) as Hkeys.
  assert (Hin : altitude_maneuver cs 1000 ∈ MANEUVER_OPTIONS r).
  { rewrite Hsplit. apply elem_of_app. right. apply list_elem_of_here. }
  destruct (successor_is_Some math_sin math_cos math_radians math_sqrt r (init r) _ Hkeys Hin)
    as [s Hs].
  destruct (foldl (step r (init r)) (Some ([], {[ state_hash (init r) := 0 ]})) before)
    as [[o1 g1]|] eqn:H1; [|by rewrite consider_None].
  set (zT := kin_z (get_aircraft_data (init r) cs)) in *.
  assert (Hzs : zT + 1000 <= kin_z (get_aircraft_data s cs)).
  { rewrite (successor_z r (init r) s _ cs Hs). cbn [m_callsign altitude_maneuver].
    rewrite decide_True by done. apply py_max_lb_r. }
  pose proof (successor_keys math_sin math_cos math_radians math_sqrt r _ _ _ Hkeys Hs) as Hks.
  assert (Hnew : g1 !! state_hash s = None).
  { apply eq_None_not_Some. intros Hknown.
    destruct (fold_consider_dom r (init r) before _ _ _ _ _ H1 Hknown)
      as [[g Hinit]|(m & sm & Hm & Hsm & Hhash)].
    - apply lookup_singleton_Some in Hinit as [Hhash _].
      revert Hhash. apply (different_z_different_hash r _ _ cs); [done|done|].
      apply Z.lt_neq, py_round0_gap. done.
    - symmetry in Hhash. revert Hhash.
      pose proof (successor_keys math_sin math_cos math_radians math_sqrt r _ _ _ Hkeys Hsm).
      apply (different_z_different_hash r _ _ cs); [done|done|].
      apply Z.lt_neq, py_round0_gap.
      rewrite (successor_z r (init r) sm m cs Hsm). fold zT.
      destruct (decide (m_callsign m = cs)) as [Hcs|_]; [|lra].
      specialize (Hbefore m Hm Hcs).
      destruct (py_max_cases 5000 (zT + altitude_change m)) as [[_ ->]|[_ ->]]; lra. }
  rewrite (consider_pushes_new r (init r) s _ o1 g1 Hs Hnew).
  intros Hafter. exists s. split; [done|].
  eapply fold_consider_mono; [|exact Hafter].
  rewrite heappush_perm. apply list_elem_of_here.
Qed.

Lemma options_kinds (r : ConflictResolver) (m : Maneuver) :
  m ∈ MANEUVER_OPTIONS r ->
  (altitude_change m = 0 /\ speed_change m = 0)
  \/ (heading_change m = 0 /\ ~ altitude_change m == 0).
Proof.
  unfold MANEUVER_OPTIONS. rewrite !elem_of_app, !list_elem_of_fmap.
  intros [(d & -> & Hd)|[(d & -> & Hd)|[(d & -> & Hd)|(d & -> & Hd)]]];
    [by left|by left|right|right]; (split; [done|]);
    repeat (apply elem_of_cons in Hd as [->|Hd]); try (by apply elem_of_nil in Hd);
    cbn; lra.
Qed.

(** A successor by a maneuver that changes no altitude, from levels at
    or above the floor, is as far apart vertically as its parent. *)
Lemma level_successor (r : ConflictResolver) (n s : ConflictState) (m : Maneuver) :
  succ r n m = Some s -> altitude_change m = 0 ->
  5000 <= kin_z (get_aircraft_data n (callsign (res_A r))) ->
  5000 <= kin_z (get_aircraft_data n (callsign (res_B r))) ->
  Qabs (kin_z (get_aircraft_data s (callsign (res_A r)))
        - kin_z (get_aircraft_data s (callsign (res_B r))))
  == Qabs (kin_z (get_aircraft_data n (callsign (res_A r)))
           - kin_z (get_aircraft_data n (callsign (res_B r)))).
Proof.
  intros Hs Hlevel HA HB.
  assert (Hz : forall cs, 5000 <= kin_z (get_aircraft_data n cs) ->
            kin_z (get_aircraft_data s cs) == kin_z (get_aircraft_data n cs)).
  { intros cs Hfloor. rewrite (successor_z r n s m cs Hs), Hlevel.
    destruct (decide _); [|reflexivity].
    destruct (py_max_cases 5000 (kin_z (get_aircraft_data n cs) + 0)) as [[? ->]|[? ->]]; lra. }
  rewrite (Hz _ HA), (Hz _ HB). reflexivity.
Qed.

Lemma search_loop_S (fuel : nat) (r : ConflictResolver) (st : SearchState) :
  loop (S fuel) r st
  = match open_list st with
    | [] => (Return None, st)
    | _ :: _ =>
        if (nodes_explored st <? max_search_nodes)%nat then
          match heappop state_lt (open_list st) with
          | None => (Raise IndexError,
                     mkSearch (open_list st) (g_scores st) (S (nodes_explored st)))
          | Some (current_state, open) =>
              if Qeq_bool (h_cost current_state) 0 then
                (Return (Some (reconstruct_path current_state)),
                 mkSearch open (g_scores st) (S (nodes_explored st)))
              else
                match expd r current_state open (g_scores st) with
                | None => (Raise KeyError, mkSearch open (g_scores st) (S (nodes_explored st)))
                | Some (open', gs') => loop fuel r (mkSearch open' gs' (S (nodes_explored st)))
                end
          end
        else (Return None, st)
    end.
Proof. reflexivity. Qed.

Lemma two_callsigns_search (r : ConflictResolver) :
  callsign (res_A r) <> callsign (res_B r) ->
  5000 <= z (res_A r) -> 5000 <= z (res_B r) ->
  exists path st,
    run r = (Return (Some path), st)
    /\ (nodes_explored st <= 2)%nat
    /\ (1000 <= Qabs (z (res_A r) - z (res_B r)) -> path = [])
    /\ (Qabs (z (res_A r) - z (res_B r)) < 1000 -> length path = 1%nat)
    /\ Forall (fun m => m ∈ MANEUVER_OPTIONS r
                        /\ heading_change m = 0 /\ ~ altitude_change m == 0) path.
Proof.
  intros Hcs HzA HzB.
  destruct (initial_data_distinct r Hcs) as [HdA HdB].
  pose proof (generated_initial math_sin math_cos math_radians math_sqrt r) as Hgen0.
  pose proof (keys_ok_initial math_sin math_cos math_radians math_sqrt r) as Hkeys.
  unfold a_star_run, search_start. rewrite search_loop_S.
  cbn [open_list g_scores nodes_explored]. change (0 <? max_search_nodes)%nat with true.
  cbn [heappop last removelast].
  destruct (Qeq_bool (h_cost (init r)) 0) eqn:Hgoal.
  { eexists [], _. split; [reflexivity|]. cbn [nodes_explored].
    split; [lia|]. split; [done|]. split; [|constructor].
    intros Hclose. exfalso. apply Qeq_bool_iff in Hgoal.
    destruct (generated_costs math_sin math_cos math_radians math_sqrt r _ Hgen0) as [Hh _].
    rewrite Hh in Hgoal. apply heuristic_sign in Hgoal.
    rewrite HdA, HdB in Hgoal. cbn [kin_z fst snd] in Hgoal. unfold VERTICAL_MIN in Hgoal. lra. }
  destruct (fold_consider_is_Some math_sin math_cos math_radians math_sqrt r (init r)
              (MANEUVER_OPTIONS r) [] {[ state_hash (init r) := 0 ]})
    as [[open1 gs1] Hexp].
  { intros m Hm. by apply successor_is_Some. }
  fold (expd r (init r) [] {[ state_hash (init r) := 0 ]}) in Hexp. rewrite Hexp.
  (* the initial state is not terminal: the two are less than 1000 apart *)
  assert (Hclose : Qabs (z (res_A r) - z (res_B r)) < 1000).
  { destruct (Qlt_le_dec (Qabs (z (res_A r) - z (res_B r))) 1000) as [|Hfar]; [done|].
    apply Qeq_bool_neq in Hgoal. exfalso. apply Hgoal.
    destruct (generated_costs math_sin math_cos math_radians math_sqrt r _ Hgen0) as [-> _].
    apply heuristic_sign. by rewrite HdA, HdB. }
  (* a terminal successor is in the open list *)
  assert (Hterm : exists s m, s ∈ open1 /\ succ r (init r) m = Some s
                    /\ m ∈ MANEUVER_OPTIONS r
                    /\ Maneuver_cost m == 1 # 2 /\ h_cost s == 0).
  { assert (Hzero : forall s m, succ r (init r) m = Some s ->
              1000 <= Qabs (kin_z (get_aircraft_data s (callsign (res_A r)))
                            - kin_z (get_aircraft_data s (callsign (res_B r)))) ->
              m ∈ MANEUVER_OPTIONS r -> h_cost s == 0).
    { intros s m Hs Hfar Hm.
      assert (Hg : gen r s) by (by eapply generated_successor).
      destruct (generated_costs math_sin math_cos math_radians math_sqrt r _ Hg) as [-> _].
      by apply heuristic_sign. }
    destruct (Qlt_le_dec (z (res_A r)) (z (res_B r))) as [HBhigh|HAhigh].
    - destruct (climb_is_pushed r (callsign (res_B r))
                 (map (heading_maneuver (callsign (res_A r))) [-10; 10; -5; 5]
                  ++ map (heading_maneuver (callsign (res_B r))) [-10; 10; -5; 5]
                  ++ map (altitude_maneuver (callsign (res_A r))) [-1000; 1000]
                  ++ [altitude_maneuver (callsign (res_B r)) (-1000)])
                 [] open1 gs1) as (s & Hs & Hin); [by rewrite <- !app_assoc| |by rewrite HdB|done|].
      { intros m Hm HmB. rewrite !elem_of_app, !list_elem_of_fmap in Hm.
        destruct Hm as [(d & -> & Hd)|[(d & -> & Hd)|[(d & -> & Hd)|Hm]]];
          cbn in *; try lra; [congruence|].
        apply list_elem_of_singleton in Hm as ->. cbn. lra. }
      exists s, (altitude_maneuver (callsign (res_B r)) 1000).
      assert (Hopt : altitude_maneuver (callsign (res_B r)) 1000 ∈ MANEUVER_OPTIONS r)
        by set_solver.
      split; [done|]. split; [done|]. split; [done|]. split; [by vm_compute|].
      eapply Hzero; [exact Hs| |done].
      rewrite !(successor_z r _ _ _ _ Hs). cbn [m_callsign altitude_maneuver altitude_change].
      rewrite decide_False by done. rewrite decide_True by done. rewrite HdA, HdB.
      cbn [kin_z fst snd]. pose proof (py_max_lb_r 5000 (z (res_B r) + 1000)).
      apply Qabs_case; intros; lra.
    - destruct (climb_is_pushed r (callsign (res_A r))
                 (map (heading_maneuver (callsign (res_A r))) [-10; 10; -5; 5]
                  ++ map (heading_maneuver (callsign (res_B r))) [-10; 10; -5; 5]
                  ++ [altitude_maneuver (callsign (res_A r)) (-1000)])
                 (map (altitude_maneuver (callsign (res_B r))) [-1000; 1000])
                 open1 gs1) as (s & Hs & Hin); [by rewrite <- !app_assoc| |by rewrite HdA|done|].
      { intros m Hm HmA. rewrite !elem_of_app, !list_elem_of_fmap in Hm.
        destruct Hm as [(d & -> & Hd)|[(d & -> & Hd)|Hm]]; cbn in *; try lra.
        apply list_elem_of_singleton in Hm as ->. cbn. lra. }
      exists s, (altitude_maneuver (callsign (res_A r)) 1000).
      assert (Hopt : altitude_maneuver (callsign (res_A r)) 1000 ∈ MANEUVER_OPTIONS r)
        by set_solver.
      split; [done|]. split; [done|]. split; [done|]. split; [by vm_compute|].
      eapply Hzero; [exact Hs| |done].
      rewrite !(successor_z r _ _ _ _ Hs). cbn [m_callsign altitude_maneuver altitude_change].
      rewrite decide_True by done. rewrite decide_False by done. rewrite HdA, HdB.
      cbn [kin_z fst snd]. pose proof (py_max_lb_r 5000 (z (res_A r) + 1000)).
      apply Qabs_case; intros; lra. }
  destruct Hterm as (goal & mg & Hgoal_in & Hgoal_succ & Hmg & Hgoal_cost & Hgoal_h).
  (* the open list is a heap of successors of the initial state *)
  assert (Hheap : heap_ordered f_cost open1).
  { eapply fold_consider_ordered; [|exact Hexp]. intros i x p _ Hx. by destruct i. }
  assert (Hsuccs : Forall (fun s => exists m, m ∈ MANEUVER_OPTIONS r
                                              /\ succ r (init r) m = Some s) open1).
  { eapply (fold_consider_Forall math_sin math_cos math_radians math_sqrt);
      [|constructor|exact Hexp]. intros m s Hm Hs. by exists m. }
  destruct open1 as [|first rest]; [by apply elem_of_nil in Hgoal_in|].
  apply Forall_cons in Hsuccs as [(m & Hm & Hfirst) _].
  assert (Hcosts : forall s m', m' ∈ MANEUVER_OPTIONS r -> succ r (init r) m' = Some s ->
            f_cost s == Maneuver_cost m' + h_cost s /\ 0 <= h_cost s
            /\ (h_cost s == 0 ->
                1000 <= Qabs (kin_z (get_aircraft_data s (callsign (res_A r)))
                              - kin_z (get_aircraft_data s (callsign (res_B r)))))).
  { intros s m' Hm' Hs.
    assert (Hg : gen r s) by (by eapply generated_successor).
    destruct (generated_costs math_sin math_cos math_radians math_sqrt r _ Hg) as [Hh Hf].
    apply successor_inv in Hs as (_ & _ & _ & _ & _ & _ & _ & Hgc & _).
    rewrite Hf, Hgc, Hh. cbn [initial_state g_cost].
    destruct (heuristic_sign math_sin math_cos math_radians math_sqrt r s) as [Hpos Hiff].
    split; [ring|]. split; [done|]. apply Hiff. }
  destruct (Hcosts first m Hm Hfirst) as (Hf_first & Hh_first & Hfar_first).
  destruct (Hcosts goal mg Hmg Hgoal_succ) as (Hf_goal & _ & _).
  assert (Hleast : f_cost first <= f_cost goal).
  { apply list_elem_of_lookup in Hgoal_in as [i Hi].
    by apply (heap_root_least f_cost (first :: rest) first Hheap eq_refl i goal). }
  assert (Hfirst_h : h_cost first == 0).
  { destruct (options_cost r m Hm) as [Hc|Hc]; rewrite Hc in Hf_first; lra. }
  destruct (heappop_cons state_lt first rest) as [rest' Hpop].
  change (loop max_search_nodes) with (loop (S (Nat.pred max_search_nodes))).
  rewrite search_loop_S. cbn [open_list g_scores nodes_explored].
  change (1 <? max_search_nodes)%nat with true. cbn iota. rewrite Hpop.
  rewrite (proj2 (Qeq_bool_iff (h_cost first) 0) Hfirst_h).
  assert (Hpath : reconstruct_path first = [m]).
  { apply successor_inv in Hfirst as (_ & _ & _ & _ & _ & _ & _ & _ & Hp & Hmv).
    destruct first; simplify_eq/=. done. }
  eexists _, _. split; [reflexivity|]. rewrite Hpath.
  cbn [nodes_explored length]. split; [lia|]. split; [intros; lra|]. split; [done|].
  apply Forall_singleton. split; [done|].
  destruct (options_kinds r m Hm) as [[Hlevel _]|Hclimb]; [|done].
  exfalso. specialize (Hfar_first Hfirst_h).
  rewrite (level_successor r (init r) first m Hfirst Hlevel) in Hfar_first.
  - rewrite HdA, HdB in Hfar_first. cbn [kin_z fst snd] in Hfar_first. lra.
  - by rewrite HdA.
  - by rewrite HdB.
Qed.

(** X24: for two aircraft with different callsigns, both at or above
    the altitude floor, the search never fails: it returns at its first
    or second pop, with an empty path when the two are already 1000 apart
    and otherwise with one maneuver, which changes an altitude and no
    heading. *)
Theorem two_callsigns_resolved_at_once (r : ConflictResolver) :
  callsign (res_A r) <> callsign (res_B r) ->
  5000 <= z (res_A r) -> 5000 <= z (res_B r) ->
  exists path st,
    run r = (Return (Some path), st)
    /\ (nodes_explored st <= 2)%nat
    /\ (1000 <= Qabs (z (res_A r) - z (res_B r)) -> path = [])
    /\ (Qabs (z (res_A r) - z (res_B r)) < 1000 -> length path = 1%nat)
    /\ Forall (fun m => m ∈ MANEUVER_OPTIONS r
                        /\ heading_change m = 0 /\ ~ altitude_change m == 0) path.
Proof. apply two_callsigns_search. Qed.
End TwoCallsigns.

(** ** A fleet with distinct callsigns, at or above the floor *)

Section FleetFacts.
Variables math_sin math_cos math_radians math_sqrt : Q -> Q.

Local Abbreviation astar := (a_star_search math_sin math_cos math_radians math_sqrt).
Local Abbreviation pair_step := (scan_pair math_sin math_cos math_radians math_sqrt).
Local Abbreviation check := (check_for_conflicts math_sin math_cos math_radians math_sqrt).

Lemma scan_pair_result_fleet (horizon : Q) (st st' : Scan) (i j : nat) (a b : Aircraft) :
  callsign a <> callsign b -> 5000 <= z a -> 5000 <= z b ->
  sc_aircraft st !! i = Some a -> sc_aircraft st !! j = Some b ->
  pair_step horizon st (i, j) = Return st' ->
  st' = st
  \/ (exists d v,
        st' = mkScan (alert_pair i j (sc_aircraft st)) (sc_resolved st)
                (sc_conflicts st ++
                   [mkReport (callsign a) (callsign b) Immediate d v NO_RES_ATTEMPTED]))
  \/ (exists m t d v,
        sc_resolved st !! callsign a = None /\ sc_resolved st !! callsign b = None
        /\ (m_callsign m = callsign a \/ m_callsign m = callsign b)
        /\ heading_change m = 0 /\ speed_change m = 0 /\ ~ altitude_change m == 0
        /\ st' = mkScan (sc_aircraft st) (enqueue (sc_resolved st) m)
                   (sc_conflicts st ++
                      [mkReport (callsign a) (callsign b) t d v (RESOLVED 1)])).
Proof.
  intros Hcs Hza Hzb Ha Hb. unfold scan_pair. cbn [fst snd]. rewrite Ha, Hb.
  destruct (decide _) as [|Hfree]; [intros [= <-]; by left|].
  destruct (Qlt_le_dec _ VERTICAL_MIN) as [Hclose|]; [|intros [= <-]; by left].
  destruct (Qlt_le_dec _ (1 # 1000)).
  { destruct (Qlt_le_dec _ HORIZONTAL_MIN); intros [= <-]; [|by left].
    right; left. by eexists _, _. }
  destruct (_ && _); [|intros [= <-]; by left].
  destruct (Qlt_le_dec _ HORIZONTAL_MIN); [|intros [= <-]; by left].
  destruct (two_callsigns_search math_sin math_cos math_radians math_sqrt
              (mkResolver a b horizon) Hcs Hza Hzb)
    as (path & sst & Hrun & _ & _ & Hone & Hpath).
  cbn [res_A res_B] in Hone, Hpath. specialize (Hone Hclose).
  destruct path as [|m [|m' path]]; try done.
  unfold a_star_search. rewrite Hrun. cbn [fst]. intros [= <-].
  apply Forall_singleton in Hpath as (Hm & Hhead & Halt).
  right; right. exists m. eexists _, _, _.
  split; [apply eq_None_not_Some; tauto|]. split; [apply eq_None_not_Some; tauto|].
  split; [by apply (options_callsign (mkResolver a b horizon))|]. split; [done|].
  split; [by apply (options_no_speed (mkResolver a b horizon))|]. split; [done|].
  reflexivity.
Qed.

Lemma fleet_pass (c : ATC_Controller) :
  NoDup (callsign <$> aircraft_list c) ->
  Forall (fun ac => 5000 <= z ac) (aircraft_list c) ->
  exists c' reports,
    check c = Return (c', reports)
    /\ set_alert false <$> aircraft_list c' = set_alert false <$> aircraft_list c
    /\ Forall (fun rep => rep_status rep = NO_RES_ATTEMPTED
                          \/ rep_status rep = RESOLVED 1) reports
    /\ single_climbs (resolved_maneuvers c')
    /\ (forall cs, is_Some (resolved_maneuvers c' !! cs) ->
          cs ∈ callsign <$> aircraft_list c).
Proof.
  intros Hnd Hfloor.
  destruct (check_invariant math_sin math_cos math_radians math_sqrt
              (fun st => set_alert false <$> sc_aircraft st
                         = set_alert false <$> aircraft_list c
                         /\ Forall (fun rep => rep_status rep = NO_RES_ATTEMPTED
                                               \/ rep_status rep = RESOLVED 1)
                              (sc_conflicts st)
                         /\ single_climbs (sc_resolved st)
                         /\ (forall cs, is_Some (sc_resolved st !! cs) ->
                               cs ∈ callsign <$> aircraft_list c)) c)
    as (st & Hcheck & Hfleet & Hreports & Hqueues & Hlisted).
  - split; [|split; [|split]].
    + unfold clear_pass. cbn [sc_aircraft]. rewrite <- list_fmap_compose.
      apply list_fmap_ext. by intros k ac _.
    + constructor.
    + intros cs l. unfold clear_pass. cbn [sc_resolved]. by rewrite lookup_empty.
    + intros cs. unfold clear_pass. cbn [sc_resolved]. rewrite lookup_empty. by intros [].
  - intros st i j a b st' Hij (Hfleet & Hreports & Hqueues & Hlisted) Ha Hb Hstep.
    assert (Hlook : forall k ac, sc_aircraft st !! k = Some ac ->
              exists ac', aircraft_list c !! k = Some ac'
                          /\ callsign ac = callsign ac' /\ z ac = z ac').
    { intros k ac Hk.
      assert (Hk' : (set_alert false <$> aircraft_list c) !! k = Some (set_alert false ac))
        by (by rewrite <- Hfleet, list_lookup_fmap, Hk).
      rewrite list_lookup_fmap in Hk'. destruct (aircraft_list c !! k) as [ac'|]; [|done].
      change (Some (set_alert false ac') = Some (set_alert false ac)) in Hk'.
      exists ac'. split; [done|].
      assert (Heq : set_alert false ac = set_alert false ac') by congruence.
      apply same_kinematics in Heq. tauto. }
    destruct (Hlook i a Ha) as (a' & Ha' & Hca & Hza).
    destruct (Hlook j b Hb) as (b' & Hb' & Hcb & Hzb).
    assert (Hcs : callsign a <> callsign b).
    { rewrite Hca, Hcb. intros Heq.
      assert (i = j); [|lia].
      apply (NoDup_lookup _ i j (callsign a') Hnd); rewrite list_lookup_fmap.
      - by rewrite Ha'.
      - by rewrite Hb', Heq. }
    assert (Hfa : 5000 <= z a).
    { rewrite Hza. by apply (Forall_lookup_1 _ _ _ _ Hfloor Ha'). }
    assert (Hfb : 5000 <= z b).
    { rewrite Hzb. by apply (Forall_lookup_1 _ _ _ _ Hfloor Hb'). }
    assert (Hina : callsign a ∈ callsign <$> aircraft_list c).
    { rewrite Hca. apply list_elem_of_fmap. exists a'. split; [done|].
      by eapply list_elem_of_lookup_2. }
    assert (Hinb : callsign b ∈ callsign <$> aircraft_list c).
    { rewrite Hcb. apply list_elem_of_fmap. exists b'. split; [done|].
      by eapply list_elem_of_lookup_2. }
    destruct (scan_pair_result_fleet _ _ _ _ _ _ _ Hcs Hfa Hfb Ha Hb Hstep)
      as [->|[(d & v & ->)|(m & t & d & v & Hna & Hnb & Hm & Hhead & Hspeed & Halt & ->)]];
      cbn [sc_aircraft sc_conflicts sc_resolved].
    + done.
    + split; [by rewrite alert_pair_same_fleet|]. split; [|done].
      apply Forall_app. split; [done|]. apply Forall_singleton. by left.
    + split; [done|]. split.
      { apply Forall_app. split; [done|]. apply Forall_singleton. by right. }
      assert (Hnone : sc_resolved st !! m_callsign m = None) by (by destruct Hm as [->| ->]).
      unfold enqueue. rewrite Hnone. cbn [default from_option id app]. split.
      * intros cs l. destruct (decide (m_callsign m = cs)) as [<-|Hne].
        -- rewrite lookup_insert_eq. intros [= <-]. by exists m.
        -- rewrite lookup_insert_ne by done. apply Hqueues.
      * intros cs. destruct (decide (m_callsign m = cs)) as [<-|Hne].
        -- intros _. by destruct Hm as [->| ->].
        -- rewrite lookup_insert_ne by done. apply Hlisted.
  - eexists _, _. split; [exact Hcheck|]. by cbn.
Qed.

(** X25: in a fleet whose callsigns are all different and whose
    aircraft are all at or above 5000, [check_for_conflicts] never reports
    a failed search: every predicted conflict it examines is resolved in
    one step, and every queue it leaves holds exactly one maneuver, an
    altitude change for the aircraft the queue belongs to. *)
Theorem fleet_conflicts_resolved_in_one_step (c : ATC_Controller) :
  NoDup (callsign <$> aircraft_list c) ->
  Forall (fun ac => 5000 <= z ac) (aircraft_list c) ->
  exists c' reports,
    check c = Return (c', reports)
    /\ Forall (fun rep => rep_status rep = NO_RES_ATTEMPTED
                          \/ rep_status rep = RESOLVED 1) reports
    /\ single_climbs (resolved_maneuvers c').
Proof.
  intros Hnd Hfloor.
  destruct (fleet_pass c Hnd Hfloor) as (c' & reports & Hcheck & _ & Hrep & Hq & _).
  by exists c', reports.
Qed.

Local Abbreviation tick := (sim_step math_sin math_cos math_radians math_sqrt).

(** X26: in exact arithmetic, a tick keeps such a fleet such a fleet:
    starting from distinct callsigns and altitudes of at least 5000,
    [sim_step] returns, no line of its report says FAILED, the callsigns
    are still distinct and the altitudes still at least 5000, and no
    maneuver is left queued: every maneuver found in the tick is applied
    in the tick. *)
Theorem sim_step_keeps_fleet (c : ATC_Controller) (now : Z) :
  NoDup (callsign <$> aircraft_list c) ->
  Forall (fun ac => 5000 <= z ac) (aircraft_list c) ->
  exists c' reports,
    tick c now = Return (c', reports, (now + 5)%Z)
    /\ NoDup (callsign <$> aircraft_list c')
    /\ Forall (fun ac => 5000 <= z ac) (aircraft_list c')
    /\ Forall (fun rep => rep_status rep = NO_RES_ATTEMPTED
                          \/ rep_status rep = RESOLVED 1) reports
    /\ resolved_maneuvers c' = ∅.
Proof.
  intros Hnd Hfloor.
  destruct (fleet_pass c Hnd Hfloor)
    as (c1 & reports & Hcheck & Hfleet & Hrep & Hq & Hlisted).
  assert (Hcs : callsign <$> aircraft_list c1 = callsign <$> aircraft_list c).
  { assert (Hvia : forall l : list Aircraft,
              callsign <$> l = callsign <$> (set_alert false <$> l)).
    { intros l. rewrite <- list_fmap_compose. by apply list_fmap_ext. }
    by rewrite (Hvia (aircraft_list c1)), Hfleet, <- Hvia. }
  assert (Hz1 : Forall (fun ac => 5000 <= z ac) (aircraft_list c1)).
  { apply Forall_lookup. intros k ac Hk.
    assert (Hk' : (set_alert false <$> aircraft_list c) !! k = Some (set_alert false ac))
      by (by rewrite <- Hfleet, list_lookup_fmap, Hk).
    rewrite list_lookup_fmap in Hk'. destruct (aircraft_list c !! k) as [ac'|] eqn:Hc; [|done].
    change (Some (set_alert false ac') = Some (set_alert false ac)) in Hk'.
    assert (Heq : set_alert false ac = set_alert false ac') by congruence.
    apply same_kinematics in Heq as (_ & _ & _ & -> & _).
    by apply (Forall_lookup_1 _ _ _ _ Hfloor Hc). }
  assert (Hnd1 : NoDup (callsign <$> aircraft_list c1)) by (by rewrite Hcs).
  destruct (foldl_serve [] (resolved_maneuvers c1) (aircraft_list c1) Hnd1) as [Hl Hqueue].
  unfold sim_step. rewrite Hcheck. eexists _, _. split; [reflexivity|].
  cbn [aircraft_list resolved_maneuvers apply_resolved_maneuvers].
  rewrite Hl. cbn [app]. rewrite <- !list_fmap_compose. split; [|split; [|split]].
  - rewrite <- Hcs in Hnd. erewrite list_fmap_ext; [exact Hnd|].
    intros k ac _. cbn. by destruct (served_same_place (resolved_maneuvers c1) ac) as [-> _].
  - apply Forall_fmap. eapply Forall_impl; [exact Hz1|]. intros ac Hac. cbn.
    unfold served_aircraft. destruct (_ !! _) as [[|m l]|]; [done| |done].
    apply py_max_lb_l.
  - done.
  - apply map_eq. intros cs. rewrite Hqueue, lookup_empty.
    destruct (decide _) as [Hin|Hout].
    + destruct (resolved_maneuvers c1 !! cs) as [l|] eqn:Hcsq; [|done].
      by destruct (Hq cs l Hcsq) as (m & -> & _).
    + apply eq_None_not_Some. intros Hsome. apply Hout. rewrite Hcs. by apply Hlisted.
Qed.
End FleetFacts.

(** ** Sample runs of the added facts *)

Lemma approx_sqrt_nonneg (q : Q) : 0 <= approx_sqrt q.
Proof.
  unfold approx_sqrt, Qle. cbn [Qnum Qden].
  pose proof (Z.sqrt_nonneg (Qfloor (q * 1000000000000000000000000))). lia.
Qed.

Lemma three_way_callsigns : NoDup (callsign <$> aircraft_list three_way).
Proof. apply (bool_decide_unpack _). by vm_compute. Qed.

Lemma three_way_above_floor : Forall (fun ac => 5000 <= z ac) (aircraft_list three_way).
Proof.
  change (Forall (fun ac => 5000 <= z ac) [plane_a; plane_b; plane_x]).
  repeat constructor; by vm_compute.
Qed.

Lemma heuristic_at_most_ten_witness :
  _heuristic approx_sin approx_cos approx_radians approx_sqrt head_on
    (initial_state approx_sin approx_cos approx_radians approx_sqrt head_on) <= 10.
Proof.
  apply (heuristic_at_most_ten approx_sin approx_cos approx_radians approx_sqrt head_on).
  exact approx_sqrt_nonneg.
Defined.

Lemma g_cost_is_path_cost_witness :
  g_cost (initial_state approx_sin approx_cos approx_radians approx_sqrt head_on)
  == path_cost (reconstruct_path
                  (initial_state approx_sin approx_cos approx_radians approx_sqrt head_on))
  /\ inject_Z (Z.of_nat (length (reconstruct_path
                 (initial_state approx_sin approx_cos approx_radians approx_sqrt head_on))))
     * (1 # 2)
     <= g_cost (initial_state approx_sin approx_cos approx_radians approx_sqrt head_on).
Proof.
  apply (g_cost_is_path_cost approx_sin approx_cos approx_radians approx_sqrt head_on).
  apply generated_initial.
Defined.

Lemma same_callsign_never_resolved_witness :
  a_star_search approx_sin approx_cos approx_radians approx_sqrt twin = Return None
  /\ nodes_explored (a_star_run approx_sin approx_cos approx_radians approx_sqrt twin).2
     = 1000%nat.
Proof.
  apply (same_callsign_never_resolved approx_sin approx_cos approx_radians approx_sqrt twin).
  reflexivity.
Defined.

Lemma separated_fleet_is_quiet_witness :
  check_for_conflicts approx_sin approx_cos approx_radians approx_sqrt layered
  = Return (mkController (set_alert false <$> aircraft_list layered)
              (lookahead_time_min layered) (lookahead_time_hrs layered) ∅, []).
Proof.
  apply (separated_fleet_is_quiet approx_sin approx_cos approx_radians approx_sqrt layered).
  intros i j a b Hij Ha Hb.
  destruct i as [|[|i]]; destruct j as [|[|j]]; try lia; try discriminate Hb.
  injection Ha as <-. injection Hb as <-. by vm_compute.
Defined.

Lemma apply_resolved_one_each_witness :
  aircraft_list (apply_resolved_maneuvers stale_controller)
  = served_aircraft (resolved_maneuvers stale_controller) <$> aircraft_list stale_controller
  /\ forall cs, resolved_maneuvers (apply_resolved_maneuvers stale_controller) !! cs
                = if decide (cs ∈ callsign <$> aircraft_list stale_controller)
                  then queue_tail (resolved_maneuvers stale_controller !! cs)
                  else resolved_maneuvers stale_controller !! cs.
Proof.
  apply (apply_resolved_one_each stale_controller).
  apply (bool_decide_unpack _). by vm_compute.
Defined.

Lemma apply_resolved_keeps_queues_witness :
  queues_ok (resolved_maneuvers (apply_resolved_maneuvers stale_controller)).
Proof.
  apply (apply_resolved_keeps_queues stale_controller).
  intros cs l Hl.
  change (({[ "SWA789"%string := [heading_maneuver "SWA789" 10] ]}
             : gmap string (list Maneuver)) !! cs = Some l) in Hl.
  apply lookup_singleton_Some in Hl as [<- <-].
  split; [discriminate|]. by repeat constructor.
Defined.


Lemma dialog_keeps_callsigns_unique_witness :
  NoDup (callsign <$> aircraft_list
           (AddPlaneDialog_add_aircraft upper_string read_number three_way new_entry).1).
Proof.
  apply (dialog_keeps_callsigns_unique upper_string read_number three_way new_entry).
  exact three_way_callsigns.
Defined.

Lemma dialog_adds_new_aircraft_witness :
  (AddPlaneDialog_add_aircraft upper_string read_number three_way new_entry).2
  = Success_added (upper_string (entry_callsign new_entry))
  /\ aircraft_list (AddPlaneDialog_add_aircraft upper_string read_number three_way new_entry).1
     = aircraft_list three_way
       ++ [Aircraft_init (upper_string (entry_callsign new_entry)) 5 (-5) 33000 450 400]
  /\ resolved_maneuvers (AddPlaneDialog_add_aircraft upper_string read_number
                           three_way new_entry).1
     = resolved_maneuvers three_way.
Proof.
  apply (dialog_adds_new_aircraft upper_string read_number three_way new_entry
           5 (-5) 33000 450 400); try reflexivity.
  apply (bool_decide_unpack _). by vm_compute.
Defined.

Lemma dialog_refuses_bad_number_witness :
  AddPlaneDialog_add_aircraft upper_string read_number three_way bad_entry
  = (three_way, Input_error_numbers).
Proof.
  apply (dialog_refuses_bad_number upper_string read_number three_way bad_entry).
  right. right. left. reflexivity.
Defined.

Lemma two_callsigns_resolved_at_once_witness :
  exists path st,
    a_star_run approx_sin approx_cos approx_radians approx_sqrt head_on
    = (Return (Some path), st)
    /\ (nodes_explored st <= 2)%nat
    /\ (1000 <= Qabs (z (res_A head_on) - z (res_B head_on)) -> path = [])
    /\ (Qabs (z (res_A head_on) - z (res_B head_on)) < 1000 -> length path = 1%nat)
    /\ Forall (fun m => m ∈ MANEUVER_OPTIONS head_on
                        /\ heading_change m = 0 /\ ~ altitude_change m == 0) path.
Proof.
  apply (two_callsigns_resolved_at_once approx_sin approx_cos approx_radians approx_sqrt
           head_on); by vm_compute.
Defined.

Lemma fleet_conflicts_resolved_in_one_step_witness :
  exists c' reports,
    check_for_conflicts approx_sin approx_cos approx_radians approx_sqrt three_way
    = Return (c', reports)
    /\ Forall (fun rep => rep_status rep = NO_RES_ATTEMPTED
                          \/ rep_status rep = RESOLVED 1) reports
    /\ single_climbs (resolved_maneuvers c').
Proof.
  apply (fleet_conflicts_resolved_in_one_step approx_sin approx_cos approx_radians
           approx_sqrt three_way).
  - exact three_way_callsigns.
  - exact three_way_above_floor.
Defined.

Lemma sim_step_keeps_fleet_witness :
  exists c' reports,
    sim_step approx_sin approx_cos approx_radians approx_sqrt three_way 0
    = Return (c', reports, (0 + 5)%Z)
    /\ NoDup (callsign <$> aircraft_list c')
    /\ Forall (fun ac => 5000 <= z ac) (aircraft_list c')
    /\ Forall (fun rep => rep_status rep = NO_RES_ATTEMPTED
                          \/ rep_status rep = RESOLVED 1) reports
    /\ resolved_maneuvers c' = ∅.
Proof.
  apply (sim_step_keeps_fleet approx_sin approx_cos approx_radians approx_sqrt three_way 0).
  - exact three_way_callsigns.
  - exact three_way_above_floor.
Defined.

(** * The search and the maneuver on doubles *)

Section Binary64Facts.
Variables libm_sin libm_cos : float -> float.

Local Abbreviation heur64 := (Binary64._heuristic libm_sin libm_cos).
Local Abbreviation succ64 := (Binary64.successor libm_sin libm_cos).
Local Abbreviation step64 := (Binary64.consider libm_sin libm_cos).
Local Abbreviation expd64 := (Binary64.expand libm_sin libm_cos).
Local Abbreviation loop64 := (Binary64.search_loop libm_sin libm_cos).
Local Abbreviation run64 := (Binary64.a_star_run libm_sin libm_cos).

Lemma bind_raises {A B : Type} (c : Binary64.result A) (k : A -> Binary64.result B) :
  Binary64.raises_arithmetic c -> (forall a, Binary64.raises_arithmetic (k a)) ->
  Binary64.raises_arithmetic (c ≫= k).
Proof. intros Hc Hk. destruct c as [a|e]; [apply Hk|exact Hc]. Qed.

Lemma math_1_raises (f : float -> float) (v : float) :
  Binary64.raises_arithmetic (Binary64.math_1 f v).
Proof.
  unfold Binary64.math_1.
  destruct (is_nan (f v) && negb (is_nan v)); [by split|].
  destruct (is_infinity (f v) && is_finite v); [by split|done].
Qed.

Lemma pow2_raises (v : float) : Binary64.raises_arithmetic (Binary64.pow2 v).
Proof. unfold Binary64.pow2. destruct (_ && _); [by split|done]. Qed.

Lemma py_div_raises (a b : float) : Binary64.raises_arithmetic (Binary64.py_div a b).
Proof. unfold Binary64.py_div. destruct (_ =? _)%float; [by split|done]. Qed.

Lemma norm_raises (a b : float) : Binary64.raises_arithmetic (Binary64.norm a b).
Proof.
  unfold Binary64.norm.
  apply bind_raises; [apply pow2_raises|intros a2].
  apply bind_raises; [apply pow2_raises|intros b2]. apply math_1_raises.
Qed.

Lemma cpa_of_raises (lookahead : float) (a b : Binary64.kinematic) :
  Binary64.raises_arithmetic (Binary64.cpa_of libm_sin libm_cos lookahead a b).
Proof.
  destruct a as [[[[ax ay] az] aspd] ahead], b as [[[[bx by_] bz] bspd] bhead].
  unfold Binary64.cpa_of. destruct (_ <=? _)%float; [done|].
  do 4 (apply bind_raises; [apply math_1_raises|intros ?]).
  do 2 (apply bind_raises; [apply pow2_raises|intros ?]).
  destruct (_ <? _)%float.
  - apply bind_raises; [apply norm_raises|done].
  - apply bind_raises; [apply py_div_raises|intros tcpa].
    apply bind_raises; [destruct (_ <? _)%float; apply norm_raises|intros d].
    apply bind_raises; [|done].
    destruct (_ <? _)%float; [|done]. apply bind_raises; [apply norm_raises|done].
Qed.

Lemma heuristic_raises (r : Binary64.ConflictResolver) (s : Binary64.ConflictState) :
  Binary64.raises_arithmetic (heur64 r s).
Proof.
  unfold Binary64._heuristic, Binary64._calculate_cpa.
  apply bind_raises; [apply cpa_of_raises|]. intros [[h_dist h_v_sep] t].
  by destruct (_ && _).
Qed.

Lemma dict64_get_set (d : Binary64.states_dict) (k k' : string) (v : Binary64.kinematic) :
  is_Some (Binary64.dict_get (Binary64.dict_set d k v) k')
  <-> k = k' \/ is_Some (Binary64.dict_get d k').
Proof.
  induction d as [|[k0 v0] d IH]; cbn [Binary64.dict_set Binary64.dict_get].
  - destruct (decide (k = k')) as [->|Hne]; cbn.
    + split; [by left|by eexists].
    + split; [by intros []|intros [?|[]]; by simplify_eq].
  - destruct (decide (k0 = k)) as [->|Hne]; cbn [Binary64.dict_get].
    + destruct (decide (k = k')) as [->|Hne']; [split; [by left|by eexists]|].
      split; [by right|by intros [?|?]].
    + destruct (decide (k0 = k')) as [->|Hne']; [split; [by right|by eexists]|].
      exact IH.
Qed.

Lemma options64_callsign (r : Binary64.ConflictResolver) (m : Binary64.Maneuver) :
  m ∈ Binary64.MANEUVER_OPTIONS r ->
  Binary64.m_callsign m = Binary64.callsign (Binary64.res_A r)
  \/ Binary64.m_callsign m = Binary64.callsign (Binary64.res_B r).
Proof.
  unfold Binary64.MANEUVER_OPTIONS. rewrite !elem_of_app, !list_elem_of_fmap.
  intros [(d & -> & _)|[(d & -> & _)|[(d & -> & _)|(d & -> & _)]]]; cbn; auto.
Qed.

Lemma initial64_keys (r : Binary64.ConflictResolver) (g h f : float) :
  Binary64.keys_ok r (Binary64.Root (Binary64.initial_aircraft_data r) g h f).
Proof.
  unfold Binary64.keys_ok, Binary64.initial_aircraft_data. cbn [Binary64.aircraft_states].
  split; apply dict64_get_set.
  - right. apply dict64_get_set. by left.
  - by left.
Qed.

(** A successor of a state with both keys raises no [KeyError], and has
    both keys. *)
Lemma successor64_keys (r : Binary64.ConflictResolver) (cur : Binary64.ConflictState)
    (m : Binary64.Maneuver) :
  Binary64.keys_ok r cur -> m ∈ Binary64.MANEUVER_OPTIONS r ->
  match succ64 r cur m with
  | Binary64.Return s => Binary64.keys_ok r s
  | Binary64.Raise e => Binary64.arithmetic e
  end.
Proof.
  intros [Ha Hb] Hm. unfold Binary64.successor.
  assert (Hkey : is_Some (Binary64.dict_get (Binary64.aircraft_states cur)
                            (Binary64.m_callsign m)))
    by (destruct (options64_callsign r m Hm) as [-> | ->]; done).
  destruct Hkey as [[[[[x0 y0] z0] speed0] heading0] ->].
  match goal with |- context [heur64 r ?s] =>
    pose proof (heuristic_raises r s) as Hh; destruct (heur64 r s) as [h|e] end;
    cbn [mbind Binary64.result_bind]; [|exact Hh].
  unfold Binary64.keys_ok. cbn [Binary64.aircraft_states].
  split; apply dict64_get_set; by right.
Qed.

Lemma consider64_inv (r : Binary64.ConflictResolver) (cur : Binary64.ConflictState)
    (acc : Binary64.result (list Binary64.ConflictState
                            * list (Binary64.fingerprint * float)))
    (m : Binary64.Maneuver) :
  Binary64.keys_ok r cur -> m ∈ Binary64.MANEUVER_OPTIONS r ->
  match acc with
  | Binary64.Return og => Forall (Binary64.keys_ok r) og.1
  | Binary64.Raise e => Binary64.arithmetic e
  end ->
  match step64 r cur acc m with
  | Binary64.Return og => Forall (Binary64.keys_ok r) og.1
  | Binary64.Raise e => Binary64.arithmetic e
  end.
Proof.
  intros Hcur Hm Hacc. unfold Binary64.consider.
  destruct acc as [og|e]; cbn [mbind Binary64.result_bind]; [|exact Hacc].
  pose proof (successor64_keys r cur m Hcur Hm) as Hs.
  destruct (succ64 r cur m) as [s|e]; cbn [mbind Binary64.result_bind]; [|exact Hs].
  destruct (match Binary64.scores_get _ _ with Some _ => _ | None => _ end); [exact Hacc|].
  cbn [fst]. rewrite (heappush_perm Binary64.state_lt og.1 s).
  by apply Forall_cons.
Qed.

Lemma fold_consider64_inv (r : Binary64.ConflictResolver) (cur : Binary64.ConflictState)
    (ms : list Binary64.Maneuver)
    (acc : Binary64.result (list Binary64.ConflictState
                            * list (Binary64.fingerprint * float))) :
  Binary64.keys_ok r cur -> Forall (fun m => m ∈ Binary64.MANEUVER_OPTIONS r) ms ->
  match acc with
  | Binary64.Return og => Forall (Binary64.keys_ok r) og.1
  | Binary64.Raise e => Binary64.arithmetic e
  end ->
  match foldl (step64 r cur) acc ms with
  | Binary64.Return og => Forall (Binary64.keys_ok r) og.1
  | Binary64.Raise e => Binary64.arithmetic e
  end.
Proof.
  intros Hcur. revert acc. induction ms as [|m ms IH]; intros acc Hall Hacc; cbn [foldl];
    [exact Hacc|].
  apply Forall_cons in Hall as [Hm Hall].
  apply IH; [exact Hall|]. by apply consider64_inv.
Qed.

Lemma expand64_inv (r : Binary64.ConflictResolver) (cur : Binary64.ConflictState)
    (open : list Binary64.ConflictState) (gs : list (Binary64.fingerprint * float)) :
  Binary64.keys_ok r cur -> Forall (Binary64.keys_ok r) open ->
  match expd64 r cur open gs with
  | Binary64.Return og => Forall (Binary64.keys_ok r) og.1
  | Binary64.Raise e => Binary64.arithmetic e
  end.
Proof.
  intros Hcur Hopen. unfold Binary64.expand.
  apply fold_consider64_inv; [exact Hcur|by apply Forall_forall|exact Hopen].
Qed.

(** What the loop has done when it stops. *)
Lemma search_loop64_inv (fuel : nat) (r : Binary64.ConflictResolver) (st : Binary64.SearchState) :
  Forall (Binary64.keys_ok r) (Binary64.open_list st) ->
  (Binary64.nodes_explored st <= Binary64.max_search_nodes)%nat ->
  (Binary64.max_search_nodes < Binary64.nodes_explored st + fuel)%nat ->
  (Binary64.nodes_explored (loop64 fuel r st).2 <= Binary64.max_search_nodes)%nat
  /\ match (loop64 fuel r st).1 with
     | Some (Binary64.Return (Some path)) =>
         exists node, (Binary64.h_cost node =? 0)%float = true
                      /\ path = Binary64.reconstruct_path node
     | Some (Binary64.Return None) =>
         Binary64.open_list (loop64 fuel r st).2 = []
         \/ Binary64.nodes_explored (loop64 fuel r st).2 = Binary64.max_search_nodes
     | Some (Binary64.Raise e) => Binary64.arithmetic e
     | None => False
     end.
Proof.
  revert st. induction fuel as [|fuel IH]; intros st Hkeys Hle Hfuel.
  { unfold Binary64.max_search_nodes in *. lia. }
  cbn [Binary64.search_loop].
  destruct (Binary64.open_list st) as [|first rest] eqn:Hopen.
  { cbn [fst snd]. split; [done|by left]. }
  destruct (Binary64.nodes_explored st <? Binary64.max_search_nodes)%nat eqn:Hlt; cycle 1.
  { apply Nat.ltb_ge in Hlt. cbn [fst snd]. split; [done|right; lia]. }
  apply Nat.ltb_lt in Hlt.
  destruct (heappop Binary64.state_lt (first :: rest)) as [[cur open]|] eqn:Hpop; cycle 1.
  { exfalso. unfold heappop in Hpop.
    destruct (last (first :: rest)) eqn:Hlast; [|by apply last_None in Hlast].
    by destruct (removelast (first :: rest)). }
  pose proof (heappop_perm Binary64.state_lt _ _ _ Hpop) as Hperm.
  rewrite Hperm in Hkeys. apply Forall_cons in Hkeys as [Hcur Hrest].
  destruct (Binary64.h_cost cur =? 0)%float eqn:Hzero.
  { cbn [fst snd Binary64.nodes_explored]. split; [lia|]. by exists cur. }
  pose proof (expand64_inv r cur open (Binary64.g_scores st) Hcur Hrest) as Hexp.
  destruct (expd64 r cur open (Binary64.g_scores st)) as [[open' gs']|e].
  - apply IH; cbn [Binary64.open_list Binary64.nodes_explored]; [exact Hexp|lia|lia].
  - cbn [fst snd Binary64.nodes_explored]. split; [lia|exact Hexp].
Qed.

Lemma a_star_run64_shape (r : Binary64.ConflictResolver) :
  (Binary64.nodes_explored (run64 r).2 <= Binary64.max_search_nodes)%nat
  /\ match (run64 r).1 with
     | Some (Binary64.Return (Some path)) =>
         exists node, (Binary64.h_cost node =? 0)%float = true
                      /\ path = Binary64.reconstruct_path node
     | Some (Binary64.Return None) =>
         Binary64.open_list (run64 r).2 = []
         \/ Binary64.nodes_explored (run64 r).2 = Binary64.max_search_nodes
     | Some (Binary64.Raise e) => Binary64.arithmetic e
     | None => False
     end.
Proof.
  unfold Binary64.a_star_run, Binary64.initial_state.
  pose proof (heuristic_raises r (Binary64.Root (Binary64.initial_aircraft_data r) 0 0 0)) as Hh.
  destruct (heur64 r _) as [h|e]; cbn [mbind Binary64.result_bind].
  - apply search_loop64_inv; cbn [Binary64.open_list Binary64.nodes_explored].
    + apply Forall_singleton, initial64_keys.
    + unfold Binary64.max_search_nodes. lia.
    + unfold Binary64.max_search_nodes. lia.
  - cbn [fst snd Binary64.nodes_explored]. split; [unfold Binary64.max_search_nodes; lia|exact Hh].
Qed.

End Binary64Facts.

(** ** Runs on doubles *)


(** The squares of [_calculate_cpa] overflow for two level aircraft
    2e154 apart: the search raises [OverflowError] before its first pop. *)
Lemma search_raises_on_overflow :
  Binary64.a_star_run Binary64.approx_sin Binary64.approx_cos Binary64.wide_apart
  = (Some (Binary64.Raise Binary64.OverflowError), Binary64.mkSearch [] [] 0).
Proof. vm_compute. reflexivity. Qed.

(** C6 fails on doubles at the upper end of the heading range.  The
    heading 4.999999999999999 with the catalogue's change of -5 gives the
    sum -8.9e-16, and [%] answers 360.0 for it, since 360 minus so little
    rounds to 360.  The same happens in [Aircraft.__init__] for a heading
    of -1e-17. *)
Theorem apply_maneuver_heading_reaches_360 :
  Binary64.heading_maneuver "AAL123" (-5)
    ∈ Binary64.MANEUVER_OPTIONS
        (Binary64.mkResolver Binary64.nearly_five Binary64.nearly_five 0x1.5555555555555p-4)
  /\ Binary64.heading Binary64.nearly_five = 0x1.3ffffffffffffp+2%float
  /\ Binary64.heading
       (Binary64.apply_maneuver Binary64.nearly_five (Binary64.heading_maneuver "AAL123" (-5)))
     = 360%float
  /\ (Binary64.heading
        (Binary64.apply_maneuver Binary64.nearly_five
           (Binary64.heading_maneuver "AAL123" (-5))) <? 360)%float = false
  /\ Binary64.heading Binary64.nearly_north = 360%float.
Proof.
  split; [|by vm_compute].
  unfold Binary64.MANEUVER_OPTIONS. cbn [map Binary64.res_A Binary64.callsign app].
  apply list_elem_of_further, list_elem_of_further, list_elem_of_here.
Qed.
